(** * Candidate extraction and semantic review pipeline

    A shallow embedding of [core/axe_runner.py] (scan result to review
    candidates) and [core/rag_reviewer.py] (candidates to verdict records),
    with the properties of the pipeline stated and proved over it.
    The helpers of the report builders ([core/report_builders]) and of
    the application ([app/streamlit_app.py]) that read or prepare the
    same data are embedded after them.

    Conventions of the embedding.
    - A Python [str] is a [string] that holds the UTF-8 encoding of the
      text.  [lower], [strip] and the digit class [\d] are the ASCII ones,
      exact on ASCII text; where the text of a page or of a record is
      compared or written ([lower_text], [strip_text], [json_escape])
      the characters outside ASCII are read from their UTF-8 sequences.
      The only non-ASCII literal of the sources is the dash of the
      role/name separator.
    - [None] is [option]'s [None]; a [dict] with a fixed set of keys is a
      record; JSON data of unknown shape is a [json] tree.
    - A Python exception is a value of [exn]; code that can raise returns
      [outcome].
    - The browser page, the text service, [json.loads] and the process
      environment are collaborators outside the repository: they are
      fields of [Page] and [World] records passed to the functions that
      use them. *)

From Stdlib Require Import Ascii String ZArith Lia DecimalString DecimalZ.
From Stdlib Require Import QArith Qround.
From stdpp Require Import gmap strings list.

Open Scope string_scope.
Open Scope list_scope.

(* ================================================================== *)
(** ** Python string operations *)

Definition chr (n : N) : ascii := ascii_of_N n.
Definition ord (c : ascii) : N := N_of_ascii c.

Definition is_digit (c : ascii) : bool :=
  ((48 <=? ord c) && (ord c <=? 57))%N.

Definition is_upper (c : ascii) : bool :=
  ((65 <=? ord c) && (ord c <=? 90))%N.

Definition is_lower (c : ascii) : bool :=
  ((97 <=? ord c) && (ord c <=? 122))%N.

(** [str.isspace] on one ASCII character: TAB..CR, FS..US and the space. *)
Definition is_space (c : ascii) : bool :=
  ((9 <=? ord c) && (ord c <=? 13) || (28 <=? ord c) && (ord c <=? 32))%N.

Definition lower_char (c : ascii) : ascii :=
  if is_upper c then chr (ord c + 32) else c.

(** [s.lower()] *)
Fixpoint lower (s : string) : string :=
  match s with
  | EmptyString => EmptyString
  | String c s' => String (lower_char c) (lower s')
  end.

Definition str1 (c : ascii) : string := String c EmptyString.

(** The line feed, which [$] tolerates at the very end of a subject. *)
Definition LF : ascii := "010"%char.

(** The double quote. *)
Definition DQ : ascii := "034"%char.

Fixpoint lstrip (s : string) : string :=
  match s with
  | EmptyString => EmptyString
  | String c s' => if is_space c then lstrip s' else s
  end.

Fixpoint rstrip (s : string) : string :=
  match s with
  | EmptyString => EmptyString
  | String c s' =>
      let r := rstrip s' in
      if is_space c && String.eqb r "" then "" else String c r
  end.

(** [s.strip()] *)
Definition strip (s : string) : string := rstrip (lstrip s).

(** The characters of a [str] outside ASCII are held as their UTF-8
    sequences: a lead byte and one to three continuation bytes. *)
Definition is_continuation (c : ascii) : bool :=
  ((128 <=? ord c) && (ord c <=? 191))%N.

Definition leads2 (c : ascii) : bool := ((192 <=? ord c) && (ord c <=? 223))%N.
Definition leads3 (c : ascii) : bool := ((224 <=? ord c) && (ord c <=? 239))%N.
Definition leads4 (c : ascii) : bool := ((240 <=? ord c) && (ord c <=? 247))%N.

Definition code_point2 (c0 c1 : ascii) : N :=
  ((ord c0 - 192) * 64 + (ord c1 - 128))%N.
Definition code_point3 (c0 c1 c2 : ascii) : N :=
  (((ord c0 - 224) * 64 + (ord c1 - 128)) * 64 + (ord c2 - 128))%N.
Definition code_point4 (c0 c1 c2 c3 : ascii) : N :=
  ((((ord c0 - 240) * 64 + (ord c1 - 128)) * 64 + (ord c2 - 128)) * 64
   + (ord c3 - 128))%N.

(** [str.isspace] on a character outside ASCII, by its code point. *)
Definition is_space_point (n : N) : bool :=
  existsb (N.eqb n) [133; 160; 5760; 8232; 8233; 8239; 8287; 12288]%N
  || ((8192 <=? n) && (n <=? 8202))%N.

Definition space2 (c0 c1 : ascii) : bool :=
  leads2 c0 && is_continuation c1 && is_space_point (code_point2 c0 c1).

Definition space3 (c0 c1 c2 : ascii) : bool :=
  leads3 c0 && is_continuation c1 && is_continuation c2
  && is_space_point (code_point3 c0 c1 c2).

(** [s.strip()] on any text: the white space of [str.isspace], in ASCII
    or outside it, is taken from both ends. *)
Fixpoint lstrip_text (s : string) : string :=
  match s with
  | EmptyString => EmptyString
  | String c0 s0 =>
      if is_space c0 then lstrip_text s0
      else
        match s0 with
        | String c1 s1 =>
            if space2 c0 c1 then lstrip_text s1
            else
              match s1 with
              | String c2 s2 =>
                  if space3 c0 c1 c2 then lstrip_text s2 else s
              | EmptyString => s
              end
        | EmptyString => s
        end
  end.

Fixpoint rstrip_text (s : string) : string :=
  match s with
  | EmptyString => EmptyString
  | String c s' =>
      if String.eqb (lstrip_text s) "" then "" else String c (rstrip_text s')
  end.

Definition strip_text (s : string) : string := rstrip_text (lstrip_text s).

(** [s.lower()] on any text, as a comparison with ASCII text sees it:
    every ASCII character of the result is the one Python gives.  The
    two characters outside ASCII whose lower case holds an ASCII letter
    are mapped, U+0130 to [i] and U+0307 and U+212A to [k]; any other
    character outside ASCII has its lower case outside ASCII and is kept
    as it is. *)
Fixpoint lower_text (s : string) : string :=
  match s with
  | EmptyString => EmptyString
  | String c0 s0 =>
      let bytewise := String (lower_char c0) (lower_text s0) in
      match s0 with
      | String c1 s1 =>
          if leads2 c0 && is_continuation c1
             && (code_point2 c0 c1 =? 304)%N
          then String "i"%char
                 (String (chr 204) (String (chr 135) (lower_text s1)))
          else
            match s1 with
            | String c2 s2 =>
                if leads3 c0 && is_continuation c1 && is_continuation c2
                   && (code_point3 c0 c1 c2 =? 8490)%N
                then String "k"%char (lower_text s2)
                else bytewise
            | EmptyString => bytewise
            end
      | EmptyString => bytewise
      end
  end.

(** [s[:n]] *)
Fixpoint take_str (n : nat) (s : string) : string :=
  match n, s with
  | S n', String c s' => String c (take_str n' s')
  | _, _ => EmptyString
  end.

(** [s[n:]] *)
Fixpoint drop_str (n : nat) (s : string) : string :=
  match n, s with
  | S n', String _ s' => drop_str n' s'
  | _, _ => s
  end.

(** [sub in s] *)
Fixpoint contains (sub s : string) : bool :=
  if String.prefix sub s then true
  else match s with
       | EmptyString => false
       | String _ s' => contains sub s'
       end.

(** [s.find(sub)], with Python's [-1] for "not found". *)
Fixpoint find_from (i : Z) (sub s : string) : Z :=
  if String.prefix sub s then i
  else match s with
       | EmptyString => (-1)%Z
       | String _ s' => find_from (i + 1) sub s'
       end.

Definition str_find (sub s : string) : Z := find_from 0 sub s.

(** [s.rfind(sub)]: the highest index at which [sub] starts, or [-1]. *)
Fixpoint rfind_from (i : Z) (sub s : string) : Z :=
  match s with
  | EmptyString => if String.prefix sub s then i else (-1)%Z
  | String _ s' =>
      let later := rfind_from (i + 1) sub s' in
      if (0 <=? later)%Z then later
      else if String.prefix sub s then i else (-1)%Z
  end.

Definition str_rfind (sub s : string) : Z := rfind_from 0 sub s.

(** [s[a:b]] for indices [0 <= a]. *)
Definition slice (a b : Z) (s : string) : string :=
  take_str (Z.to_nat (b - a)) (drop_str (Z.to_nat a) s).

(** [s.split(sep, 1)[1]] when [sep in s]. *)
Fixpoint after_first (sep s : string) : option string :=
  if String.prefix sep s then Some (drop_str (String.length sep) s)
  else match s with
       | EmptyString => None
       | String _ s' => after_first sep s'
       end.

(** [s.replace(old, new)] for a non-empty [old]: [skip] counts the
    characters of a replaced occurrence still to be passed over. *)
Fixpoint replace_from (skip : nat) (old new s : string) : string :=
  match s with
  | EmptyString => EmptyString
  | String c s' =>
      match skip with
      | S k => replace_from k old new s'
      | O =>
          if String.prefix old s
          then new +:+ replace_from (String.length old - 1) old new s'
          else String c (replace_from 0 old new s')
      end
  end.

Definition str_replace (old new s : string) : string :=
  replace_from 0 old new s.

(** [sep.join(parts)] *)
Fixpoint str_join (sep : string) (parts : list string) : string :=
  match parts with
  | [] => ""
  | [p] => p
  | p :: ps => p +:+ sep +:+ str_join sep ps
  end.

(* ================================================================== *)
(** ** The two regular expressions *)

(** The three groups of a match. *)
Definition groups : Type := ascii * ascii * ascii.

(** [".".join(m.groups())] *)
Definition dotted (g : groups) : string :=
  let '(a, b, c) := g in str_join "." [str1 a; str1 b; str1 c].

(** [$] without [re.MULTILINE]: the end of the subject, or just before a
    line feed that is its last character. *)
Definition at_dollar (rest : string) : bool :=
  match rest with
  | EmptyString => true
  | String c EmptyString => Ascii.eqb c LF
  | _ => false
  end.

(** One attempt of [wcag(\d)(\d)(\d)$] at the start of [s]; [ci] is
    [re.IGNORECASE]. *)
Definition wcag_at (ci : bool) (s : string) : option groups :=
  let lit (x c : ascii) : bool :=
    Ascii.eqb (if ci then lower_char c else c) x in
  match s with
  | String w (String c (String a (String g
      (String d1 (String d2 (String d3 rest)))))) =>
      if lit "w"%char w && lit "c"%char c && lit "a"%char a && lit "g"%char g
         && is_digit d1 && is_digit d2 && is_digit d3 && at_dollar rest
      then Some (d1, d2, d3) else None
  | _ => None
  end.

(** One attempt of [(\d)\.(\d)\.(\d)] at the start of [s]. *)
Definition sc_at (s : string) : option groups :=
  match s with
  | String d1 (String p1 (String d2 (String p2 (String d3 _)))) =>
      if is_digit d1 && Ascii.eqb p1 "."%char && is_digit d2
         && Ascii.eqb p2 "."%char && is_digit d3
      then Some (d1, d2, d3) else None
  | _ => None
  end.

(** [pattern.search(s)]: the attempt at the leftmost position that
    succeeds. *)
Fixpoint re_search (attempt : string -> option groups) (s : string)
  : option groups :=
  match attempt s with
  | Some g => Some g
  | None => match s with
            | EmptyString => None
            | String _ s' => re_search attempt s'
            end
  end.

(** [re.match(r"wcag(\d)(\d)(\d)$", s)] of axe_runner. *)
Definition wcag_re_match (s : string) : option groups := wcag_at false s.

(** [_SC_REGEX] and [_WCAG_TAG_REGEX] of rag_reviewer. *)
Definition _SC_REGEX_search (s : string) : option groups := re_search sc_at s.
Definition _WCAG_TAG_REGEX_match (s : string) : option groups := wcag_at true s.
Definition _WCAG_TAG_REGEX_search (s : string) : option groups :=
  re_search (wcag_at true) s.

(* ================================================================== *)
(** ** axe_runner: success criteria of a rule *)

(** [x or []] *)
Definition or_nil {A} (x : option (list A)) : list A :=
  match x with Some l => l | None => [] end.

(** The body of [for t in tags or []]. *)
Definition extract_step (scs : list string) (t : string) : list string :=
  match wcag_re_match (lower t) with
  | Some g => scs ++ [dotted g]
  | None => scs
  end.

Definition _extract_scs (tags : option (list string)) : list string :=
  fold_left extract_step (or_nil tags) [].

Definition _primary_sc (scs : list string) : option string :=
  match scs with
  | sc :: _ => Some sc
  | [] => None
  end.

(** [f"SC-{_primary_sc(scs)}" if scs else "BEST_PRACTICE"] *)
Definition topic_of (scs : list string) : string :=
  match _primary_sc scs with
  | Some sc => "SC-" +:+ sc
  | None => "BEST_PRACTICE"
  end.

(* ================================================================== *)
(** ** Exceptions and JSON data *)

(** An exception: its class and its message ([str(e)]). *)
Inductive exn : Type := Exn (cls msg : string).

Definition exn_msg (e : exn) : string := let 'Exn _ m := e in m.
Definition exn_cls (e : exn) : string := let 'Exn c _ := e in c.

Inductive outcome (A : Type) : Type :=
| Ok (a : A)
| Raise (e : exn).
Arguments Ok {A} a.
Arguments Raise {A} e.

Definition bind {A B} (m : outcome A) (k : A -> outcome B) : outcome B :=
  match m with
  | Ok a => k a
  | Raise e => Raise e
  end.

Notation "'let*' x ':=' m 'in' k" := (bind m (fun x => k))
  (at level 10, x name, m at level 100, k at level 200).

Set Warnings "-register-all".

(** A JSON value; a float carries the text [repr] prints for it. *)
Inductive json : Type :=
| JNull
| JBool (b : bool)
| JInt (n : Z)
| JFloat (repr : string)
| JStr (s : string)
| JList (items : list json)
| JObj (members : list (string * json)).

(** [str(x)] of an optional string inside an f-string. *)
Definition py_str (x : option string) : string :=
  match x with Some s => s | None => "None" end.

(** [x or ""] *)
Definition or_empty (x : option string) : string :=
  match x with Some s => s | None => "" end.

(* ================================================================== *)
(** ** axe_runner: the scan result and the page *)

(** One entry of a node's [any] / [all] / [none] list. *)
Record AxeCheck : Type := {
  ck_id : option string;
  ck_message : option string;
  ck_data : option string
}.

Record Node : Type := {
  n_target : option (list string);
  n_html : option string;
  n_failureSummary : option string;
  n_any : option (list AxeCheck);
  n_all : option (list AxeCheck);
  n_none : option (list AxeCheck)
}.

Record Rule : Type := {
  r_id : option string;
  r_tags : option (list string);
  r_help : option string;
  r_helpUrl : option string;
  r_impact : option string;
  r_nodes : list Node
}.

(** [axe_payload]; [.get(bucket, [])] of an absent bucket is the empty
    list. *)
Record AxePayload : Type := {
  violations : list Rule;
  incomplete : list Rule;
  passes : list Rule
}.

(** The page as the candidate builder queries it.  The helpers
    [get_accessibility_snapshot], [get_nearby_text], [get_role_name_guess]
    and [crop_element_screenshot] wrap their queries in [try/except] and
    return a default, so they are total functions of the selector.
    [eval_closest] is [page.eval_on_selector(sel, "(el)=>!!el.closest(
    'a,button')")], which raises when nothing matches [sel]. *)
Record Page : Type := {
  query_selector : string -> bool;
  eval_attributes : string -> list (string * string);
  eval_closest : string -> outcome bool;
  inner_text : string -> option string;
  get_accessibility_snapshot : string -> json;
  get_nearby_text : string -> string;
  get_role_name_guess : string -> string;
  crop_element_screenshot : string -> string -> option string
}.

(** [s.strip(chars)] *)
Definition in_chars (chars : string) (c : ascii) : bool :=
  existsb (Ascii.eqb c) (list_ascii_of_string chars).

Fixpoint lstrip_chars (chars s : string) : string :=
  match s with
  | EmptyString => EmptyString
  | String c s' => if in_chars chars c then lstrip_chars chars s' else s
  end.

Fixpoint rstrip_chars (chars s : string) : string :=
  match s with
  | EmptyString => EmptyString
  | String c s' =>
      let r := rstrip_chars chars s' in
      if in_chars chars c && String.eqb r "" then "" else String c r
  end.

Definition strip_chars (chars s : string) : string :=
  rstrip_chars chars (lstrip_chars chars s).

(** [a or b] on optional strings, the empty string being falsy. *)
Definition or_else (a b : option string) : option string :=
  match a with
  | Some s => if String.eqb s "" then b else a
  | None => b
  end.

Definition _msgs (items : option (list AxeCheck)) : list string :=
  fold_left
    (fun out it =>
       let mid := or_empty (ck_id it) in
       let msg := or_empty (or_else (ck_message it) (ck_data it)) in
       out ++ [strip (strip_chars ": " (mid +:+ ": " +:+ msg))])
    (or_nil items) [].

(** [re.sub(r"[^a-zA-Z0-9._-]+", "_", s)[:120]] *)
Definition filename_char (c : ascii) : bool :=
  is_lower c || is_upper c || is_digit c || in_chars "._-" c.

Fixpoint sub_runs (in_run : bool) (s : string) : string :=
  match s with
  | EmptyString => EmptyString
  | String c s' =>
      if filename_char c then String c (sub_runs false s')
      else if in_run then sub_runs true s'
      else String "_"%char (sub_runs true s')
  end.

Definition sanitize_filename (s : string) : string :=
  take_str 120 (sub_runs false s).

(** A review candidate, one element of [candidates.json]. *)
Record Candidate : Type := {
  page_url : string;
  bucket : string;
  topic : string;
  sc_list : list string;
  axe_rule_id : option string;
  axe_help : option string;
  axe_help_url : option string;
  impact : option string;
  selector : string;
  html_snippet : string;
  attributes : list (string * string);
  role_name_guess : string;
  nearby_text : string;
  acc_snapshot : json;
  screenshot : option string;
  failureSummary : option string;
  why_any : list string;
  why_all : list string;
  why_none : list string
}.

(** The deduplication key and the set of keys seen so far. *)
Definition Key : Type := option string * string.

Definition candidate_key (c : Candidate) : Key := (axe_rule_id c, selector c).

(** [(n.get("target") or [""])[0]] *)
Definition node_selector (n : Node) : string :=
  match n_target n with
  | Some (sel :: _) => sel
  | _ => ""
  end.

(** The dictionary appended to [candidates]; the context queries are made
    in the order of the source. *)
Definition make_candidate (url out_dir : string) (page : Page)
    (bucket_name : string) (r : Rule) (scs : list string)
    (topic_str : string) (n : Node) (sel : string) : Candidate :=
  let shot_name :=
    sanitize_filename (py_str (r_id r) +:+ "__" +:+ take_str 60 sel)
    +:+ ".png" in
  let shot_path := out_dir +:+ "/screenshots/" +:+ shot_name in
  {| page_url := url;
     bucket := bucket_name;
     topic := topic_str;
     sc_list := scs;
     axe_rule_id := r_id r;
     axe_help := r_help r;
     axe_help_url := r_helpUrl r;
     impact := r_impact r;
     selector := sel;
     html_snippet := or_empty (n_html n);
     attributes :=
       if query_selector page sel then eval_attributes page sel else [];
     role_name_guess := get_role_name_guess page sel;
     nearby_text := get_nearby_text page sel;
     acc_snapshot := get_accessibility_snapshot page sel;
     screenshot := crop_element_screenshot page sel shot_path;
     failureSummary := n_failureSummary n;
     why_any := _msgs (n_any n);
     why_all := _msgs (n_all n);
     why_none := _msgs (n_none n) |}.

(** The loop state: [seen] and [candidates]. *)
Definition ScanState : Type := gset Key * list Candidate.

Definition seen_of (st : ScanState) : gset Key := fst st.
Definition candidates_of (st : ScanState) : list Candidate := snd st.

Definition add_candidate (st : ScanState) (c : Candidate) : ScanState :=
  ({[ candidate_key c ]} ∪ seen_of st, candidates_of st ++ [c]).

(* ================================================================== *)
(** ** axe_runner: building the candidates *)

Section CandidateSelector.

Variables (url out_dir : string) (page : Page).

(** The body of [for n in r.get("nodes", [])] of the must-review pass. *)
Definition must_review_node (r : Rule) (scs : list string)
    (topic_str : string) (st : ScanState) (n : Node) : ScanState :=
  let sel := node_selector n in
  if String.eqb sel "" then st
  else if bool_decide ((r_id r, sel) ∈ seen_of st) then st
  else add_candidate st
         (make_candidate url out_dir page "must_review" r scs topic_str
            n sel).

Definition must_review_rule (st : ScanState) (r : Rule) : ScanState :=
  let scs := _extract_scs (r_tags r) in
  let topic_str := topic_of scs in
  fold_left (must_review_node r scs topic_str) (r_nodes r) st.

(** [for bucket in ["violations", "incomplete"]] *)
Definition must_review (payload : AxePayload) (st : ScanState)
  : ScanState :=
  fold_left (fun st rules => fold_left must_review_rule rules st)
    [violations payload; incomplete payload] st.

(** [any(g in rn for g in ["image","photo","img_",".jpg",".png"])] on
    the lowered role/name guess. *)
Definition generic_name (sel : string) : bool :=
  let role_name := lower_text (get_role_name_guess page sel) in
  let rn :=
    match after_first " — " role_name with
    | Some name => name
    | None => role_name
    end in
  existsb (fun g => contains g rn) ["image"; "photo"; "img_"; ".jpg"; ".png"].

(** The [image-alt] loop; it stops ([break]) at the first promotion. *)
Fixpoint promote_image_alt (r : Rule) (scs : list string)
    (topic_str : string) (st : ScanState) (nodes : list Node)
  : outcome ScanState :=
  match nodes with
  | [] => Ok st
  | n :: rest =>
      let sel := node_selector n in
      if String.eqb sel "" then promote_image_alt r scs topic_str st rest
      else
        let generic := generic_name sel in
        let* is_functional := eval_closest page sel in
        if is_functional || generic then
          if bool_decide ((r_id r, sel) ∈ seen_of st)
          then promote_image_alt r scs topic_str st rest
          else Ok (add_candidate st
                     (make_candidate url out_dir page "semantic_review" r
                        scs topic_str n sel))
        else promote_image_alt r scs topic_str st rest
  end.

(** [(page.inner_text(sel) or "").strip().lower() if
    page.query_selector(sel) else ""] *)
Definition link_text (sel : string) : string :=
  if query_selector page sel
  then lower_text (strip_text (or_empty (inner_text page sel)))
  else "".

Definition vague_link_texts : list string :=
  ["click here"; "learn more"; "read more"].

Definition vague_link (sel : string) : bool :=
  existsb (String.eqb (link_text sel)) vague_link_texts.

(** The [link-name] loop; it stops ([break]) at the first promotion. *)
Fixpoint promote_link_name (r : Rule) (scs : list string)
    (topic_str : string) (st : ScanState) (nodes : list Node)
  : ScanState :=
  match nodes with
  | [] => st
  | n :: rest =>
      let sel := node_selector n in
      if String.eqb sel "" then promote_link_name r scs topic_str st rest
      else if vague_link sel then
        if bool_decide ((r_id r, sel) ∈ seen_of st)
        then promote_link_name r scs topic_str st rest
        else add_candidate st
               (make_candidate url out_dir page "semantic_review" r scs
                  topic_str n sel)
      else promote_link_name r scs topic_str st rest
  end.

(** The body of [for r in axe_payload.get("passes", [])]. *)
Definition promote_rule (st : ScanState) (r : Rule) : outcome ScanState :=
  let rid := r_id r in
  if negb (bool_decide (rid = Some "image-alt")
           || bool_decide (rid = Some "link-name"))
  then Ok st
  else
    let scs := _extract_scs (r_tags r) in
    let topic_str := topic_of scs in
    let* st1 :=
      (if bool_decide (rid = Some "image-alt")
       then promote_image_alt r scs topic_str st (firstn 30 (r_nodes r))
       else Ok st) in
    if bool_decide (rid = Some "link-name")
    then Ok (promote_link_name r scs topic_str st1 (firstn 30 (r_nodes r)))
    else Ok st1.

Fixpoint promote_passes (st : ScanState) (rules : list Rule)
  : outcome ScanState :=
  match rules with
  | [] => Ok st
  | r :: rest =>
      let* st' := promote_rule st r in
      promote_passes st' rest
  end.

(** The candidate-building part of [run_axe_on_url], from
    [candidates = []] to the list written to [candidates.json]; the
    payload is what the injected scanner returned. *)
Definition run_axe_on_url (payload : AxePayload)
  : outcome (list Candidate) :=
  let st0 : ScanState := (∅, []) in
  let st1 := must_review payload st0 in
  let* st2 := promote_passes st1 (passes payload) in
  Ok (candidates_of st2).

End CandidateSelector.

(* ================================================================== *)
(** ** The library functions the reviewer calls *)

(** *** Numbers as text *)

Definition hex_digit (n : N) : ascii :=
  if (n <? 10)%N then chr (48 + n) else chr (87 + n).

(** The [k] low hexadecimal digits of [n], most significant first. *)
Fixpoint hex_fixed (k : nat) (n : N) : string :=
  match k with
  | O => EmptyString
  | S k' => hex_fixed k' (n / 16) +:+ str1 (hex_digit (n mod 16))
  end.

(** [str(n)] of an integer. *)
Definition str_of_Z (n : Z) : string :=
  NilZero.string_of_int (Z.to_int n).

(** [f"{i:03d}"] of a list index. *)
Definition pad3 (i : nat) : string :=
  let s := str_of_Z (Z.of_nat i) in
  match String.length s with
  | 1 => "00" +:+ s
  | 2 => "0" +:+ s
  | _ => s
  end.

(** *** [json.dumps] *)

(** One character of a JSON string literal: the escapes of
    [json.encoder] ([ESCAPE] when [ensure_ascii] is false, [ESCAPE_ASCII]
    otherwise).  Under [ensure_ascii] a byte above 127 that is not part of
    a UTF-8 sequence stands for no character of a [str]; it is escaped as
    it is. *)
Definition json_escape_char (ensure_ascii : bool) (c : ascii) : string :=
  let n := ord c in
  if (n =? 34)%N then "\" +:+ str1 DQ
  else if (n =? 92)%N then "\\"
  else if (n =? 10)%N then "\n"
  else if (n =? 13)%N then "\r"
  else if (n =? 9)%N then "\t"
  else if (n =? 8)%N then "\b"
  else if (n =? 12)%N then "\f"
  else if (n <? 32)%N || (ensure_ascii && (126 <? n)%N)
       then "\u" +:+ hex_fixed 4 n
  else str1 c.

(** [ESCAPE_ASCII] on a character outside ASCII: its code point on four
    hexadecimal digits, or its two surrogates when it is beyond
    [0xFFFF]. *)
Definition escape_code_point (n : N) : string :=
  if (n <? 65536)%N then "\u" +:+ hex_fixed 4 n
  else
    let v := (n - 65536)%N in
    "\u" +:+ hex_fixed 4 (55296 + v / 1024)
    +:+ "\u" +:+ hex_fixed 4 (56320 + v mod 1024).

Fixpoint json_escape (ensure_ascii : bool) (s : string) : string :=
  match s with
  | EmptyString => EmptyString
  | String c0 s0 =>
      let bytewise :=
        json_escape_char ensure_ascii c0 +:+ json_escape ensure_ascii s0 in
      if negb ensure_ascii || (ord c0 <? 128)%N then bytewise
      else
        match s0 with
        | String c1 s1 =>
            if leads2 c0 && is_continuation c1
            then escape_code_point (code_point2 c0 c1)
                 +:+ json_escape ensure_ascii s1
            else
              match s1 with
              | String c2 s2 =>
                  if leads3 c0 && is_continuation c1 && is_continuation c2
                  then escape_code_point (code_point3 c0 c1 c2)
                       +:+ json_escape ensure_ascii s2
                  else
                    match s2 with
                    | String c3 s3 =>
                        if leads4 c0 && is_continuation c1
                           && is_continuation c2 && is_continuation c3
                        then escape_code_point (code_point4 c0 c1 c2 c3)
                             +:+ json_escape ensure_ascii s3
                        else bytewise
                    | EmptyString => bytewise
                    end
              | EmptyString => bytewise
              end
        | EmptyString => bytewise
        end
  end.

Definition json_string (ensure_ascii : bool) (s : string) : string :=
  str1 DQ +:+ json_escape ensure_ascii s +:+ str1 DQ.

Fixpoint spaces (n : nat) : string :=
  match n with
  | O => EmptyString
  | S k => String " "%char (spaces k)
  end.

(** The text between the brackets of a non-empty container at nesting
    [level]: [parts] are the encoded items. *)
Definition json_container (indent : option nat) (level : nat)
    (opening closing : string) (parts : list string) : string :=
  match indent with
  | Some k =>
      let nl := str1 LF +:+ spaces (k * S level) in
      opening +:+ nl +:+ str_join ("," +:+ nl) parts
      +:+ str1 LF +:+ spaces (k * level) +:+ closing
  | None => opening +:+ str_join ", " parts +:+ closing
  end.

Fixpoint json_encode (indent : option nat) (ensure_ascii : bool)
    (level : nat) (j : json) : string :=
  match j with
  | JNull => "null"
  | JBool true => "true"
  | JBool false => "false"
  | JInt n => str_of_Z n
  | JFloat r => r
  | JStr s => json_string ensure_ascii s
  | JList [] => "[]"
  | JList items =>
      json_container indent level "[" "]"
        (map (json_encode indent ensure_ascii (S level)) items)
  | JObj [] => "{}"
  | JObj members =>
      json_container indent level "{" "}"
        (map (fun kv =>
                let '(k, v) := kv in
                json_string ensure_ascii k +:+ ": "
                +:+ json_encode indent ensure_ascii (S level) v)
           members)
  end.

(** [json.dumps(j, indent=indent, ensure_ascii=ensure_ascii)] *)
Definition json_dumps (indent : option nat) (ensure_ascii : bool) (j : json)
  : string :=
  json_encode indent ensure_ascii 0 j.

Definition json_of_opt (x : option string) : json :=
  match x with Some s => JStr s | None => JNull end.

Definition json_of_strings (l : list string) : json := JList (map JStr l).

(** *** [hashlib.sha256] *)

Module Sha256.

Local Open Scope N_scope.

Definition word (x : N) : N := x mod 2 ^ 32.
Definition add (x y : N) : N := word (x + y).
Definition rotr (k x : N) : N :=
  N.lor (N.shiftr x k) (word (N.shiftl x (32 - k))).
Definition lnot (x : N) : N := N.lxor x (2 ^ 32 - 1).

Definition Ch (x y z : N) : N := N.lxor (N.land x y) (N.land (lnot x) z).
Definition Maj (x y z : N) : N :=
  N.lxor (N.lxor (N.land x y) (N.land x z)) (N.land y z).
Definition Sigma0 (x : N) : N :=
  N.lxor (N.lxor (rotr 2 x) (rotr 13 x)) (rotr 22 x).
Definition Sigma1 (x : N) : N :=
  N.lxor (N.lxor (rotr 6 x) (rotr 11 x)) (rotr 25 x).
Definition sigma0 (x : N) : N :=
  N.lxor (N.lxor (rotr 7 x) (rotr 18 x)) (N.shiftr x 3).
Definition sigma1 (x : N) : N :=
  N.lxor (N.lxor (rotr 17 x) (rotr 19 x)) (N.shiftr x 10).

(** The constants are the fractional parts of roots of the first primes,
    taken to 32 bits: cube roots of the first 64 for the rounds, square
    roots of the first 8 for the initial words. *)
Definition is_prime (n : nat) : bool :=
  forallb (fun d => negb (Nat.eqb (n mod d) 0)) (seq 2 (n - 2))%nat.

Definition first_primes (count : nat) : list N :=
  map N.of_nat (firstn count (List.filter is_prime (seq 2 310)%nat)).

(** The integer cube root, found bit by bit from bit [k - 1] down. *)
Fixpoint cube_root_bits (k : nat) (n r : N) : N :=
  match k with
  | O => r
  | S k' =>
      let r' := r + 2 ^ N.of_nat k' in
      cube_root_bits k' n (if r' * r' * r' <=? n then r' else r)
  end.

Definition cube_root_fraction (p : N) : N :=
  word (cube_root_bits 36%nat (p * 2 ^ 96) 0).

Definition square_root_fraction (p : N) : N :=
  word (N.sqrt (p * 2 ^ 64)).

Definition K : list N :=
  Eval vm_compute in map cube_root_fraction (first_primes 64%nat).

(** The eight working words. *)
Record state : Type := State {
  ha : N; hb : N; hc : N; hd : N; he : N; hf : N; hg : N; hh : N
}.

Definition initial_words : list N :=
  Eval vm_compute in map square_root_fraction (first_primes 8%nat).

Definition H0 : state :=
  match initial_words with
  | [a; b; c; d; e; f; g; h] => State a b c d e f g h
  | _ => State 0 0 0 0 0 0 0 0
  end.

(** Message padding: the bit [1], zeros, and the bit length on 64 bits. *)
Definition be_bytes (k : nat) (n : N) : list N :=
  map (fun i => (N.shiftr n (8 * N.of_nat i)) mod 256) (rev (seq 0%nat k)).

Definition pad (msg : list N) : list N :=
  let len := N.of_nat (length msg) in
  let zeros := N.to_nat ((119 - len mod 64) mod 64) in
  (msg ++ [0x80] ++ repeat 0 zeros ++ be_bytes 8 (8 * len))%list.

Fixpoint be_words (fuel : nat) (bs : list N) : list N :=
  match fuel, bs with
  | S f, b0 :: b1 :: b2 :: b3 :: rest =>
      (b0 * 2 ^ 24 + b1 * 2 ^ 16 + b2 * 2 ^ 8 + b3) :: be_words f rest
  | _, _ => []
  end.

(** The message schedule, grown from the 16 words of a block. *)
Fixpoint schedule (n : nat) (w : list N) : list N :=
  match n with
  | O => w
  | S k =>
      let i := length w in
      let at_ (j : nat) := nth (i - j)%nat w 0 in
      schedule k
        (w ++ [add (add (sigma1 (at_ 2%nat)) (at_ 7%nat))
                   (add (sigma0 (at_ 15%nat)) (at_ 16%nat))])%list
  end.

Definition round (s : state) (kw : N * N) : state :=
  let '(k, w) := kw in
  let t1 :=
    add (add (add (hh s) (Sigma1 (he s))) (add (Ch (he s) (hf s) (hg s)) k))
      w in
  let t2 := add (Sigma0 (ha s)) (Maj (ha s) (hb s) (hc s)) in
  State (add t1 t2) (ha s) (hb s) (hc s) (add (hd s) t1) (he s) (hf s)
    (hg s).

Definition compress (s : state) (block : list N) : state :=
  let w := schedule 48%nat (be_words 16%nat block) in
  let s' := fold_left round (combine K w) s in
  State (add (ha s) (ha s')) (add (hb s) (hb s')) (add (hc s) (hc s'))
        (add (hd s) (hd s')) (add (he s) (he s')) (add (hf s) (hf s'))
        (add (hg s) (hg s')) (add (hh s) (hh s')).

Fixpoint blocks (fuel : nat) (bs : list N) : list (list N) :=
  match fuel, bs with
  | S f, _ :: _ => firstn 64%nat bs :: blocks f (skipn 64%nat bs)
  | _, _ => []
  end.

Definition digest (msg : list N) : state :=
  let padded := pad msg in
  fold_left compress (blocks (length padded) padded) H0.

Definition hex_word (x : N) : string := hex_fixed 8%nat x.

(** [sha256(data).hexdigest()] *)
Definition hexdigest (data : string) : string :=
  let s := digest (map N_of_ascii (list_ascii_of_string data)) in
  hex_word (ha s) +:+ hex_word (hb s) +:+ hex_word (hc s)
  +:+ hex_word (hd s) +:+ hex_word (he s) +:+ hex_word (hf s)
  +:+ hex_word (hg s) +:+ hex_word (hh s).

End Sha256.

(** *** [repr] of a string *)

Definition SQ : ascii := "'"%char.

Definition repr_char (quote c : ascii) : string :=
  let n := ord c in
  if (n =? 92)%N then "\\"
  else if Ascii.eqb c quote then "\" +:+ str1 c
  else if (n =? 9)%N then "\t"
  else if (n =? 10)%N then "\n"
  else if (n =? 13)%N then "\r"
  else if (n <? 32)%N || (n =? 127)%N then "\x" +:+ hex_fixed 2 n
  else str1 c.

Fixpoint repr_body (quote : ascii) (s : string) : string :=
  match s with
  | EmptyString => EmptyString
  | String c s' => repr_char quote c +:+ repr_body quote s'
  end.

Definition py_repr (s : string) : string :=
  let quote :=
    if contains (str1 SQ) s && negb (contains (str1 DQ) s) then DQ else SQ in
  str1 quote +:+ repr_body quote s +:+ str1 quote.

(** *** [str.format] with keyword arguments, each a string or [None]

    The template is read as [MarkupIterator] of CPython reads it: literal
    text with doubled braces, and replacement fields
    [{name!conversion:spec}].  Each field is rendered before the next is
    read, so what is raised is decided by the first place that fails.
    There are no positional arguments: a field without a name or with a
    numeric name raises [IndexError].  A format spec that holds fields is
    formatted first, one level deep. *)

Definition ValueError (msg : string) : exn := Exn "ValueError" msg.
Definition KeyError (key : string) : exn := Exn "KeyError" (py_repr key).
Definition IndexError (msg : string) : exn := Exn "IndexError" msg.
Definition TypeError (msg : string) : exn := Exn "TypeError" msg.
Definition RuntimeError (msg : string) : exn := Exn "RuntimeError" msg.

(** The keyword arguments, in the order of the dictionary. *)
Definition kwargs : Type := list (string * option string).

Fixpoint lookup_kw (name : string) (kw : kwargs) : option (option string) :=
  match kw with
  | [] => None
  | (k, v) :: rest => if String.eqb k name then Some v else lookup_kw name rest
  end.

(** What the interpreter does where this embedding does not follow it:
    attribute and index access from a looked-up value, conversions of the
    objects reached that way, [ascii], and the format-spec language. *)
Record Runtime : Type := {
  pyobj : Type;
  follow : option string -> string -> outcome pyobj;
  convert_obj : ascii -> pyobj -> outcome string;
  ascii_of : option string -> string;
  format_str : string -> string -> outcome string;
  format_obj : pyobj -> string -> outcome string
}.

(** One piece of a template. *)
Inductive token : Type :=
| TLit (text : string)
| TField (name : string) (conversion : option ascii) (spec : string)
    (nested : bool).

(** Where the reader stands in the template. *)
Inductive mode : Type :=
| MLit
| MSkip
| MName (name : string) (bracket : bool)
| MConv (name : string)
| MConvEnd (name : string) (conversion : ascii)
| MSpec (name : string) (conversion : option ascii) (spec : string)
    (depth : nat) (nested : bool).

Definition at_end (m : mode) : option exn :=
  match m with
  | MLit | MSkip => None
  | MName _ _ => Some (ValueError "expected '}' before end of string")
  | MConv _ =>
      Some (ValueError "end of string while looking for conversion specifier")
  | MConvEnd _ _ | MSpec _ _ _ _ _ =>
      Some (ValueError "unmatched '{' in format spec")
  end.

Definition is_open (c : ascii) : bool := Ascii.eqb c "{"%char.
Definition is_close (c : ascii) : bool := Ascii.eqb c "}"%char.

Definition next_is (p : ascii -> bool) (s : string) : bool :=
  match s with
  | String c _ => p c
  | EmptyString => false
  end.

(** The pieces read and the error, if any, that stops the reading. *)
Definition parsed : Type := list token * option exn.

Definition stop (e : exn) : parsed := ([], Some e).

Definition and_then (t : token) (p : parsed) : parsed := (t :: fst p, snd p).

Fixpoint tokens_from (m : mode) (tpl : string) : parsed :=
  match tpl with
  | EmptyString => ([], at_end m)
  | String c rest =>
      match m with
      | MSkip => tokens_from MLit rest
      | MLit =>
          if is_close c then
            if next_is is_close rest
            then and_then (TLit (str1 c)) (tokens_from MSkip rest)
            else stop (ValueError "Single '}' encountered in format string")
          else if is_open c then
            match rest with
            | EmptyString =>
                stop (ValueError "Single '{' encountered in format string")
            | _ =>
                if next_is is_open rest
                then and_then (TLit (str1 c)) (tokens_from MSkip rest)
                else tokens_from (MName "" false) rest
            end
          else and_then (TLit (str1 c)) (tokens_from MLit rest)
      | MName name true =>
          tokens_from (MName (name +:+ str1 c) (negb (Ascii.eqb c "]"%char)))
            rest
      | MName name false =>
          if is_open c then stop (ValueError "unexpected '{' in field name")
          else if is_close c then
            and_then (TField name None "" false) (tokens_from MLit rest)
          else if Ascii.eqb c ":"%char then
            tokens_from (MSpec name None "" 1 false) rest
          else if Ascii.eqb c "!"%char then tokens_from (MConv name) rest
          else
            tokens_from (MName (name +:+ str1 c) (Ascii.eqb c "["%char)) rest
      | MConv name => tokens_from (MConvEnd name c) rest
      | MConvEnd name conv =>
          if is_close c then
            and_then (TField name (Some conv) "" false)
              (tokens_from MLit rest)
          else if Ascii.eqb c ":"%char then
            tokens_from (MSpec name (Some conv) "" 1 false) rest
          else stop (ValueError "expected ':' after conversion specifier")
      | MSpec name conv spec depth nested =>
          if is_open c then
            tokens_from (MSpec name conv (spec +:+ str1 c) (S depth) true) rest
          else if is_close c then
            match depth with
            | 1 =>
                and_then (TField name conv spec nested)
                  (tokens_from MLit rest)
            | _ =>
                tokens_from
                  (MSpec name conv (spec +:+ str1 c) (pred depth) nested) rest
            end
          else
            tokens_from (MSpec name conv (spec +:+ str1 c) depth nested) rest
      end
  end.

Definition tokenize (tpl : string) : parsed := tokens_from MLit tpl.

(** The part of a field name before the first [.] or [[]. *)
Fixpoint first_part (name : string) : string :=
  match name with
  | EmptyString => EmptyString
  | String c rest =>
      if Ascii.eqb c "."%char || Ascii.eqb c "["%char then EmptyString
      else String c (first_part rest)
  end.

Definition PY_SSIZE_T_MAX : N := (2 ^ 63 - 1)%N.

(** [get_integer]: [Some (Ok n)] for a decimal number, [None] when the
    text is empty or has a character that is not a digit, and the error
    of a number that does not fit. *)
Fixpoint get_integer_from (acc : N) (s : string) : option (outcome N) :=
  match s with
  | EmptyString => Some (Ok acc)
  | String c rest =>
      if is_digit c then
        let d := (ord c - 48)%N in
        if ((PY_SSIZE_T_MAX - d) / 10 <? acc)%N
        then Some (Raise (ValueError "Too many decimal digits in format string"))
        else get_integer_from (acc * 10 + d)%N rest
      else None
  end.

Definition get_integer (s : string) : option (outcome N) :=
  match s with
  | EmptyString => None
  | _ => get_integer_from 0 s
  end.

Definition str_of_N (n : N) : string := str_of_Z (Z.of_N n).

(** [%x] of a character code. *)
Definition hex_min (n : N) : string :=
  if (n <? 16)%N then str1 (hex_digit n) else hex_fixed 2 n.

Definition index_out_of_range (i : N) : exn :=
  IndexError ("Replacement index " +:+ str_of_N i
              +:+ " out of range for positional args tuple").

(** The argument a field name designates: the index of a positional
    field, or the key of a keyword one. *)
Definition field_argument (name : string) : outcome (N + string) :=
  let first := first_part name in
  if String.eqb first "" then Ok (inl 0%N)
  else match get_integer first with
       | Some (Raise e) => Raise e
       | Some (Ok i) => Ok (inl i)
       | None => Ok (inr first)
       end.

(** [get_field_object] up to the accessors. *)
Definition lookup_field (kw : kwargs) (name : string)
  : outcome (option string) :=
  let* arg := field_argument name in
  match arg with
  | inl i => Raise (index_out_of_range i)
  | inr key =>
      match lookup_kw key kw with
      | Some value => Ok value
      | None => Raise (KeyError key)
      end
  end.

(** The object a field stands for, once looked up. *)
Inductive fobj (O : Type) : Type :=
| FValue (v : option string)
| FObj (o : O).
Arguments FValue {O} v.
Arguments FObj {O} o.

Definition unknown_conversion (c : ascii) : exn :=
  if ((32 <? ord c) && (ord c <? 127))%N
  then ValueError ("Unknown conversion specifier " +:+ str1 c)
  else ValueError ("Unknown conversion specifier \x" +:+ hex_min (ord c)).

(** [do_conversion] *)
Definition do_conversion (rt : Runtime) (c : ascii) (x : fobj (pyobj rt))
  : outcome (fobj (pyobj rt)) :=
  if Ascii.eqb c "s"%char || Ascii.eqb c "r"%char || Ascii.eqb c "a"%char then
    match x with
    | FObj o =>
        let* s := convert_obj rt c o in Ok (FValue (Some s))
    | FValue v =>
        Ok (FValue
              (Some (if Ascii.eqb c "s"%char then py_str v
                     else if Ascii.eqb c "r"%char then
                       match v with
                       | Some s => py_repr s
                       | None => "None"
                       end
                     else ascii_of rt v)))
    end
  else Raise (unknown_conversion c).

(** [format(x, spec)] *)
Definition format_value (rt : Runtime) (x : fobj (pyobj rt)) (spec : string)
  : outcome string :=
  match x with
  | FObj o => format_obj rt o spec
  | FValue v =>
      if String.eqb spec "" then Ok (py_str v)
      else match v with
           | Some s => format_str rt s spec
           | None =>
               Raise (TypeError
                        "unsupported format string passed to NoneType.__format__")
           end
  end.

(** [output_markup]: look the name up, follow its accessors, convert,
    expand the spec, format. *)
Definition render_token (rt : Runtime) (kw : kwargs)
    (expand : string -> outcome string) (t : token) : outcome string :=
  match t with
  | TLit text => Ok text
  | TField name conversion spec nested =>
      let* value := lookup_field kw name in
      let rest := drop_str (String.length (first_part name)) name in
      let* x :=
        (if String.eqb rest "" then Ok (FValue value)
         else let* o := follow rt value rest in Ok (FObj o)) in
      let* y :=
        match conversion with
        | Some c => do_conversion rt c x
        | None => Ok x
        end in
      let* spec' := (if nested then expand spec else Ok spec) in
      format_value rt y spec'
  end.

Fixpoint render_tokens (render : token -> outcome string) (ts : list token)
    (err : option exn) : outcome string :=
  match ts with
  | [] => match err with
          | Some e => Raise e
          | None => Ok ""
          end
  | t :: rest =>
      let* s := render t in
      let* r := render_tokens render rest err in
      Ok (s +:+ r)
  end.

(** [build_string] at one recursion depth. *)
Definition format_level (rt : Runtime) (kw : kwargs)
    (expand : string -> outcome string) (tpl : string) : outcome string :=
  let p := tokenize tpl in
  render_tokens (render_token rt kw expand) (fst p) (snd p).

Definition max_recursion (spec : string) : outcome string :=
  Raise (ValueError "Max string recursion exceeded").

(** [tpl.format] applied to the keyword arguments [kw] *)
Definition py_format (rt : Runtime) (tpl : string) (kw : kwargs)
  : outcome string :=
  format_level rt kw (format_level rt kw max_recursion) tpl.


(* ================================================================== *)
(** ** rag_reviewer: success criteria of a candidate *)

(** [topic] is a string here, on which [topic or ""] is the identity. *)
Definition _norm_sc_from_topic (topic_str : string) : string :=
  let t := strip topic_str in
  match _SC_REGEX_search t with
  | Some g => dotted g
  | None =>
      match _WCAG_TAG_REGEX_search t with
      | Some g => dotted g
      | None =>
          let t' := strip (str_replace "sc-" "" (lower t)) in
          match _SC_REGEX_search t' with
          | Some g => dotted g
          | None => ""
          end
      end
  end.

(** The body of [for t in (c.get("sc_list") or [])]. *)
Definition stored_sc_step (acc : list string) (t : string) : list string :=
  match _WCAG_TAG_REGEX_match t with
  | Some g => acc ++ [dotted g]
  | None => acc
  end.

Definition _scs_from_candidate (c : Candidate) : string * list string :=
  let scs := fold_left stored_sc_step (sc_list c) [] in
  let sc_primary :=
    match scs with
    | sc :: _ => sc
    | [] => _norm_sc_from_topic (topic c)
    end in
  (sc_primary, scs).

(* ================================================================== *)
(** ** rag_reviewer: technique documents *)

(** One document of [wcag_lib]: the keys the reviewer reads. *)
Record TechniqueDoc : Type := {
  td_tags : list string;
  td_topic : option string;
  td_do : json;
  td_dont : json;
  td_edge_cases : json
}.

(** [None] is the empty dictionary the source returns when nothing
    matches. *)
Fixpoint retrieve_for_sc (sc : string) (techniques : list TechniqueDoc)
  : option TechniqueDoc :=
  let sc_l := lower sc in
  match techniques with
  | [] => None
  | t :: rest =>
      let tags := map lower (td_tags t) in
      let topic_l := lower (or_empty (td_topic t)) in
      if existsb (String.eqb ("sc-" +:+ sc_l)) tags
         || existsb (String.eqb sc_l) tags
         || contains sc_l topic_l
      then Some t
      else retrieve_for_sc sc rest
  end.

(** The four entries of the techniques context. *)
Record Context : Type := {
  cx_topic : json;
  cx_do : json;
  cx_dont : json;
  cx_edge_cases : json
}.

(** Truthiness of an optional string. *)
Definition truthy (x : option string) : bool :=
  match x with
  | Some s => negb (String.eqb s "")
  | None => false
  end.

(** [_synth_context(sc, c)] followed by the two [setdefault("do",
    []).append(...)] of [build_prompt]. *)
Definition _synth_context (sc : string) (c : Candidate) : Context :=
  {| cx_topic :=
       JStr (if String.eqb sc "" then "Unmapped rule" else "SC " +:+ sc);
     cx_do :=
       json_of_strings
         (["Apply WCAG techniques conservatively for this SC.";
           "Prefer 'needs-change' when meaning or programmatic name is unclear."]
          ++ (if truthy (axe_help c)
              then ["Consider axe help: " +:+ py_str (axe_help c)] else [])
          ++ (if truthy (axe_help_url c)
              then ["Ref: " +:+ py_str (axe_help_url c)] else []));
     cx_dont :=
       json_of_strings
         ["Do not approve ambiguous or redundant alternatives.";
          "Do not rely on visual presentation alone."];
     cx_edge_cases := JList [] |}.

Definition context_of (sc : string) (tech_doc : option TechniqueDoc)
    (c : Candidate) : Context :=
  match tech_doc with
  | Some t =>
      {| cx_topic := json_of_opt (td_topic t);
         cx_do := td_do t;
         cx_dont := td_dont t;
         cx_edge_cases := td_edge_cases t |}
  | None => _synth_context sc c
  end.

(* ================================================================== *)
(** ** rag_reviewer: the prompt *)

Definition techniques_context (cx : Context) : string :=
  json_dumps (Some 2) false
    (JObj [("topic", cx_topic cx); ("do", cx_do cx); ("dont", cx_dont cx);
           ("edge_cases", cx_edge_cases cx)]).

Definition why_pack (c : Candidate) : json :=
  JObj [("failureSummary", json_of_opt (failureSummary c));
        ("why_any", json_of_strings (why_any c));
        ("why_all", json_of_strings (why_all c));
        ("why_none", json_of_strings (why_none c));
        ("page_url", JStr (page_url c))].

(** The names a template may interpolate. *)
Definition fmt_keys : list string :=
  ["topic_label"; "techniques_context"; "selector"; "html_snippet";
   "attributes"; "role_name"; "nearby_text"; "acc_snapshot"; "rule_id";
   "axe_help"; "impact"].

Definition fmt_vars (sc : string) (tech_doc : option TechniqueDoc)
    (c : Candidate) : kwargs :=
  [("topic_label",
     Some (if String.eqb sc ""
           then (if String.eqb (topic c) "" then "Unmapped" else topic c)
           else "SC " +:+ sc));
   ("techniques_context",
     Some (techniques_context (context_of sc tech_doc c)));
   ("selector", Some (selector c));
   ("html_snippet", Some (take_str 1200 (html_snippet c)));
   ("attributes",
     Some (json_dumps None false
             (JObj (map (fun kv => (fst kv, JStr (snd kv))) (attributes c)))));
   ("role_name", Some (role_name_guess c));
   ("nearby_text", Some (take_str 800 (nearby_text c)));
   ("acc_snapshot", Some (take_str 1200 (json_dumps None false (acc_snapshot c))));
   ("rule_id", axe_rule_id c);
   ("axe_help", axe_help c);
   ("impact", impact c)].

Definition key_error_message (e : exn) : string :=
  "Template formatting error near placeholder " +:+ exn_msg e
  +:+ ". You likely have an unescaped '{' or '}' in the template. "
  +:+ "Double all literal braces in JSON examples (use '{{' and '}}').".

Definition value_error_message : string :=
  "Template formatting error (invalid format string). "
  +:+ "Ensure all literal braces are escaped as '{{' and '}}'.".

Definition diagnostics (c : Candidate) : string :=
  str1 LF +:+ str1 LF +:+ "AXE_DIAGNOSTICS:" +:+ str1 LF
  +:+ json_dumps (Some 2) false (why_pack c).

(** [tpl] is the text [template_path.read_text] returned. *)
Definition build_prompt (rt : Runtime) (tpl : string) (sc : string)
    (tech_doc : option TechniqueDoc) (c : Candidate) : outcome string :=
  match py_format rt tpl (fmt_vars sc tech_doc c) with
  | Ok prompt => Ok (prompt +:+ diagnostics c)
  | Raise e =>
      if String.eqb (exn_cls e) "KeyError"
      then Raise (RuntimeError (key_error_message e))
      else if String.eqb (exn_cls e) "ValueError"
      then Raise (RuntimeError value_error_message)
      else Raise e
  end.

(* ================================================================== *)
(** ** rag_reviewer: the verdict *)

(** What the review pass finds around it: the interpreter, the
    environment variables, the text service (the import of its client,
    the request and the [content] of the first choice, which may be
    [None]), [json.loads], the technique library, the template file and
    the candidates artifact ([None] when the file does not exist). *)
Record World : Type := {
  runtime : Runtime;
  A11Y_USE_LLM : option string;
  OPENAI_API_KEY : option string;
  OPENAI_MODEL : option string;
  A11Y_SKIP_BEST_PRACTICE : option string;
  chat_completion : string -> string -> outcome (option string);
  json_loads : string -> outcome json;
  load_techniques : list TechniqueDoc;
  template_text : outcome string;
  candidates_json : option (list Candidate)
}.

Definition _use_live_llm (w : World) : bool :=
  bool_decide (A11Y_USE_LLM w = Some "1") && truthy (OPENAI_API_KEY w).

Definition required_keys : list string :=
  ["type"; "verdict"; "reason"; "confidence"; "techniques_used"].

Definition not_iterable (type_name : string) : exn :=
  TypeError ("argument of type '" +:+ type_name +:+ "' is not iterable").

Definition json_eqb_str (k : string) (j : json) : bool :=
  match j with
  | JStr s => String.eqb s k
  | _ => false
  end.

(** [k in data] *)
Definition py_in (k : string) (data : json) : outcome bool :=
  match data with
  | JObj members => Ok (existsb (fun kv => String.eqb (fst kv) k) members)
  | JList items => Ok (existsb (json_eqb_str k) items)
  | JStr s => Ok (contains k s)
  | JNull => Raise (not_iterable "NoneType")
  | JBool _ => Raise (not_iterable "bool")
  | JInt _ => Raise (not_iterable "int")
  | JFloat _ => Raise (not_iterable "float")
  end.

(** [for k in [...]: if k not in data: raise ValueError(...)] *)
Fixpoint check_keys (keys : list string) (data : json) : outcome unit :=
  match keys with
  | [] => Ok tt
  | k :: rest =>
      let* present := py_in k data in
      if present then check_keys rest data
      else Raise (ValueError ("Missing key: " +:+ k))
  end.

(** The span the reviewer parses: from the first opening brace to the
    last closing brace when both exist in that order, else the whole
    text. *)
Definition extract_json_text (text : string) : string :=
  let s := str_find "{" text in
  let e := str_rfind "}" text in
  if negb (s =? -1)%Z && negb (e =? -1)%Z && (s <? e)%Z
  then slice s (e + 1) text
  else text.

(** [os.environ.get("OPENAI_MODEL", "gpt-4o-mini")] *)
Definition model_of (w : World) : string :=
  match OPENAI_MODEL w with Some m => m | None => "gpt-4o-mini" end.

(** The [try] block of [_run_llm_openai]. *)
Definition call_openai (w : World) (prompt : string) : outcome json :=
  let* content := chat_completion w (model_of w) prompt in
  let* text :=
    match content with
    | Some t => Ok (strip t)
    | None =>
        Raise (Exn "AttributeError"
                 "'NoneType' object has no attribute 'strip'")
    end in
  let* data := json_loads w (extract_json_text text) in
  let* _ := check_keys required_keys data in
  Ok data.

Definition fallback_verdict (e : exn) : json :=
  JObj [("type", JStr "informative");
        ("verdict", JStr "needs-change");
        ("reason", JStr ("LLM fallback (parse/error): " +:+ exn_msg e));
        ("confidence", JFloat "0.4");
        ("techniques_used", JList [JStr "fallback"])].

(** [try: ... except Exception as e: return {...}] *)
Definition _run_llm_openai (w : World) (prompt : string) : json :=
  match call_openai w prompt with
  | Ok data => data
  | Raise e => fallback_verdict e
  end.

Definition stub_verdict : json :=
  JObj [("type", JStr "informative");
        ("verdict", JStr "needs-change");
        ("reason", JStr "Demo verdict (no live LLM or A11Y_USE_LLM=0).");
        ("confidence", JFloat "0.5");
        ("techniques_used", JList [JStr "demo-only"])].

Definition run_llm (w : World) (prompt : string) : json :=
  if _use_live_llm w then _run_llm_openai w prompt else stub_verdict.

(* ================================================================== *)
(** ** rag_reviewer: the review pass *)

(** One element of [ai_verdicts.json]. *)
Record VerdictRecord : Type := {
  vr_page_url : string;
  vr_topic : string;
  vr_SC : string;
  vr_sc_list : list string;
  vr_selector : string;
  vr_axe_rule_id : option string;
  vr_impact : option string;
  vr_ai_verdict : json;
  vr_screenshot : option string;
  vr_axe_help_url : option string;
  vr_prompt_hash : string
}.

Definition record_json (r : VerdictRecord) : json :=
  JObj [("page_url", JStr (vr_page_url r));
        ("topic", JStr (vr_topic r));
        ("SC", JStr (vr_SC r));
        ("sc_list", json_of_strings (vr_sc_list r));
        ("selector", JStr (vr_selector r));
        ("axe_rule_id", json_of_opt (vr_axe_rule_id r));
        ("impact", json_of_opt (vr_impact r));
        ("ai_verdict", vr_ai_verdict r);
        ("screenshot", json_of_opt (vr_screenshot r));
        ("axe_help_url", json_of_opt (vr_axe_help_url r));
        ("prompt_hash", JStr (vr_prompt_hash r))].

(** [sha256(prompt.encode("utf-8")).hexdigest()[:16]] *)
Definition prompt_hash (prompt : string) : string :=
  take_str 16 (Sha256.hexdigest prompt).

(** A [write_text]: the file and its new content. *)
Inductive write : Type := Write (path content : string).

Definition write_path (x : write) : string := let 'Write p _ := x in p.
Definition write_content (x : write) : string := let 'Write _ t := x in t.

Definition prompt_file (out_dir : string) (i : nat) (sc_primary : string)
    (c : Candidate) : string :=
  out_dir +:+ "/prompts/" +:+ pad3 i +:+ "_"
  +:+ (if String.eqb sc_primary ""
       then (if String.eqb (topic c) "" then "UNMAPPED" else topic c)
       else sc_primary)
  +:+ "_" +:+ py_str (axe_rule_id c) +:+ ".txt".

Definition verdicts_file (out_dir : string) : string :=
  out_dir +:+ "/ai_verdicts.json".

(** What one turn of the loop does with its candidate. *)
Inductive turn : Type :=
| Skipped
| Reviewed (prompt_written : write) (record : VerdictRecord).

(** [os.environ.get("A11Y_SKIP_BEST_PRACTICE") == "1"] *)
Definition skip_flag (w : World) : bool :=
  bool_decide (A11Y_SKIP_BEST_PRACTICE w = Some "1").

(** [retrieve_for_sc(sc_primary, techniques) if is_wcag else {}] *)
Definition tech_doc_for (techniques : list TechniqueDoc) (sc_primary : string)
  : option TechniqueDoc :=
  if negb (String.eqb sc_primary "") then retrieve_for_sc sc_primary techniques
  else None.

(** The body of [for i, c in enumerate(candidates)]. *)
Definition review_candidate (w : World) (out_dir : string)
    (skip_best_practice : bool) (i : nat) (c : Candidate) : outcome turn :=
  let '(sc_primary, sc_all) := _scs_from_candidate c in
  let is_wcag := negb (String.eqb sc_primary "") in
  if skip_best_practice && negb is_wcag then Ok Skipped
  else
    let tech_doc := tech_doc_for (load_techniques w) sc_primary in
    let* tpl := template_text w in
    let* prompt := build_prompt (runtime w) tpl sc_primary tech_doc c in
    let verdict := run_llm w prompt in
    Ok (Reviewed
          (Write (prompt_file out_dir i sc_primary c) prompt)
          {| vr_page_url := page_url c;
             vr_topic := topic c;
             vr_SC := sc_primary;
             vr_sc_list := sc_all;
             vr_selector := selector c;
             vr_axe_rule_id := axe_rule_id c;
             vr_impact := impact c;
             vr_ai_verdict := verdict;
             vr_screenshot := screenshot c;
             vr_axe_help_url := axe_help_url c;
             vr_prompt_hash := prompt_hash prompt |}).

(** The loop: the writes made so far come first, also when it stops on an
    exception. *)
Fixpoint review_loop (w : World) (out_dir : string)
    (skip_best_practice : bool) (i : nat) (candidates : list Candidate)
    (results : list VerdictRecord)
  : list write * outcome (list VerdictRecord) :=
  match candidates with
  | [] => ([], Ok results)
  | c :: rest =>
      match review_candidate w out_dir skip_best_practice i c with
      | Ok Skipped =>
          review_loop w out_dir skip_best_practice (S i) rest results
      | Ok (Reviewed pw rec) =>
          let '(ws, r) :=
            review_loop w out_dir skip_best_practice (S i) rest
              (results ++ [rec]) in
          (pw :: ws, r)
      | Raise e => ([], Raise e)
      end
  end.

Definition verdicts_text (results : list VerdictRecord) : string :=
  json_dumps (Some 2) true (JList (map record_json results)).

(** [review(out_dir)]: the files written, in order, and the returned
    count of reviewed candidates. *)
Definition review (w : World) (out_dir : string)
  : list write * outcome nat :=
  match candidates_json w with
  | None =>
      ([], Raise (Exn "FileNotFoundError"
                    "candidates.json not found; run axe_runner first."))
  | Some candidates =>
      let skip_best_practice := skip_flag w in
      match review_loop w out_dir skip_best_practice 0 candidates [] with
      | (ws, Ok results) =>
          (ws ++ [Write (verdicts_file out_dir) (verdicts_text results)],
           Ok (length results))
      | (ws, Raise e) => (ws, Raise e)
      end
  end.

(* ================================================================== *)
(** ** The vocabulary of the properties *)

(** *** Success criteria of a tag list *)

Definition wcag_text (a b c : ascii) : string :=
  "wcag" +:+ str1 a +:+ str1 b +:+ str1 c.


(** A text of printable ASCII characters, as the identifiers are that
    the scanner gives as tags. *)
Definition printable (c : ascii) : bool :=
  ((32 <=? ord c) && (ord c <=? 126))%N.

Definition plain_text (t : string) : Prop :=
  forallb printable (list_ascii_of_string t) = true.



(** *** Occurrences and counts in a scan *)

(** The (rule, node) occurrences the must-review pass walks, in order. *)
Definition rule_occurrences (r : Rule) : list (Rule * Node) :=
  map (fun n => (r, n)) (r_nodes r).

Definition must_review_occurrences (payload : AxePayload)
  : list (Rule * Node) :=
  concat (map rule_occurrences (violations payload ++ incomplete payload)).

Definition occurrence_key (o : Rule * Node) : Key :=
  (r_id (fst o), node_selector (snd o)).

Definition all_rules (payload : AxePayload) : list Rule :=
  violations payload ++ incomplete payload ++ passes payload.

Definition is_promoted_for (rid : string) (c : Candidate) : bool :=
  String.eqb (bucket c) "semantic_review"
  && bool_decide (axe_rule_id c = Some rid).

Definition is_entry_for (rid : string) (r : Rule) : bool :=
  bool_decide (r_id r = Some rid).

(** The payload with every [passes] rule cut to its first 30 nodes. *)
Definition first_30 (r : Rule) : Rule :=
  {| r_id := r_id r; r_tags := r_tags r; r_help := r_help r;
     r_helpUrl := r_helpUrl r; r_impact := r_impact r;
     r_nodes := firstn 30 (r_nodes r) |}.

Definition passes_cut (payload : AxePayload) : AxePayload :=
  {| violations := violations payload;
     incomplete := incomplete payload;
     passes := map first_30 (passes payload) |}.

(** A [link-name] node that the loop promotes when it reaches it. *)
Definition link_promotable (page : Page) (seen : gset Key) (r : Rule)
    (n : Node) : bool :=
  let sel := node_selector n in
  negb (String.eqb sel "") && vague_link page sel
  && negb (bool_decide ((r_id r, sel) ∈ seen)).

(** *** The first balanced span, in the specification's words *)

(** The text from an opening brace to the closing brace that balances
    it; [depth] counts the braces open so far. *)
Fixpoint balanced_prefix (depth : nat) (s : string) : option string :=
  match s with
  | EmptyString => None
  | String c rest =>
      if is_open c then
        option_map (String c) (balanced_prefix (S depth) rest)
      else if is_close c then
        match depth with
        | O => None
        | 1 => Some (str1 c)
        | S d => option_map (String c) (balanced_prefix d rest)
        end
      else option_map (String c) (balanced_prefix depth rest)
  end.

Definition spec_first_balanced_span (text : string) : option string :=
  let s := str_find "{" text in
  if (s =? -1)%Z then None
  else balanced_prefix 0 (drop_str (Z.to_nat s) text).

(** *** Templates *)

(** A field whose argument is not one of [keys]: a positional field, or
    a name that is not a key. *)
Definition unknown_name (keys : list string) (name : string) : Prop :=
  match field_argument name with
  | Ok (inr key) => key ∉ keys
  | _ => True
  end.

(** A field that cannot be rendered: its argument is unknown, or its
    format spec holds fields and is itself defective. *)
Definition token_defect (bad_spec : string -> Prop) (keys : list string)
    (t : token) : Prop :=
  match t with
  | TLit _ => False
  | TField name _ spec nested =>
      unknown_name keys name \/ (nested = true /\ bad_spec spec)
  end.

(** A text that cannot be interpolated: a brace that neither is doubled
    nor closes a field, or a defective field. *)
Definition defect_at (bad_spec : string -> Prop) (keys : list string)
    (tpl : string) : Prop :=
  snd (tokenize tpl) <> None
  \/ Exists (token_defect bad_spec keys) (fst (tokenize tpl)).

(** Inside a format spec a field may not hold fields in its own spec. *)
Definition spec_defect (keys : list string) (spec : string) : Prop :=
  defect_at (fun _ => True) keys spec.

Definition template_defect (keys : list string) (tpl : string) : Prop :=
  defect_at (spec_defect keys) keys tpl.

(** A field that is a bare known name. *)
Definition plain_token (keys : list string) (t : token) : Prop :=
  match t with
  | TLit _ => True
  | TField name conversion spec nested =>
      name ∈ keys /\ conversion = None /\ spec = "" /\ nested = false
  end.

(** *** Files *)

Definition files : Type := gmap string string.

Definition apply_write (fs : files) (x : write) : files :=
  <[write_path x := write_content x]> fs.

Definition after_writes (fs : files) (ws : list write) : files :=
  fold_left apply_write ws fs.

Definition is_hex (c : ascii) : bool :=
  is_digit c || ((97 <=? ord c) && (ord c <=? 102))%N.

(** *** The scan loops *)

Definition keys_of (cands : list Candidate) : list Key :=
  map candidate_key cands.

(** The loop invariant: [seen] holds exactly the keys of the candidates,
    and no key is held twice. *)
Definition scan_inv (st : ScanState) : Prop :=
  seen_of st = list_to_set (keys_of (candidates_of st))
  /\ NoDup (keys_of (candidates_of st)).

(** [st'] is [st] with candidates satisfying [P] added, each under a key
    not seen before. *)
Inductive grows (P : Candidate -> Prop) : ScanState -> ScanState -> Prop :=
| grows_refl st : grows P st st
| grows_add st st' c :
    grows P st st' -> candidate_key c ∉ seen_of st' -> P c ->
    grows P st (add_candidate st' c).

(** The candidate the scan builds from a node of a rule. *)
Definition candidate_from (url out_dir : string) (page : Page)
    (bucket_name : string) (r : Rule) (n : Node) : Candidate :=
  make_candidate url out_dir page bucket_name r (_extract_scs (r_tags r))
    (topic_of (_extract_scs (r_tags r))) n (node_selector n).

Definition from_rules (url out_dir : string) (page : Page)
    (bucket_name : string) (rules : list Rule) (c : Candidate) : Prop :=
  exists r n, r ∈ rules /\ n ∈ r_nodes r /\ node_selector n <> ""
              /\ c = candidate_from url out_dir page bucket_name r n.

Definition eligible (r : Rule) : Prop :=
  r_id r = Some "image-alt" \/ r_id r = Some "link-name".

(** A candidate promoted from the rule [r] of the passes bucket. *)
Definition promoted_of (url out_dir : string) (page : Page) (r : Rule)
    (c : Candidate) : Prop :=
  eligible r
  /\ exists n, n ∈ firstn 30 (r_nodes r) /\ node_selector n <> ""
               /\ c = candidate_from url out_dir page "semantic_review" r n.

(** The promoted candidates against the rules of the passes bucket: each
    rule gives none or one, in order. *)
Inductive promoted_from (url out_dir : string) (page : Page)
  : list Rule -> list Candidate -> Prop :=
| pf_nil : promoted_from url out_dir page [] []
| pf_none r rules cs :
    promoted_from url out_dir page rules cs ->
    promoted_from url out_dir page (r :: rules) cs
| pf_one r rules c cs :
    promoted_of url out_dir page r c ->
    promoted_from url out_dir page rules cs ->
    promoted_from url out_dir page (r :: rules) (c :: cs).

(** An [image-alt] node that the loop promotes when it reaches it. *)
Definition image_promotable (page : Page) (seen : gset Key) (r : Rule)
    (n : Node) : bool :=
  let sel := node_selector n in
  negb (String.eqb sel "")
  && match eval_closest page sel with
     | Ok is_functional => is_functional || generic_name page sel
     | Raise _ => false
     end
  && negb (bool_decide ((r_id r, sel) ∈ seen)).

(** One occurrence of the must-review pass. *)
Definition occurrence_step (url out_dir : string) (page : Page)
    (st : ScanState) (o : Rule * Node) : ScanState :=
  must_review_node url out_dir page (fst o) (_extract_scs (r_tags (fst o)))
    (topic_of (_extract_scs (r_tags (fst o)))) st (snd o).

(** *** Sample data *)

Definition sample_node (sel : string) : Node :=
  {| n_target := Some [sel]; n_html := Some "<img>";
     n_failureSummary := None; n_any := None; n_all := None;
     n_none := None |}.

Definition sample_rule (rid : string) (tags : list string)
    (nodes : list Node) : Rule :=
  {| r_id := Some rid; r_tags := Some tags; r_help := Some "help";
     r_helpUrl := None; r_impact := Some "serious"; r_nodes := nodes |}.

(** A page on which every selector resolves, every element sits in a
    link, and the only link text is that of [a#more]. *)
Definition sample_page : Page :=
  {| query_selector := fun _ => true;
     eval_attributes := fun _ => [("alt", "logo")];
     eval_closest := fun _ => Ok true;
     inner_text := fun sel =>
       if String.eqb sel "a#more" then Some " Click Here " else Some "Home";
     get_accessibility_snapshot := fun _ => JObj [("role", JStr "img")];
     get_nearby_text := fun _ => "near";
     get_role_name_guess := fun _ => "img — logo";
     crop_element_screenshot := fun _ path => Some path |}.

(** The scan of the specification's example: one violation of
    [image-alt] on [img#logo], tagged [wcag111]. *)
Definition sample_scan : AxePayload :=
  {| violations :=
       [sample_rule "image-alt" ["cat.text-alternatives"; "wcag2a"; "wcag111"]
          [sample_node "img#logo"; sample_node "img#logo"; sample_node ""]];
     incomplete := [];
     passes :=
       [sample_rule "link-name" ["wcag244"]
          [sample_node "a#home"; sample_node "a#more"; sample_node "a#more"]] |}.

(** A page with a framed gallery: the frame [#gallery] is labelled Photo
    gallery and the logo of the page itself is named by its file; no
    element sits in a link or a button. *)
Definition framed_page : Page :=
  {| query_selector := fun _ => true;
     eval_attributes := fun _ => [];
     eval_closest := fun _ => Ok false;
     inner_text := fun _ => Some "";
     get_accessibility_snapshot := fun _ => JObj [];
     get_nearby_text := fun _ => "";
     get_role_name_guess := fun sel =>
       if String.eqb sel "#gallery" then "iframe — Photo gallery"
       else "img — logo.png";
     crop_element_screenshot := fun _ _ => None |}.

(** A node inside a frame: its target lists the frame, then the element
    in the frame. *)
Definition framed_node (frame sel : string) : Node :=
  {| n_target := Some [frame; sel]; n_html := Some "<img>";
     n_failureSummary := None; n_any := None; n_all := None;
     n_none := None |}.

(** The scan of that page: one image of the gallery fails [image-alt],
    another passes it, and so does the logo. *)
Definition framed_scan : AxePayload :=
  {| violations :=
       [sample_rule "image-alt" ["wcag111"]
          [framed_node "#gallery" "img.broken"]];
     incomplete := [];
     passes :=
       [sample_rule "image-alt" ["wcag111"]
          [framed_node "#gallery" "img.fine"; sample_node "img.logo"]] |}.

(** A reply with two objects, and a world whose service gives it and
    whose parser accepts the first object only. *)
Definition two_objects : string := "{a} {b}".

Definition first_object_verdict : json :=
  JObj [("type", JStr "informative"); ("verdict", JStr "pass");
        ("reason", JStr "ok"); ("confidence", JFloat "0.9");
        ("techniques_used", JList [])].

Definition plain_runtime : Runtime :=
  {| pyobj := unit;
     follow := fun _ _ => Raise (Exn "AttributeError" "no such attribute");
     convert_obj := fun _ _ => Ok "";
     ascii_of := py_str;
     format_str := fun s _ => Ok s;
     format_obj := fun _ _ => Ok "" |}.

Definition sample_template : string :=
  "Review {topic_label} for {selector} ({rule_id}). Answer as {{json}}.".

Definition sample_candidate : Candidate :=
  {| page_url := "https://example.org";
     bucket := "must_review";
     topic := "SC-1.1.1";
     sc_list := ["1.1.1"];
     axe_rule_id := Some "image-alt";
     axe_help := Some "Images must have alternate text";
     axe_help_url := None;
     impact := Some "critical";
     selector := "img#logo";
     html_snippet := "<img>";
     attributes := [("src", "logo.png")];
     role_name_guess := "img — ";
     nearby_text := "";
     acc_snapshot := JObj [];
     screenshot := None;
     failureSummary := Some "Fix any of the following";
     why_any := ["has-alt: Element does not have an alt attribute"];
     why_all := [];
     why_none := [] |}.

Definition sample_world (use_llm skip : option string)
    (tpl : string) (cands : list Candidate) : World :=
  {| runtime := plain_runtime;
     A11Y_USE_LLM := use_llm;
     OPENAI_API_KEY := Some "key";
     OPENAI_MODEL := None;
     A11Y_SKIP_BEST_PRACTICE := skip;
     chat_completion := fun _ _ => Ok (Some two_objects);
     json_loads := fun text =>
       if String.eqb text "{a}" then Ok first_object_verdict
       else Raise (Exn "JSONDecodeError" "Extra data");
     load_techniques := [];
     template_text := Ok tpl;
     candidates_json := Some cands |}.

(** *** The review loop, turn by turn *)

Definition digit_chars : list ascii :=
  ["0"; "1"; "2"; "3"; "4"; "5"; "6"; "7"; "8"; "9"]%char.

(** The turns of the loop over [candidates], numbered from [i]. *)
Fixpoint review_turns (w : World) (out_dir : string)
    (skip_best_practice : bool) (i : nat) (candidates : list Candidate)
  : outcome (list turn) :=
  match candidates with
  | [] => Ok []
  | c :: rest =>
      let* t := review_candidate w out_dir skip_best_practice i c in
      let* ts := review_turns w out_dir skip_best_practice (S i) rest in
      Ok (t :: ts)
  end.

Definition turn_record (t : turn) : option VerdictRecord :=
  match t with
  | Reviewed _ r => Some r
  | Skipped => None
  end.

Definition turn_write (t : turn) : option write :=
  match t with
  | Reviewed x _ => Some x
  | Skipped => None
  end.

Definition all_hex (s : string) : Prop :=
  Forall (fun c => is_hex c = true) (list_ascii_of_string s).

(** A write that leaves the verdicts artifact alone. *)
Definition spares_verdicts (out_dir : string) (x : write) : Prop :=
  write_path x <> verdicts_file out_dir.

(** The texts of the pieces, put together. *)
Definition str_concat (parts : list string) : string :=
  fold_right String.append "" parts.

(** Templates with a defect: an unknown name, a bare pair of braces, a
    lone opening brace. *)
Definition unknown_name_template : string := "Review {selector}: {oops}".
Definition empty_braces_template : string := "Answer with {} only".
Definition lone_brace_template : string := "Answer with { only".

(** A text between double quotes. *)
Definition quoted (s : string) : string := str1 DQ +:+ s +:+ str1 DQ.

(** The verdicts artifact of a pass over the sample candidate alone,
    without the text service, line by line. *)
Definition sample_verdicts_lines : list string :=
  ["[";
   "  {";
   "    " +:+ quoted "page_url" +:+ ": " +:+ quoted "https://example.org" +:+ ",";
   "    " +:+ quoted "topic" +:+ ": " +:+ quoted "SC-1.1.1" +:+ ",";
   "    " +:+ quoted "SC" +:+ ": " +:+ quoted "1.1.1" +:+ ",";
   "    " +:+ quoted "sc_list" +:+ ": [],";
   "    " +:+ quoted "selector" +:+ ": " +:+ quoted "img#logo" +:+ ",";
   "    " +:+ quoted "axe_rule_id" +:+ ": " +:+ quoted "image-alt" +:+ ",";
   "    " +:+ quoted "impact" +:+ ": " +:+ quoted "critical" +:+ ",";
   "    " +:+ quoted "ai_verdict" +:+ ": {";
   "      " +:+ quoted "type" +:+ ": " +:+ quoted "informative" +:+ ",";
   "      " +:+ quoted "verdict" +:+ ": " +:+ quoted "needs-change" +:+ ",";
   "      " +:+ quoted "reason" +:+ ": " +:+ quoted "Demo verdict (no live LLM or A11Y_USE_LLM=0)." +:+ ",";
   "      " +:+ quoted "confidence" +:+ ": 0.5,";
   "      " +:+ quoted "techniques_used" +:+ ": [";
   "        " +:+ quoted "demo-only";
   "      ]";
   "    },";
   "    " +:+ quoted "screenshot" +:+ ": null,";
   "    " +:+ quoted "axe_help_url" +:+ ": null,";
   "    " +:+ quoted "prompt_hash" +:+ ": " +:+ quoted "d913988a3d7b9f22";
   "  }";
   "]"].

(** The files of a former pass. *)
Definition former_files : files :=
  {[ "out/ai_verdicts.json" := "former verdicts" ]}.

Definition is_reviewed (o : outcome turn) : bool :=
  match o with
  | Ok (Reviewed _ _) => true
  | _ => false
  end.

Definition raised {A} (o : outcome A) : option exn :=
  match o with
  | Raise e => Some e
  | Ok _ => None
  end.

(* ================================================================== *)
(** ** The vocabulary of the further properties *)

(** *** File names and check messages *)








(** *** The node log of a scan *)

(** The record written to [axe_nodes.jsonl] for the node [n] of the rule
    [r]. *)
Definition node_record (url bucket_name : string) (r : Rule)
    (scs : list string) (n : Node) : json :=
  JObj [("page_url", JStr url);
        ("bucket", JStr bucket_name);
        ("rule_id", json_of_opt (r_id r));
        ("help", json_of_opt (r_help r));
        ("helpUrl", json_of_opt (r_helpUrl r));
        ("impact", json_of_opt (r_impact r));
        ("sc_list", json_of_strings scs);
        ("selector", JStr (node_selector n));
        ("html", json_of_opt (n_html n));
        ("failureSummary", json_of_opt (n_failureSummary n));
        ("why_any", json_of_strings (_msgs (n_any n)));
        ("why_all", json_of_strings (_msgs (n_all n)));
        ("why_none", json_of_strings (_msgs (n_none n)))].

(** The three buckets, in the order the log walks them. *)
Definition log_buckets (payload : AxePayload) : list (string * list Rule) :=
  [("violations", violations payload);
   ("incomplete", incomplete payload);
   ("passes", passes payload)].

(** The texts given to [f.write], one for each node of each rule of each
    bucket. *)
Definition nodes_log_writes (url : string) (payload : AxePayload)
  : list string :=
  flat_map
    (fun b =>
       flat_map
         (fun r =>
            let scs := _extract_scs (r_tags r) in
            map (fun n =>
                   json_dumps None false (node_record url (fst b) r scs n)
                   +:+ str1 LF)
              (r_nodes r))
         (snd b))
    (log_buckets payload).

(** The content of [axe_nodes.jsonl] when the file is closed. *)
Definition nodes_log (url : string) (payload : AxePayload) : string :=
  str_concat (nodes_log_writes url payload).

(** A text without a line feed. *)
Definition one_line (s : string) : Prop :=
  Forall (fun c => c <> LF) (list_ascii_of_string s).

Fixpoint count_char (x : ascii) (s : string) : nat :=
  match s with
  | EmptyString => 0
  | String c s' => (if Ascii.eqb c x then 1 else 0) + count_char x s'
  end.

(** JSON data whose floats are printed on one line, as [repr] prints
    them. *)
Inductive plain_floats : json -> Prop :=
| pf_null : plain_floats JNull
| pf_bool b : plain_floats (JBool b)
| pf_int n : plain_floats (JInt n)
| pf_float r : one_line r -> plain_floats (JFloat r)
| pf_str s : plain_floats (JStr s)
| pf_list items : Forall plain_floats items -> plain_floats (JList items)
| pf_obj members :
    Forall (fun kv => plain_floats (snd kv)) members ->
    plain_floats (JObj members).

(* ================================================================== *)
(** ** axe_runner: the accessibility snapshot of an element *)

(** [node.get(k)] of a dictionary held as its items, in order. *)
Fixpoint dict_get (k : string) (members : list (string * json))
  : option json :=
  match members with
  | [] => None
  | (k', v) :: rest => if String.eqb k' k then Some v else dict_get k rest
  end.

(** Truthiness of JSON data: what [x or {}] keeps. *)
Definition json_truthy (j : json) : bool :=
  match j with
  | JNull => false
  | JBool b => b
  | JInt n => negb (n =? 0)%Z
  | JFloat r => negb (String.eqb r "0.0" || String.eqb r "-0.0")
  | JStr s => negb (String.eqb s "")
  | JList items => match items with [] => false | _ => true end
  | JObj members => match members with [] => false | _ => true end
  end.

Module Snapshot.

Definition keys : list string := ["role"; "name"; "value"; "description"].

(** [{k: node.get(k) for k in keys if k in node}] *)
Definition kept_entries (members : list (string * json))
  : list (string * json) :=
  flat_map
    (fun k =>
       match dict_get k members with
       | Some v => [(k, v)]
       | None => []
       end)
    keys.

Definition not_subscriptable (type_name : string) : exn :=
  TypeError ("'" +:+ type_name +:+ "' object is not subscriptable").

(** The inner function [trim]: a dictionary keeps four of its entries and
    the first four of its children, trimmed in turn; anything else is
    returned as it is.  Taking [[:4]] of children that are neither a list
    nor a string raises. *)
Fixpoint trim (node : json) : outcome json :=
  match node with
  | JObj members =>
      let out := kept_entries members in
      let fix children (ms : list (string * json))
        : option (outcome (list json)) :=
        match ms with
        | [] => None
        | (k, v) :: rest =>
            if String.eqb k "children" then
              Some
                match v with
                | JList items =>
                    (fix each (count : nat) (l : list json)
                       : outcome (list json) :=
                       match count, l with
                       | S count', c :: l' =>
                           let* c' := trim c in
                           let* r := each count' l' in
                           Ok (c' :: r)
                       | _, _ => Ok []
                       end) 4 items
                | JStr s =>
                    Ok (map (fun c => JStr (str1 c))
                          (list_ascii_of_string (take_str 4 s)))
                | JObj _ => Raise (TypeError "unhashable type: 'slice'")
                | JNull => Raise (not_subscriptable "NoneType")
                | JBool _ => Raise (not_subscriptable "bool")
                | JInt _ => Raise (not_subscriptable "int")
                | JFloat _ => Raise (not_subscriptable "float")
                end
            else children rest
        end in
      match children members with
      | None => Ok (JObj out)
      | Some kids =>
          let* items := kids in
          Ok (JObj (out ++ [("children", JList items)]))
      end
  | _ => Ok node
  end.

(** [el] is whether [page.query_selector] found the element and
    [snapshot] what [page.accessibility.snapshot] answered for it; any
    exception gives the empty dictionary. *)
Definition get_accessibility_snapshot (el : outcome bool)
    (snapshot : outcome json) : json :=
  match el with
  | Ok true =>
      match (let* snap := snapshot in trim snap) with
      | Ok j => if json_truthy j then j else JObj []
      | Raise _ => JObj []
      end
  | _ => JObj []
  end.

(** [[trim(c) for c in items[:count]]] *)
Fixpoint trim_each (count : nat) (items : list json) : outcome (list json) :=
  match count, items with
  | S count', c :: rest =>
      let* c' := trim c in
      let* r := trim_each count' rest in
      Ok (c' :: r)
  | _, _ => Ok []
  end.

(** [[trim(c) for c in v[:4]]] *)
Definition trim_children (v : json) : outcome (list json) :=
  match v with
  | JList items => trim_each 4 items
  | JStr s =>
      Ok (map (fun c => JStr (str1 c)) (list_ascii_of_string (take_str 4 s)))
  | JObj _ => Raise (TypeError "unhashable type: 'slice'")
  | JNull => Raise (not_subscriptable "NoneType")
  | JBool _ => Raise (not_subscriptable "bool")
  | JInt _ => Raise (not_subscriptable "int")
  | JFloat _ => Raise (not_subscriptable "float")
  end.

(** What [trim] returns: a dictionary with some of the four keys, in
    their order, and then at most four children, themselves trimmed; or
    data that is not a dictionary. *)
Inductive trimmed : json -> Prop :=
| trimmed_other j : (forall members, j <> JObj members) -> trimmed j
| trimmed_leaf fields :
    sublist (map fst fields) keys -> trimmed (JObj fields)
| trimmed_node fields kids :
    sublist (map fst fields) keys -> length kids <= 4 ->
    Forall trimmed kids ->
    trimmed (JObj (fields ++ [("children", JList kids)])).

End Snapshot.

(* ================================================================== *)
(** ** The vocabulary of the further properties of the reviewer *)

Definition sample_snapshot : json :=
  JObj [("role", JStr "img"); ("focused", JBool true); ("name", JStr "logo");
        ("children",
          JList [JObj [("role", JStr "text"); ("level", JInt 2)];
                 JStr "a"; JNull; JObj [("children", JStr "abcdef")];
                 JObj [("role", JStr "fifth")]])].

(** A success criterion in its dotted form. *)
Definition criterion (s : string) : Prop :=
  exists a b c,
    is_digit a = true /\ is_digit b = true /\ is_digit c = true
    /\ s = dotted (a, b, c).

(** The test of [retrieve_for_sc] on one document. *)
Definition doc_matches (sc : string) (t : TechniqueDoc) : bool :=
  let sc_l := lower sc in
  let tags := map lower (td_tags t) in
  existsb (String.eqb ("sc-" +:+ sc_l)) tags
  || existsb (String.eqb sc_l) tags
  || contains sc_l (lower (or_empty (td_topic t))).

Definition sample_doc (tags : list string) (topic_str : string)
  : TechniqueDoc :=
  {| td_tags := tags; td_topic := Some topic_str;
     td_do := JList []; td_dont := JList []; td_edge_cases := JList [] |}.


(** The text a piece of a template stands for: itself, or the value of
    the name it holds. *)
Definition field_text (kw : kwargs) (t : token) : string :=
  match t with
  | TLit text => text
  | TField name _ _ _ =>
      match lookup_kw name kw with
      | Some v => py_str v
      | None => ""
      end
  end.

(** A text with each of its braces doubled. *)
Fixpoint double_braces (s : string) : string :=
  match s with
  | EmptyString => EmptyString
  | String c s' =>
      if is_open c || is_close c
      then String c (String c (double_braces s'))
      else String c (double_braces s')
  end.

(** A candidate that the pass reviews. *)
Definition kept (skip_best_practice : bool) (c : Candidate) : bool :=
  negb (skip_best_practice
        && String.eqb (fst (_scs_from_candidate c)) "").

(** The record of a candidate, but for the verdict and the hash. *)
Definition record_of (c : Candidate) (r : VerdictRecord) : Prop :=
  vr_page_url r = page_url c
  /\ vr_topic r = topic c
  /\ vr_SC r = fst (_scs_from_candidate c)
  /\ vr_sc_list r = snd (_scs_from_candidate c)
  /\ vr_selector r = selector c
  /\ vr_axe_rule_id r = axe_rule_id c
  /\ vr_impact r = impact c
  /\ vr_screenshot r = screenshot c
  /\ vr_axe_help_url r = axe_help_url c.

(** A candidate without criterion, and a text with braces. *)
Definition best_practice_candidate : Candidate :=
  {| page_url := "https://example.org";
     bucket := "must_review";
     topic := "BEST_PRACTICE";
     sc_list := [];
     axe_rule_id := Some "region";
     axe_help := None;
     axe_help_url := None;
     impact := Some "moderate";
     selector := "div#main";
     html_snippet := "<div>";
     attributes := [];
     role_name_guess := "div — ";
     nearby_text := "";
     acc_snapshot := JObj [];
     screenshot := None;
     failureSummary := None;
     why_any := [];
     why_all := [];
     why_none := [] |}.

(* ================================================================== *)
(** ** report_builders: criteria and screenshots in the reports *)

(** excel_report: the criteria of a rule's tags. *)
Definition _sc_from_tags (tags : option (list string)) : list string :=
  fold_left
    (fun scs t =>
       match wcag_re_match (lower t) with
       | Some g => scs ++ [dotted g]
       | None => scs
       end)
    (or_nil tags) [].

(** excel_report: the criterion a topic mentions, [""] when the topic is
    missing or empty or mentions none. *)
Definition _topic_to_sc (topic_value : option string) : string :=
  if truthy topic_value then
    match re_search sc_at (or_empty topic_value) with
    | Some g => dotted g
    | None => ""
    end
  else "".

(** word_report: the map from (selector, rule) to the screenshot of a
    candidate, as the loop over the candidates fills it; a later
    candidate replaces an earlier one under the same pair. *)
Definition cand_lookup_step (m : gmap (string * string) string)
    (c : Candidate) : gmap (string * string) string :=
  let sel := selector c in
  let rid := or_empty (axe_rule_id c) in
  if negb (String.eqb sel "") && negb (String.eqb rid "")
     && truthy (screenshot c)
  then <[(sel, rid) := or_empty (screenshot c)]> m
  else m.

Definition cand_lookup (cands : list Candidate)
  : gmap (string * string) string :=
  fold_left cand_lookup_step cands ∅.

(** word_report: [rec.get("screenshot") or cand_lookup.get((sel, rule))
    or ""] *)
Definition shot_val (cands : list Candidate) (rec : VerdictRecord) : string :=
  let rule := or_empty (vr_axe_rule_id rec) in
  let sel := vr_selector rec in
  if truthy (vr_screenshot rec) then or_empty (vr_screenshot rec)
  else or_empty (cand_lookup cands !! (sel, rule)).

(* ================================================================== *)
(** ** streamlit_app: secrets and the environment *)

(** A value of the secrets file, as the function uses it: the text [str]
    gives for it and its truthiness. *)
Record secret : Type := {
  secret_text : string;
  secret_truth : bool
}.

(** The secrets: the entries of the file, and those of its [openai]
    table (none when there is no such table). *)
Record Secrets : Type := {
  flat : string -> option secret;
  nested : string -> option secret
}.

(** [os.environ] *)
Definition environ : Type := gmap string string.

(** [a or b] on two values that may be [None]. *)
Definition or_secret (a b : option secret) : option secret :=
  match a with
  | Some x => if secret_truth x then a else b
  | None => b
  end.

Definition or_default (env : environ) (name : string)
    (default : option string) : environ :=
  match default with
  | Some d => <[name := d]> env
  | None => env
  end.

Definition set_if_missing (env : environ) (name : string)
    (value : option secret) (default : option string) : environ :=
  if truthy (env !! name) then env
  else
    match value with
    | Some v =>
        if negb (String.eqb (strip (secret_text v)) "")
        then <[name := secret_text v]> env
        else or_default env name default
    | None => or_default env name default
    end.

Definition _apply_secrets_to_env (s : Secrets) (env : environ) : environ :=
  let env1 :=
    set_if_missing env "OPENAI_API_KEY"
      (or_secret (flat s "OPENAI_API_KEY") (nested s "api_key")) None in
  let env2 :=
    set_if_missing env1 "OPENAI_MODEL"
      (or_secret (flat s "OPENAI_MODEL") (nested s "model"))
      (Some "gpt-4o-mini") in
  let env3 :=
    if truthy (env2 !! "OPENAI_API_KEY")
    then set_if_missing env2 "A11Y_USE_LLM" (flat s "A11Y_USE_LLM") (Some "1")
    else <["A11Y_USE_LLM" := "0"]> env2 in
  set_if_missing env3 "A11Y_SKIP_BEST_PRACTICE"
    (flat s "A11Y_SKIP_BEST_PRACTICE") (Some "0").

(** The names the function may set. *)
Definition secret_names : list string :=
  ["OPENAI_API_KEY"; "OPENAI_MODEL"; "A11Y_USE_LLM";
   "A11Y_SKIP_BEST_PRACTICE"].

(** Secrets that ask for the live reviewer but give no key, and an
    environment that asks for it too. *)
Definition keyless_secrets : Secrets :=
  {| flat := fun name =>
       if String.eqb name "A11Y_USE_LLM"
       then Some {| secret_text := "1"; secret_truth := true |}
       else None;
     nested := fun _ => None |}.

Definition eager_environ : environ :=
  {[ "A11Y_USE_LLM" := "1" ]}.

(* ================================================================== *)
(** ** axe_runner: the whole scan *)

Module Runner.

Definition AXE_URLS : list string :=
  ["https://cdn.jsdelivr.net/npm/axe-core@4.7.2/axe.min.js";
   "https://unpkg.com/axe-core@4.7.2/axe.min.js";
   "https://cdnjs.cloudflare.com/ajax/libs/axe-core/4.7.2/axe.min.js"].

(** How [page.goto] ends: the page is loaded, the wait timed out
    ([PlaywrightTimeoutError]), or something else was raised. *)
Inductive navigation : Type :=
| Loaded
| TimedOut
| Failed (e : exn).

(** The browser session of a scan: opening the page; the first
    navigation, which waits for the network to be idle, and the second,
    which waits for the load event; the injection of the scanner from
    one address; the scanner's answer, as the JSON data that is dumped
    and as the rules that are walked; and the closing of the context and
    the browser. *)
Record Browser : Type := {
  new_page : outcome unit;
  goto_networkidle : navigation;
  goto_load : outcome unit;
  add_script_tag : string -> outcome unit;
  axe_run : outcome (json * AxePayload);
  close_session : outcome unit
}.

(** [try: page.goto(...) except PlaywrightTimeoutError: page.goto(...)] *)
Definition navigate (b : Browser) : outcome unit :=
  match goto_networkidle b with
  | Loaded => Ok tt
  | TimedOut => goto_load b
  | Failed e => Raise e
  end.

(** The loop over [AXE_URLS]: the value of [injected] after it. *)
Fixpoint inject (b : Browser) (urls : list string) : bool :=
  match urls with
  | [] => false
  | u :: rest =>
      match add_script_tag b u with
      | Ok _ => true
      | Raise _ => inject b rest
      end
  end.

(** A candidate as [candidates.json] holds it. *)
Definition candidate_json (c : Candidate) : json :=
  JObj [("page_url", JStr (page_url c));
        ("bucket", JStr (bucket c));
        ("topic", JStr (topic c));
        ("sc_list", json_of_strings (sc_list c));
        ("axe_rule_id", json_of_opt (axe_rule_id c));
        ("axe_help", json_of_opt (axe_help c));
        ("axe_help_url", json_of_opt (axe_help_url c));
        ("impact", json_of_opt (impact c));
        ("selector", JStr (selector c));
        ("html_snippet", JStr (html_snippet c));
        ("attributes",
          JObj (map (fun kv => (fst kv, JStr (snd kv))) (attributes c)));
        ("role_name_guess", JStr (role_name_guess c));
        ("nearby_text", JStr (nearby_text c));
        ("acc_snapshot", acc_snapshot c);
        ("screenshot", json_of_opt (screenshot c));
        ("failureSummary", json_of_opt (failureSummary c));
        ("why_any", json_of_strings (why_any c));
        ("why_all", json_of_strings (why_all c));
        ("why_none", json_of_strings (why_none c))].

Definition metadata_file (out_dir : string) : string :=
  out_dir +:+ "/metadata.json".
Definition axe_results_file (out_dir : string) : string :=
  out_dir +:+ "/axe_results.json".
Definition nodes_log_file (out_dir : string) : string :=
  out_dir +:+ "/axe_nodes.jsonl".
Definition candidates_file (out_dir : string) : string :=
  out_dir +:+ "/candidates.json".

Definition metadata_write (url out_dir : string) : write :=
  Write (metadata_file out_dir)
    (json_dumps (Some 2) true (JObj [("page_url", JStr url)])).

(** The text files of a scan, in the order they are written. *)
Definition scan_files (out_dir : string) : list string :=
  [metadata_file out_dir; axe_results_file out_dir; nodes_log_file out_dir;
   candidates_file out_dir].

(** The whole of [run_axe_on_url]: the text files it writes itself
    ([write_text], and [open] for the log), in order, and how the scan
    ends.  The candidates are those of the candidate-building part,
    embedded above under the same name; the image files that
    [crop_element_screenshot] saves under [screenshots] while they are
    built are no part of this list. *)
Definition run_axe_on_url (b : Browser) (page : Page) (url out_dir : string)
  : list write * outcome unit :=
  let meta := metadata_write url out_dir in
  match new_page b with
  | Raise e => ([meta], Raise e)
  | Ok _ =>
      match navigate b with
      | Raise e => ([meta], Raise e)
      | Ok _ =>
          if negb (inject b AXE_URLS)
          then ([meta], Raise (RuntimeError "Failed to inject axe-core from CDN."))
          else
            match axe_run b with
            | Raise e => ([meta], Raise e)
            | Ok (raw, payload) =>
                let results :=
                  Write (axe_results_file out_dir)
                    (json_dumps (Some 2) true raw) in
                let log :=
                  Write (nodes_log_file out_dir) (nodes_log url payload) in
                match run_axe_on_url url out_dir page payload with
                | Raise e => ([meta; results; log], Raise e)
                | Ok candidates =>
                    ([meta; results; log;
                      Write (candidates_file out_dir)
                        (json_dumps (Some 2) true
                           (JList (map candidate_json candidates)))],
                     close_session b)
                end
            end
      end
  end.

End Runner.

(** A session in which the first two addresses fail, and a page on which
    the query of the image-alt pass raises. *)
Definition sample_browser (payload : AxePayload) : Runner.Browser :=
  {| Runner.new_page := Ok tt;
     Runner.goto_networkidle := Runner.TimedOut;
     Runner.goto_load := Ok tt;
     Runner.add_script_tag := fun u =>
       if String.eqb u "https://cdnjs.cloudflare.com/ajax/libs/axe-core/4.7.2/axe.min.js"
       then Ok tt
       else Raise (Exn "Error" "net::ERR_FAILED");
     Runner.axe_run := Ok (JObj [], payload);
     Runner.close_session := Ok tt |}.

Definition offline_browser : Runner.Browser :=
  {| Runner.new_page := Ok tt;
     Runner.goto_networkidle := Runner.Loaded;
     Runner.goto_load := Ok tt;
     Runner.add_script_tag := fun _ => Raise (Exn "Error" "net::ERR_FAILED");
     Runner.axe_run := Ok (JObj [], sample_scan);
     Runner.close_session := Ok tt |}.

Definition vanishing_page : Page :=
  {| query_selector := fun _ => true;
     eval_attributes := fun _ => [];
     eval_closest := fun _ =>
       Raise (Exn "Error" "failed to find element matching selector");
     inner_text := fun _ => None;
     get_accessibility_snapshot := fun _ => JObj [];
     get_nearby_text := fun _ => "";
     get_role_name_guess := fun _ => "";
     crop_element_screenshot := fun _ _ => None |}.

Definition former_scan_files : files :=
  {[ "out/candidates.json" := "former candidates" ]}.

(* ================================================================== *)
(** ** axe_runner: the crop of an element's screenshot *)

Module Crop.

(** [el.bounding_box()]: four floats, held as the rationals they are. *)
Record Box : Type := {
  box_x : Q;
  box_y : Q;
  box_width : Q;
  box_height : Q
}.

(** [max(0, v)]: [v] when it is greater than [0], else [0]. *)
Definition max0 (v : Q) : Q := if Qlt_le_dec 0 v then v else 0%Q.

(** [int(v)]: the integer part, towards zero. *)
Definition py_int (v : Q) : Z :=
  if Qlt_le_dec v 0 then Qceiling v else Qfloor v.

Section Floats.

(** Subtraction and addition of floats: the rational they return,
    whatever the rounding. *)
Variables (fsub fadd : Q -> Q -> Q).

(** The rectangle given to [im.crop] for an element whose box is [box],
    on a page screenshot of [im_width] by [im_height] pixels; [None]
    when nothing of the rectangle is left. *)
Definition crop_rectangle (box : Box) (im_width im_height : Z)
  : option (Z * Z * Z * Z) :=
  let clip_x := max0 (fsub (box_x box) 2) in
  let clip_y := max0 (fsub (box_y box) 2) in
  let clip_width := fadd (box_width box) 4 in
  let clip_height := fadd (box_height box) 4 in
  let x := py_int clip_x in
  let y := py_int clip_y in
  let w := Z.min (py_int clip_width) (im_width - x) in
  let h := Z.min (py_int clip_height) (im_height - y) in
  if (w <=? 0)%Z || (h <=? 0)%Z then None
  else Some (x, y, (x + w)%Z, (y + h)%Z).

End Floats.

End Crop.

(* ================================================================== *)
(** ** streamlit_app: the directory of a run *)

(** [slugify], applied to the [netloc] and the [path] that [urlparse]
    finds in the address. *)
Definition slugify (netloc path : string) : string :=
  let host :=
    str_replace ":" "_" (if String.eqb netloc "" then "site" else netloc) in
  let trimmed :=
    str_replace "/" "_"
      (strip_chars "/" (if String.eqb path "" then "/" else path)) in
  let path_part := if String.eqb trimmed "" then "home" else trimmed in
  take_str 80 (host +:+ "__" +:+ path_part).

(* ================================================================== *)
(** ** The vocabulary of the properties across the stages *)

(** A page whose crop answers as [crop_element_screenshot] does: the
    path it was given, or [None]. *)
Definition crops_to_path (page : Page) : Prop :=
  forall sel path,
    crop_element_screenshot page sel path = None
    \/ crop_element_screenshot page sel path = Some path.

(** The name of the screenshot file of a candidate, without its
    extension. *)
Definition shot_name (c : Candidate) : string :=
  sanitize_filename
    (py_str (axe_rule_id c) +:+ "__" +:+ take_str 60 (selector c)).

(** An occurrence whose node has a selector, and a rule of the passes
    bucket that may be promoted. *)
Definition has_selector (o : Rule * Node) : bool :=
  negb (String.eqb (node_selector (snd o)) "").

Definition is_eligible (r : Rule) : bool :=
  bool_decide (r_id r = Some "image-alt")
  || bool_decide (r_id r = Some "link-name").

(** The keys of the occurrences with a selector, in the order of the
    scan. *)
Definition occurrence_keys (occurrences : list (Rule * Node)) : list Key :=
  map occurrence_key (List.filter has_selector occurrences).

(** A node that its rule promotes when the loop reaches it: it qualifies
    under the rule and its key is not in [seen]. *)
Definition promotable (page : Page) (seen : gset Key) (r : Rule) (n : Node)
  : bool :=
  if bool_decide (r_id r = Some "image-alt")
  then image_promotable page seen r n
  else link_promotable page seen r n.

(** The candidate that a rule of the passes bucket adds when [seen] holds
    the keys in use. *)
Definition pick (url out_dir : string) (page : Page) (seen : gset Key)
    (r : Rule) : option Candidate :=
  if is_eligible r
  then option_map (candidate_from url out_dir page "semantic_review" r)
         (List.find (promotable page seen r) (firstn 30 (r_nodes r)))
  else None.

(* ================================================================== *)
(** * Properties *)

(* ================================================================== *)
(** ** Strings and patterns *)

Lemma andb_true_split (a b : bool) : a && b = true -> a = true /\ b = true.
Proof. destruct a, b; simpl; auto. Qed.

Ltac split_andb :=
  repeat match goal with
         | H : _ && _ = true |- _ =>
             apply andb_true_split in H; destruct H
         end.

Lemma at_dollar_spec (rest : string) :
  at_dollar rest = true <-> rest = "" \/ rest = str1 LF.
Proof.
  destruct rest as [|c [|d rest]]; simpl; split; intros H; auto.
  - right. apply Ascii.eqb_eq in H. now subst.
  - destruct H as [H|H]; [discriminate|]. injection H as ->. reflexivity.
  - discriminate.
  - destruct H as [H|H]; discriminate.
Qed.

(** What one attempt of the tag pattern accepts, case given. *)
Lemma wcag_re_match_spec (u : string) (a b c : ascii) :
  wcag_re_match u = Some (a, b, c) <->
  is_digit a = true /\ is_digit b = true /\ is_digit c = true
  /\ (u = wcag_text a b c \/ u = wcag_text a b c +:+ str1 LF).
Proof.
  unfold wcag_re_match, wcag_at, wcag_text. split.
  - destruct u as [|c1 [|c2 [|c3 [|c4 [|d1 [|d2 [|d3 rest]]]]]]];
      try discriminate.
    destruct (_ && _) eqn:E; [|discriminate].
    intros [= -> -> ->]. split_andb.
    repeat match goal with
           | H : Ascii.eqb _ _ = true |- _ => apply Ascii.eqb_eq in H; subst
           end.
    repeat split; auto.
    match goal with H : at_dollar _ = true |- _ =>
      apply at_dollar_spec in H; destruct H as [->| ->] end; auto.
  - intros (Ha & Hb & Hc & [-> | ->]); simpl; rewrite Ha, Hb, Hc; reflexivity.
Qed.




Lemma extract_fold_acc (tags acc : list string) :
  fold_left extract_step tags acc = acc ++ fold_left extract_step tags [].
Proof.
  revert acc. induction tags as [|t tags IH]; intros acc; simpl.
  - now rewrite app_nil_r.
  - rewrite IH. rewrite (IH (extract_step [] t)).
    unfold extract_step. destruct (wcag_re_match (lower t)); simpl.
    + now rewrite <- app_assoc.
    + reflexivity.
Qed.

Lemma extract_scs_cons (t : string) (tags : list string) :
  _extract_scs (Some (t :: tags)) =
  match wcag_re_match (lower t) with
  | Some g => dotted g :: _extract_scs (Some tags)
  | None => _extract_scs (Some tags)
  end.
Proof.
  unfold _extract_scs. simpl. rewrite extract_fold_acc.
  unfold extract_step at 1.
  destruct (wcag_re_match (lower t)); reflexivity.
Qed.




(* ================================================================== *)
(** ** The candidate selector *)

Lemma grows_trans P st1 st2 st3 :
  grows P st1 st2 -> grows P st2 st3 -> grows P st1 st3.
Proof.
  intros H12 H23. induction H23; auto. now apply grows_add; auto.
Qed.

Lemma grows_weaken (P Q : Candidate -> Prop) st st' :
  (forall c, P c -> Q c) -> grows P st st' -> grows Q st st'.
Proof. intros HPQ H. induction H; constructor; auto. Qed.

Lemma grows_one P st c :
  candidate_key c ∉ seen_of st -> P c -> grows P st (add_candidate st c).
Proof. intros. apply grows_add; auto. constructor. Qed.

Lemma scan_inv_empty : scan_inv (∅, []).
Proof. split; simpl; [reflexivity|constructor]. Qed.

Lemma scan_inv_add st c :
  scan_inv st -> candidate_key c ∉ seen_of st -> scan_inv (add_candidate st c).
Proof.
  intros [Hs Hn] Hk. unfold add_candidate, scan_inv, keys_of in *. simpl.
  rewrite map_app. simpl. split.
  - rewrite list_to_set_app_L. simpl. rewrite Hs.
    rewrite union_empty_r_L. apply union_comm_L.
  - apply NoDup_app. split; [assumption|]. split.
    + intros k Hin Hk'. apply list_elem_of_singleton in Hk'. subst k.
      apply Hk. rewrite Hs. now apply elem_of_list_to_set.
    + apply NoDup_singleton.
Qed.

Lemma grows_inv P st st' : grows P st st' -> scan_inv st -> scan_inv st'.
Proof. induction 1; auto using scan_inv_add. Qed.

(** What was added, as a list. *)
Lemma grows_app P st st' :
  grows P st st' ->
  exists new, candidates_of st' = candidates_of st ++ new /\ Forall P new.
Proof.
  induction 1 as [st|st st' c _ (new & E & HP) _ Hc].
  - exists []. now rewrite app_nil_r.
  - exists (new ++ [c]). unfold add_candidate. simpl. rewrite E.
    rewrite <- app_assoc. split; [reflexivity|].
    apply Forall_app. split; auto.
Qed.

Lemma grows_seen P st st' k :
  grows P st st' -> k ∈ seen_of st -> k ∈ seen_of st'.
Proof.
  induction 1; auto. intros Hk. unfold add_candidate. simpl.
  apply elem_of_union. right. auto.
Qed.

Section CandidateSelectorFacts.

Variables (url out_dir : string) (page : Page).

Local Abbreviation candidate_from := (candidate_from url out_dir page).
Local Abbreviation from_rules := (from_rules url out_dir page).

Lemma candidate_from_key b r n :
  candidate_key (candidate_from b r n) = (r_id r, node_selector n).
Proof. reflexivity. Qed.

Lemma eqb_empty (s : string) : String.eqb s "" = false <-> s <> "".
Proof.
  destruct (String.eqb_spec s ""); split; congruence.
Qed.

(** One node of the must-review pass: a candidate exactly when the
    selector is not empty and the key is new. *)
Lemma must_review_node_cases (r : Rule) (st : ScanState) (n : Node) :
  let st' := must_review_node url out_dir page r (_extract_scs (r_tags r))
               (topic_of (_extract_scs (r_tags r))) st n in
  (node_selector n <> "" /\ ((r_id r, node_selector n) ∉ seen_of st)
   /\ st' = add_candidate st (candidate_from "must_review" r n))
  \/ ((node_selector n = "" \/ ((r_id r, node_selector n) ∈ seen_of st))
      /\ st' = st).
Proof.
  unfold must_review_node. simpl.
  destruct (String.eqb_spec (node_selector n) "") as [E|E]; [right; auto|].
  case_bool_decide; [right; auto|left; auto].
Qed.

Lemma must_review_node_grows (r : Rule) (rules : list Rule) st n :
  r ∈ rules -> n ∈ r_nodes r ->
  grows (from_rules "must_review" rules) st
    (must_review_node url out_dir page r (_extract_scs (r_tags r))
       (topic_of (_extract_scs (r_tags r))) st n).
Proof.
  intros Hr Hn.
  destruct (must_review_node_cases r st n) as [(Hs & Hk & ->)|(_ & ->)].
  - apply grows_one; [exact Hk|]. exists r, n. auto.
  - constructor.
Qed.

Lemma fold_grows {A} P (f : ScanState -> A -> ScanState) (l : list A) :
  (forall st a, a ∈ l -> grows P st (f st a)) ->
  forall st, grows P st (fold_left f l st).
Proof.
  induction l as [|a l IH]; intros Hf st; simpl; [constructor|].
  eapply grows_trans.
  - apply Hf. left.
  - apply IH. intros st' a' Ha'. apply Hf. now right.
Qed.

Lemma must_review_rule_grows (rules : list Rule) st r :
  r ∈ rules ->
  grows (from_rules "must_review" rules) st
    (must_review_rule url out_dir page st r).
Proof.
  intros Hr. unfold must_review_rule.
  apply fold_grows. intros st' n Hn. now apply must_review_node_grows.
Qed.

Lemma must_review_grows (payload : AxePayload) st :
  grows (from_rules "must_review" (violations payload ++ incomplete payload))
    st (must_review url out_dir page payload st).
Proof.
  unfold must_review. simpl.
  apply grows_trans
    with (fold_left (must_review_rule url out_dir page) (violations payload) st);
    apply fold_grows; intros st' r Hr;
    apply must_review_rule_grows; apply elem_of_app; auto.
Qed.


(** The [link-name] loop promotes the first node that qualifies and whose
    key is new, and nothing else. *)
Lemma promote_link_name_find (r : Rule) (st : ScanState) (nodes : list Node) :
  promote_link_name url out_dir page r (_extract_scs (r_tags r))
    (topic_of (_extract_scs (r_tags r))) st nodes =
  match List.find (link_promotable page (seen_of st) r) nodes with
  | Some n => add_candidate st (candidate_from "semantic_review" r n)
  | None => st
  end.
Proof.
  induction nodes as [|n nodes IH]; simpl; [reflexivity|].
  unfold link_promotable at 1.
  destruct (String.eqb (node_selector n) ""); simpl; [exact IH|].
  destruct (vague_link page (node_selector n)); simpl; [|exact IH].
  case_bool_decide; simpl; [exact IH|reflexivity].
Qed.

(** The [image-alt] loop, when it finishes, has promoted the first node
    that qualifies and whose key is new, and nothing else. *)
Lemma promote_image_alt_find (r : Rule) (st st' : ScanState)
    (nodes : list Node) :
  promote_image_alt url out_dir page r (_extract_scs (r_tags r))
    (topic_of (_extract_scs (r_tags r))) st nodes = Ok st' ->
  st' = match List.find (image_promotable page (seen_of st) r) nodes with
        | Some n => add_candidate st (candidate_from "semantic_review" r n)
        | None => st
        end.
Proof.
  induction nodes as [|n nodes IH]; simpl; [now intros [= <-]|].
  unfold image_promotable at 1.
  destruct (String.eqb (node_selector n) ""); simpl; [exact IH|].
  destruct (eval_closest page (node_selector n)) as [b|e]; simpl;
    [|discriminate].
  destruct (b || generic_name page (node_selector n)); simpl; [|exact IH].
  case_bool_decide; simpl; [exact IH|now intros [= <-]].
Qed.

Lemma find_promotable {A} (p : A -> bool) (l : list A) (x : A) :
  List.find p l = Some x -> x ∈ l /\ p x = true.
Proof.
  intros H. apply find_some in H as [Hin Hp]. split; [|exact Hp].
  now apply list_elem_of_In.
Qed.

Lemma link_promotable_true seen r n :
  link_promotable page seen r n = true ->
  node_selector n <> "" /\ vague_link page (node_selector n) = true
  /\ (r_id r, node_selector n) ∉ seen.
Proof.
  unfold link_promotable. intros H. split_andb.
  repeat split; auto.
  - apply eqb_empty. now apply negb_true_iff.
  - apply negb_true_iff in H0. now apply bool_decide_eq_false in H0.
Qed.

Lemma image_promotable_true seen r n :
  image_promotable page seen r n = true ->
  node_selector n <> "" /\ (r_id r, node_selector n) ∉ seen.
Proof.
  unfold image_promotable. intros H. split_andb. split.
  - apply eqb_empty. now apply negb_true_iff.
  - apply negb_true_iff in H0. now apply bool_decide_eq_false in H0.
Qed.

(** One rule of the passes bucket adds nothing or one candidate. *)
Lemma promote_rule_cases (st st' : ScanState) (r : Rule) :
  promote_rule url out_dir page st r = Ok st' ->
  st' = st
  \/ exists c, st' = add_candidate st c /\ (candidate_key c ∉ seen_of st)
               /\ promoted_of url out_dir page r c.
Proof.
  unfold promote_rule.
  destruct (bool_decide (r_id r = Some "image-alt")) eqn:Ei;
    destruct (bool_decide (r_id r = Some "link-name")) eqn:El; simpl.
  - apply bool_decide_eq_true in Ei, El. congruence.
  - apply bool_decide_eq_true in Ei.
    destruct (promote_image_alt _ _ _ _ _ _ _ _) as [st1|e] eqn:E; simpl;
      [|discriminate].
    intros [= <-]. apply promote_image_alt_find in E.
    destruct (List.find _ _) as [n|] eqn:F; [|now left].
    apply find_promotable in F as [Hin Hp].
    apply image_promotable_true in Hp as [Hs Hk].
    right. eexists. split; [exact E|]. split; [exact Hk|].
    split; [now left|]. exists n. auto.
  - apply bool_decide_eq_true in El. intros [= <-].
    rewrite promote_link_name_find.
    destruct (List.find _ _) as [n|] eqn:F; [|now left].
    apply find_promotable in F as [Hin Hp].
    apply link_promotable_true in Hp as (Hs & _ & Hk).
    right. eexists. split; [reflexivity|]. split; [exact Hk|].
    split; [now right|]. exists n. auto.
  - intros [= <-]. now left.
Qed.

Lemma promoted_of_from_rules (rules : list Rule) (r : Rule) (c : Candidate) :
  r ∈ rules -> promoted_of url out_dir page r c ->
  from_rules "semantic_review" rules c.
Proof.
  intros Hr (_ & n & Hn & Hs & ->). exists r, n. repeat split; auto.
  eapply subseteq_take; eauto.
Qed.

(** The whole passes loop: what it adds, rule by rule. *)
Lemma promote_passes_spec (rules : list Rule) (st st' : ScanState) :
  promote_passes url out_dir page st rules = Ok st' ->
  grows (from_rules "semantic_review" rules) st st'
  /\ exists new, candidates_of st' = candidates_of st ++ new
                 /\ promoted_from url out_dir page rules new.
Proof.
  revert st. induction rules as [|r rules IH]; intros st; simpl.
  - intros [= <-]. split; [constructor|]. exists [].
    rewrite app_nil_r. split; [reflexivity|constructor].
  - destruct (promote_rule url out_dir page st r) as [st1|e] eqn:E; simpl;
      [|discriminate].
    intros H. apply IH in H as (Hg & new & Hc & Hp).
    assert (Hg' : grows (from_rules "semantic_review" (r :: rules)) st1 st').
    { eapply grows_weaken; [|exact Hg].
      intros c (r' & n & Hr' & Hrest). exists r', n. split; [now right|auto]. }
    apply promote_rule_cases in E as [->|(c & -> & Hk & Hpc)].
    + split; [exact Hg'|]. exists new. split; [exact Hc|]. now apply pf_none.
    + split.
      * eapply grows_trans; [|exact Hg']. apply grows_one; [exact Hk|].
        eapply promoted_of_from_rules; [left|exact Hpc].
      * exists (c :: new). split.
        -- rewrite Hc. unfold add_candidate. simpl.
           now rewrite <- app_assoc.
        -- now apply pf_one.
Qed.

(** The outcome of the scan, in two parts. *)
Lemma run_axe_on_url_parts (payload : AxePayload) (cands : list Candidate) :
  run_axe_on_url url out_dir page payload = Ok cands ->
  exists promoted,
    cands = candidates_of (must_review url out_dir page payload (∅, []))
            ++ promoted
    /\ promoted_from url out_dir page (passes payload) promoted
    /\ NoDup (keys_of cands).
Proof.
  unfold run_axe_on_url.
  destruct (promote_passes _ _ _ _ _) as [st2|e] eqn:E; simpl; [|discriminate].
  intros [= <-].
  pose proof (must_review_grows payload (∅, [])) as Hm.
  apply promote_passes_spec in E as (Hg & new & Hc & Hp).
  exists new. split; [exact Hc|]. split; [exact Hp|].
  apply grows_inv in Hm; [|exact scan_inv_empty].
  apply grows_inv in Hg; [|exact Hm]. apply Hg.
Qed.


Local Abbreviation occurrence_step := (occurrence_step url out_dir page).

Lemma fold_rule_occurrences (r : Rule) (st : ScanState) :
  fold_left occurrence_step (rule_occurrences r) st =
  must_review_rule url out_dir page st r.
Proof.
  unfold must_review_rule, rule_occurrences.
  revert st. induction (r_nodes r) as [|n nodes IH]; intros st; simpl;
    [reflexivity|apply IH].
Qed.

Lemma fold_rules_occurrences (rules : list Rule) (st : ScanState) :
  fold_left occurrence_step (concat (map rule_occurrences rules)) st =
  fold_left (must_review_rule url out_dir page) rules st.
Proof.
  revert st. induction rules as [|r rules IH]; intros st; simpl;
    [reflexivity|].
  rewrite fold_left_app, fold_rule_occurrences. apply IH.
Qed.

(** The must-review pass is one walk over the occurrences. *)
Lemma must_review_as_fold (payload : AxePayload) (st : ScanState) :
  must_review url out_dir page payload st =
  fold_left occurrence_step (must_review_occurrences payload) st.
Proof.
  unfold must_review, must_review_occurrences. simpl.
  rewrite map_app, concat_app, fold_left_app.
  now rewrite !fold_rules_occurrences.
Qed.

Lemma occurrence_step_cases (st : ScanState) (o : Rule * Node) :
  (node_selector (snd o) <> "" /\ (occurrence_key o ∉ seen_of st)
   /\ occurrence_step st o =
      add_candidate st (candidate_from "must_review" (fst o) (snd o)))
  \/ ((node_selector (snd o) = "" \/ (occurrence_key o ∈ seen_of st))
      /\ occurrence_step st o = st).
Proof. destruct o as [r n]. apply must_review_node_cases. Qed.

Lemma occurrence_step_grows (st : ScanState) (o : Rule * Node) :
  grows (fun _ => True) st (occurrence_step st o).
Proof.
  destruct (occurrence_step_cases st o) as [(_ & Hk & ->)|(_ & ->)].
  - apply grows_one; auto.
  - constructor.
Qed.

Lemma occurrences_grow (l : list (Rule * Node)) (st : ScanState) :
  grows (fun _ => True) st (fold_left occurrence_step l st).
Proof. apply fold_grows. intros. apply occurrence_step_grows. Qed.

(** A key enters [seen] only with an occurrence that carries it. *)
Lemma occurrences_seen (l : list (Rule * Node)) (st : ScanState) (k : Key) :
  k ∈ seen_of (fold_left occurrence_step l st) ->
  k ∈ seen_of st \/ exists o, o ∈ l /\ occurrence_key o = k.
Proof.
  revert st. induction l as [|o l IH]; intros st; simpl; [auto|].
  intros H. apply IH in H as [H|(o' & Hin & Hk)].
  - destruct (occurrence_step_cases st o) as [(_ & _ & E)|(_ & E)];
      rewrite E in H; [|auto].
    unfold add_candidate in H. simpl in H.
    apply elem_of_union in H as [H|H]; [|auto].
    apply elem_of_singleton in H. right. exists o. split; [left|].
    now rewrite H.
  - right. exists o'. split; [now right|exact Hk].
Qed.

Lemma grows_keeps P st st' c :
  grows P st st' -> c ∈ candidates_of st -> c ∈ candidates_of st'.
Proof.
  intros H Hc. apply grows_app in H as (new & -> & _).
  apply elem_of_app. now left.
Qed.

(** The first occurrence of a key gives the candidate of that key. *)
Lemma first_occurrence_wins (before later : list (Rule * Node))
    (o : Rule * Node) (st : ScanState) :
  node_selector (snd o) <> "" ->
  occurrence_key o ∉ seen_of st ->
  (forall o', o' ∈ before -> occurrence_key o' <> occurrence_key o) ->
  candidate_from "must_review" (fst o) (snd o)
    ∈ candidates_of (fold_left occurrence_step (before ++ o :: later) st).
Proof.
  intros Hs Hk Hb. rewrite fold_left_app. simpl.
  set (st1 := fold_left occurrence_step before st).
  assert (Hk1 : occurrence_key o ∉ seen_of st1).
  { intros H. apply occurrences_seen in H as [H|(o' & Hin & E)]; [auto|].
    eapply Hb; eauto. }
  eapply grows_keeps; [apply occurrences_grow|].
  destruct (occurrence_step_cases st1 o) as [(_ & _ & ->)|([E|E] & _)];
    [|contradiction..].
  unfold add_candidate. simpl. apply elem_of_app. right. left.
Qed.

Lemma NoDup_map_eq {A B} (f : A -> B) (l : list A) (x y : A) :
  NoDup (map f l) -> x ∈ l -> y ∈ l -> f x = f y -> x = y.
Proof.
  induction l as [|a l IH]; simpl; intros Hnd Hx Hy E.
  - inversion Hx.
  - apply NoDup_cons in Hnd as [Ha Hnd].
    apply elem_of_cons in Hx as [->|Hx]; apply elem_of_cons in Hy as [->|Hy];
      auto.
    + exfalso. apply Ha. rewrite E. now apply list_elem_of_fmap_2.
    + exfalso. apply Ha. rewrite <- E. now apply list_elem_of_fmap_2.
Qed.

(** The scan gives its candidates whenever the page answers the one query
    that can raise. *)
Lemma promote_image_alt_total (r : Rule) scs t (nodes : list Node) st :
  (forall sel, exists b, eval_closest page sel = Ok b) ->
  exists st', promote_image_alt url out_dir page r scs t st nodes = Ok st'.
Proof.
  intros Hpage. induction nodes as [|n nodes IH]; simpl; [eauto|].
  destruct (String.eqb (node_selector n) ""); [exact IH|].
  destruct (Hpage (node_selector n)) as [b ->]. simpl.
  destruct (b || _); [|exact IH].
  case_bool_decide; [exact IH|eauto].
Qed.

Lemma promote_passes_total (rules : list Rule) (st : ScanState) :
  (forall sel, exists b, eval_closest page sel = Ok b) ->
  exists st', promote_passes url out_dir page st rules = Ok st'.
Proof.
  intros Hpage. revert st. induction rules as [|r rules IH]; intros st; simpl;
    [eauto|].
  assert (Hr : exists st1, promote_rule url out_dir page st r = Ok st1).
  { unfold promote_rule. destruct (negb _); [eauto|].
    destruct (bool_decide (r_id r = Some "image-alt")).
    - destruct (promote_image_alt_total r (_extract_scs (r_tags r))
                  (topic_of (_extract_scs (r_tags r)))
                  (firstn 30 (r_nodes r)) st Hpage) as [st1 ->].
      simpl. destruct (bool_decide _); eauto.
    - simpl. destruct (bool_decide _); eauto. }
  destruct Hr as [st1 ->]. simpl. apply IH.
Qed.

Lemma run_axe_on_url_total (payload : AxePayload) :
  (forall sel, exists b, eval_closest page sel = Ok b) ->
  exists cands, run_axe_on_url url out_dir page payload = Ok cands.
Proof.
  intros Hpage. unfold run_axe_on_url.
  destruct (promote_passes_total (passes payload)
              (must_review url out_dir page payload (∅, [])) Hpage)
    as [st2 ->].
  simpl. eauto.
Qed.

(** ** The properties of the candidate selector *)

(** C1. No two candidates of a scan share their (rule id, selector) key,
    and the candidate of a key is the one built from the first
    occurrence of that key in the violations and incomplete buckets. *)
Theorem candidates_unique (payload : AxePayload) (cands : list Candidate) :
  run_axe_on_url url out_dir page payload = Ok cands ->
  NoDup (map candidate_key cands)
  /\ forall before o later,
       must_review_occurrences payload = before ++ o :: later ->
       node_selector (snd o) <> "" ->
       (forall o', o' ∈ before -> occurrence_key o' <> occurrence_key o) ->
       candidate_from "must_review" (fst o) (snd o) ∈ cands
       /\ forall c, c ∈ cands -> candidate_key c = occurrence_key o ->
                    c = candidate_from "must_review" (fst o) (snd o).
Proof.
  intros Hrun.
  destruct (run_axe_on_url_parts payload cands Hrun) as (new & E & _ & Hnd).
  split; [exact Hnd|].
  intros before o later Hocc Hs Hb.
  assert (Hin : candidate_from "must_review" (fst o) (snd o) ∈ cands).
  { rewrite E. apply elem_of_app. left.
    rewrite must_review_as_fold, Hocc.
    apply first_occurrence_wins; auto. simpl. apply not_elem_of_empty. }
  split; [exact Hin|].
  intros c Hc Hkey. eapply NoDup_map_eq; eauto.
Qed.

Lemma from_rules_fields b rules c :
  from_rules b rules c ->
  bucket c = b
  /\ exists r, r ∈ rules /\ axe_rule_id c = r_id r
               /\ sc_list c = _extract_scs (r_tags r)
               /\ topic c = topic_of (_extract_scs (r_tags r)).
Proof.
  intros (r & n & Hr & _ & _ & ->). split; [reflexivity|].
  exists r. repeat split; auto.
Qed.

Lemma must_review_candidates (payload : AxePayload) :
  Forall (from_rules "must_review" (violations payload ++ incomplete payload))
    (candidates_of (must_review url out_dir page payload (∅, []))).
Proof.
  destruct (grows_app _ _ _ (must_review_grows payload (∅, [])))
    as (new & E & H).
  rewrite E. exact H.
Qed.

Lemma promoted_from_rules (rules : list Rule) (new : list Candidate) :
  promoted_from url out_dir page rules new ->
  Forall (from_rules "semantic_review" rules) new.
Proof.
  induction 1 as [|r rules cs _ IH|r rules c cs Hc _ IH].
  - constructor.
  - eapply Forall_impl; [exact IH|].
    intros c (r' & n & Hr' & Hrest). exists r', n. split; [now right|auto].
  - constructor.
    + eapply promoted_of_from_rules; [left|exact Hc].
    + eapply Forall_impl; [exact IH|].
      intros c' (r' & n & Hr' & Hrest). exists r', n. split; [now right|auto].
Qed.

(** The step of the must-review pass adds a candidate exactly when the
    selector is not empty and the key is new. *)
Lemma occurrence_step_yields (st : ScanState) (o : Rule * Node) :
  (exists c, candidates_of (occurrence_step st o) = candidates_of st ++ [c])
  <-> node_selector (snd o) <> "" /\ (occurrence_key o ∉ seen_of st).
Proof.
  destruct (occurrence_step_cases st o) as [(Hs & Hk & ->)|(Hn & ->)].
  - split; [auto|]. intros _. eexists. reflexivity.
  - split.
    + intros (c & E). apply (f_equal length) in E.
      rewrite length_app in E. simpl in E. lia.
    + intros [Hs Hk]. destruct Hn; contradiction.
Qed.

(** C2. In the must-review pass a node yields a candidate if and only if
    its selector is not empty and its key has not been seen; the
    candidates of that pass carry the bucket must_review, the promoted
    ones the bucket semantic_review. *)
Theorem must_review_policy (payload : AxePayload) :
  (forall st,
     must_review url out_dir page payload st =
     fold_left occurrence_step (must_review_occurrences payload) st)
  /\ (forall st o,
        ((exists c,
            candidates_of (occurrence_step st o) = candidates_of st ++ [c])
         <-> node_selector (snd o) <> "" /\ (occurrence_key o ∉ seen_of st))
        /\ (node_selector (snd o) <> "" -> occurrence_key o ∉ seen_of st ->
            occurrence_step st o =
            add_candidate st (candidate_from "must_review" (fst o) (snd o)))
        /\ (node_selector (snd o) = "" \/ (occurrence_key o ∈ seen_of st) ->
            occurrence_step st o = st)
        /\ bucket (candidate_from "must_review" (fst o) (snd o))
           = "must_review")
  /\ (forall cands,
        run_axe_on_url url out_dir page payload = Ok cands ->
        exists promoted,
          cands =
          candidates_of (must_review url out_dir page payload (∅, []))
          ++ promoted
          /\ Forall (fun c => bucket c = "must_review")
               (candidates_of (must_review url out_dir page payload (∅, [])))
          /\ promoted_from url out_dir page (passes payload) promoted
          /\ Forall (fun c => bucket c = "semantic_review") promoted).
Proof.
  split; [apply must_review_as_fold|]. split.
  - intros st o. split; [apply occurrence_step_yields|].
    destruct (occurrence_step_cases st o) as [(Hs & Hk & E)|(Hn & E)];
      repeat split; auto.
    + intros [H|H]; contradiction.
    + intros Hs Hk. destruct Hn; contradiction.
  - intros cands Hrun.
    destruct (run_axe_on_url_parts payload cands Hrun) as (new & E & Hp & _).
    exists new. split; [exact E|]. split; [|split; [exact Hp|]].
    + eapply Forall_impl; [apply must_review_candidates|].
      intros c Hc. now apply from_rules_fields in Hc.
    + eapply Forall_impl; [apply promoted_from_rules, Hp|].
      intros c Hc. now apply from_rules_fields in Hc.
Qed.

Lemma sc_dash_not_best_practice (sc : string) :
  "SC-" +:+ sc <> "BEST_PRACTICE".
Proof. discriminate. Qed.

(** Every candidate of a scan is built from a node of one of its rules. *)
Lemma candidates_from_rules (payload : AxePayload) (cands : list Candidate)
    (c : Candidate) :
  run_axe_on_url url out_dir page payload = Ok cands -> c ∈ cands ->
  exists b, from_rules b (all_rules payload) c.
Proof.
  intros Hrun Hc.
  destruct (run_axe_on_url_parts payload cands Hrun) as (new & E & Hp & _).
  rewrite E in Hc. apply elem_of_app in Hc as [Hc|Hc].
  - pose proof (must_review_candidates payload) as H.
    rewrite Forall_forall in H. apply H in Hc.
    destruct Hc as (r & n & Hr & Hrest). exists "must_review", r, n.
    split; [|exact Hrest]. unfold all_rules. rewrite app_assoc.
    apply elem_of_app. now left.
  - pose proof (promoted_from_rules _ _ Hp) as H.
    rewrite Forall_forall in H. apply H in Hc.
    destruct Hc as (r & n & Hr & Hrest). exists "semantic_review", r, n.
    split; [|exact Hrest]. unfold all_rules. rewrite app_assoc.
    apply elem_of_app. now right.
Qed.







Lemma promoted_of_fields (r : Rule) (c : Candidate) :
  promoted_of url out_dir page r c ->
  bucket c = "semantic_review" /\ axe_rule_id c = r_id r /\ eligible r.
Proof. intros (He & n & _ & _ & ->). auto. Qed.

(** Each rule of the passes bucket accounts for at most one promoted
    candidate of its rule id. *)
Lemma promoted_from_count (rid : string) (rules : list Rule)
    (new : list Candidate) :
  promoted_from url out_dir page rules new ->
  length (List.filter (is_promoted_for rid) new)
  <= length (List.filter (is_entry_for rid) rules).
Proof.
  induction 1 as [|r rules cs _ IH|r rules c cs Hc _ IH]; simpl.
  - lia.
  - destruct (is_entry_for rid r); simpl; lia.
  - apply promoted_of_fields in Hc as (_ & Hid & _).
    unfold is_promoted_for at 1, is_entry_for at 1. rewrite Hid.
    destruct (bool_decide (r_id r = Some rid)); simpl.
    + destruct (String.eqb _ _); simpl; lia.
    + rewrite andb_false_r. lia.
Qed.

Lemma must_review_not_promoted (rid : string) (cs : list Candidate) :
  Forall (fun c => bucket c = "must_review") cs ->
  List.filter (is_promoted_for rid) cs = [].
Proof.
  induction 1 as [|c cs Hc _ IH]; simpl; [reflexivity|].
  unfold is_promoted_for at 1. rewrite Hc. simpl. exact IH.
Qed.

Lemma promote_image_alt_first_30 (r : Rule) scs t st (nodes : list Node) :
  promote_image_alt url out_dir page (first_30 r) scs t st nodes =
  promote_image_alt url out_dir page r scs t st nodes.
Proof.
  revert st. induction nodes as [|n nodes IH]; intros st; simpl;
    [reflexivity|].
  rewrite !IH. reflexivity.
Qed.

Lemma promote_link_name_first_30 (r : Rule) scs t st (nodes : list Node) :
  promote_link_name url out_dir page (first_30 r) scs t st nodes =
  promote_link_name url out_dir page r scs t st nodes.
Proof.
  revert st. induction nodes as [|n nodes IH]; intros st; simpl;
    [reflexivity|].
  rewrite !IH. reflexivity.
Qed.

Lemma firstn_firstn_same {A} (k : nat) (l : list A) :
  firstn k (firstn k l) = firstn k l.
Proof. rewrite firstn_firstn. now rewrite Nat.min_id. Qed.

Lemma promote_rule_first_30 (st : ScanState) (r : Rule) :
  promote_rule url out_dir page st (first_30 r) =
  promote_rule url out_dir page st r.
Proof.
  unfold promote_rule.
  change (r_id (first_30 r)) with (r_id r).
  change (r_tags (first_30 r)) with (r_tags r).
  change (r_nodes (first_30 r)) with (firstn 30 (r_nodes r)).
  rewrite firstn_firstn_same, promote_image_alt_first_30.
  destruct (negb _); [reflexivity|].
  destruct (bool_decide (r_id r = Some "image-alt")).
  - destruct (promote_image_alt _ _ _ _ _ _ _ _); simpl; [|reflexivity].
    now rewrite promote_link_name_first_30.
  - simpl. now rewrite promote_link_name_first_30.
Qed.

Lemma promote_passes_first_30 (st : ScanState) (rules : list Rule) :
  promote_passes url out_dir page st (map first_30 rules) =
  promote_passes url out_dir page st rules.
Proof.
  revert st. induction rules as [|r rules IH]; intros st; simpl;
    [reflexivity|].
  rewrite promote_rule_first_30.
  destruct (promote_rule url out_dir page st r); simpl; [apply IH|reflexivity].
Qed.

(** Nodes after the thirtieth of a passes rule have no part in the scan. *)
Lemma run_axe_on_url_first_30 (payload : AxePayload) :
  run_axe_on_url url out_dir page (passes_cut payload) =
  run_axe_on_url url out_dir page payload.
Proof.
  unfold run_axe_on_url, passes_cut. simpl.
  rewrite promote_passes_first_30. reflexivity.
Qed.

Lemma vague_link_spec (sel : string) :
  vague_link page sel = true <->
  link_text page sel = "click here" \/ link_text page sel = "learn more"
  \/ link_text page sel = "read more".
Proof.
  unfold vague_link, vague_link_texts. simpl.
  rewrite !orb_true_iff, !String.eqb_eq. intuition discriminate.
Qed.

End CandidateSelectorFacts.

Section PromotionFacts.

Variables (url out_dir : string) (page : Page).

Local Abbreviation candidate_from := (candidate_from url out_dir page).
Local Abbreviation pick := (pick url out_dir page).

Lemma promote_rule_exact (st st' : ScanState) (r : Rule) :
  promote_rule url out_dir page st r = Ok st' ->
  st' = match pick (seen_of st) r with
        | Some c => add_candidate st c
        | None => st
        end.
Proof.
  unfold promote_rule, pick, is_eligible, promotable.
  destruct (bool_decide (r_id r = Some "image-alt")) eqn:Ei;
    destruct (bool_decide (r_id r = Some "link-name")) eqn:El; simpl.
  - apply bool_decide_eq_true in Ei, El. congruence.
  - destruct (promote_image_alt _ _ _ _ _ _ _ _) as [st1|e] eqn:E; simpl;
      [|discriminate].
    intros [= <-]. apply promote_image_alt_find in E. rewrite E.
    now destruct (List.find _ _).
  - intros [= <-]. rewrite promote_link_name_find.
    now destruct (List.find _ _).
  - now intros [= <-].
Qed.

Lemma promotable_seen (seen seen' : gset Key) (r : Rule) (n : Node) :
  (forall sel, (r_id r, sel) ∈ seen <-> (r_id r, sel) ∈ seen') ->
  promotable page seen r n = promotable page seen' r n.
Proof.
  intros H. unfold promotable, image_promotable, link_promotable.
  rewrite (bool_decide_ext _ _ (H (node_selector n))). reflexivity.
Qed.

Lemma find_ext_all {A} (p q : A -> bool) (l : list A) :
  (forall x, p x = q x) -> List.find p l = List.find q l.
Proof.
  intros H. induction l as [|x l IH]; simpl; [reflexivity|].
  now rewrite H, IH.
Qed.

Lemma pick_seen (seen seen' : gset Key) (r : Rule) :
  (forall sel, (r_id r, sel) ∈ seen <-> (r_id r, sel) ∈ seen') ->
  pick seen r = pick seen' r.
Proof.
  intros H. unfold pick. destruct (is_eligible r); [|reflexivity].
  f_equal. apply find_ext_all. intros n. now apply promotable_seen.
Qed.

Lemma pick_fields (seen : gset Key) (r : Rule) (c : Candidate) :
  pick seen r = Some c ->
  is_eligible r = true /\ bucket c = "semantic_review"
  /\ axe_rule_id c = r_id r.
Proof.
  unfold pick. destruct (is_eligible r); [|discriminate].
  destruct (List.find _ _); [|discriminate]. now intros [= <-].
Qed.

Lemma omap_ext_elem {A B} (f g : A -> option B) (l : list A) :
  (forall x, x ∈ l -> f x = g x) -> omap f l = omap g l.
Proof.
  induction l as [|x l IH]; intros H; [reflexivity|].
  change (omap f (x :: l))
    with (match f x with Some y => y :: omap f l | None => omap f l end).
  change (omap g (x :: l))
    with (match g x with Some y => y :: omap g l | None => omap g l end).
  rewrite (H x) by left. rewrite IH; [reflexivity|].
  intros y Hy. apply H. now right.
Qed.

Lemma eligible_head (r : Rule) (rules : list Rule) :
  is_eligible r = true ->
  NoDup (map r_id (List.filter is_eligible (r :: rules))) ->
  NoDup (map r_id (List.filter is_eligible rules))
  /\ forall r', r' ∈ rules -> is_eligible r' = true -> r_id r' <> r_id r.
Proof.
  intros He. simpl. rewrite He. simpl. intros Hnd.
  apply NoDup_cons in Hnd as [Hnot Hnd]. split; [exact Hnd|].
  intros r' Hin He' E. apply Hnot. rewrite <- E.
  apply list_elem_of_fmap. exists r'. split; [reflexivity|].
  apply list_elem_of_In, filter_In. split; [now apply list_elem_of_In|exact He'].
Qed.

Lemma not_eligible_head (r : Rule) (rules : list Rule) :
  is_eligible r = false ->
  NoDup (map r_id (List.filter is_eligible (r :: rules))) ->
  NoDup (map r_id (List.filter is_eligible rules)).
Proof. intros He. simpl. now rewrite He. Qed.

(** The whole passes loop, when each eligible rule is listed once: every
    rule adds its pick against the keys seen before the loop. *)
Lemma promote_passes_exact (rules : list Rule) (st st' : ScanState) :
  NoDup (map r_id (List.filter is_eligible rules)) ->
  promote_passes url out_dir page st rules = Ok st' ->
  candidates_of st' = candidates_of st ++ omap (pick (seen_of st)) rules.
Proof.
  revert st. induction rules as [|r rules IH]; intros st Hnd; simpl.
  - intros [= <-]. now rewrite app_nil_r.
  - destruct (promote_rule url out_dir page st r) as [st1|e] eqn:E; simpl;
      [|discriminate].
    intros Hrest. apply promote_rule_exact in E.
    destruct (pick (seen_of st) r) as [c|] eqn:Ep.
    + apply pick_fields in Ep as (He & _ & Hid).
      destruct (eligible_head r rules He Hnd) as [Hnd' Hne].
      rewrite (IH st1 Hnd' Hrest). subst st1. unfold add_candidate. simpl.
      rewrite <- app_assoc. simpl. do 2 f_equal.
      apply omap_ext_elem. intros r' Hr'.
      destruct (is_eligible r') eqn:He'; [|unfold pick; now rewrite He'].
      apply pick_seen. intros sel.
      rewrite elem_of_union, elem_of_singleton. unfold candidate_key.
      rewrite Hid. split; [|tauto]. intros [Heq|H]; [|exact H].
      exfalso. apply (Hne r' Hr' He'). congruence.
    + subst st1. apply IH; [|exact Hrest].
      destruct (is_eligible r) eqn:He.
      * now destruct (eligible_head r rules He Hnd).
      * now apply not_eligible_head with r.
Qed.

Lemma omap_cons {A B} (f : A -> option B) (x : A) (l : list A) :
  omap f (x :: l)
  = match f x with Some y => y :: omap f l | None => omap f l end.
Proof. reflexivity. Qed.

Lemma filter_cons_if {A} (p : A -> bool) (x : A) (l : list A) :
  List.filter p (x :: l)
  = if p x then x :: List.filter p l else List.filter p l.
Proof. reflexivity. Qed.

Lemma is_promoted_for_pick (seen : gset Key) (rid : string) (r : Rule)
    (c : Candidate) :
  pick seen r = Some c ->
  is_promoted_for rid c = bool_decide (r_id r = Some rid).
Proof.
  intros Ep. apply pick_fields in Ep as (_ & Hb & Hid).
  unfold is_promoted_for. now rewrite Hb, Hid.
Qed.

(** No rule for a rule id, no candidate promoted for it. *)
Lemma picks_none (seen : gset Key) (rid : string) (rules : list Rule) :
  (forall r, r ∈ rules -> is_eligible r = true -> r_id r <> Some rid) ->
  List.filter (is_promoted_for rid) (omap (pick seen) rules) = [].
Proof.
  induction rules as [|r rules IH]; intros H; [reflexivity|].
  rewrite omap_cons.
  assert (IH' : List.filter (is_promoted_for rid) (omap (pick seen) rules)
                = []).
  { apply IH. intros r' Hr'. apply H. now right. }
  destruct (pick seen r) as [c|] eqn:Ep; [|exact IH'].
  rewrite filter_cons_if, (is_promoted_for_pick seen rid r c Ep).
  apply pick_fields in Ep as (He & _).
  rewrite bool_decide_eq_false_2 by (apply H; [left|exact He]).
  exact IH'.
Qed.

(** The candidates promoted for a rule id are the pick of its rule. *)
Lemma picks_one (seen : gset Key) (rid : string) (r : Rule)
    (rules : list Rule) :
  NoDup (map r_id (List.filter is_eligible rules)) ->
  r ∈ rules -> is_eligible r = true -> r_id r = Some rid ->
  List.filter (is_promoted_for rid) (omap (pick seen) rules)
  = match pick seen r with Some c => [c] | None => [] end.
Proof.
  induction rules as [|r0 rules IH]; intros Hnd Hin He Hid;
    [inversion Hin|].
  rewrite omap_cons. destruct (is_eligible r0) eqn:He0.
  - destruct (eligible_head r0 rules He0 Hnd) as [Hnd' Hne].
    destruct (decide (r_id r0 = Some rid)) as [E0|E0].
    + assert (r = r0) as ->.
      { apply elem_of_cons in Hin as [->|Hin]; [reflexivity|].
        exfalso. apply (Hne r Hin He). congruence. }
      assert (Hrest : List.filter (is_promoted_for rid)
                        (omap (pick seen) rules) = []).
      { apply picks_none. intros r' Hr' He' E'.
        apply (Hne r' Hr' He'). congruence. }
      destruct (pick seen r0) as [c|] eqn:Ep; [|exact Hrest].
      rewrite filter_cons_if, (is_promoted_for_pick seen rid r0 c Ep).
      rewrite bool_decide_eq_true_2 by exact E0. now rewrite Hrest.
    + assert (Hin' : r ∈ rules).
      { apply elem_of_cons in Hin as [->|Hin]; [congruence|exact Hin]. }
      destruct (pick seen r0) as [c|] eqn:Ep; [|now apply IH].
      rewrite filter_cons_if, (is_promoted_for_pick seen rid r0 c Ep).
      rewrite bool_decide_eq_false_2 by exact E0. now apply IH.
  - assert (Hin' : r ∈ rules).
    { apply elem_of_cons in Hin as [->|Hin]; [congruence|exact Hin]. }
    assert (Ep : pick seen r0 = None) by (unfold pick; now rewrite He0).
    rewrite Ep. apply IH; auto. now apply not_eligible_head with r0.
Qed.

Lemma promotable_image (seen : gset Key) (r : Rule) (n : Node) :
  r_id r = Some "image-alt" ->
  promotable page seen r n = true <->
  node_selector n <> ""
  /\ (exists b, eval_closest page (node_selector n) = Ok b
                /\ b || generic_name page (node_selector n) = true)
  /\ (r_id r, node_selector n) ∉ seen.
Proof.
  intros Hid. unfold promotable, image_promotable.
  rewrite bool_decide_eq_true_2 by exact Hid.
  rewrite !andb_true_iff, !negb_true_iff, eqb_empty, bool_decide_eq_false.
  destruct (eval_closest page (node_selector n)) as [b|e].
  - split; [intros [[Hs Hq] Hk]|intros (Hs & (b' & [= <-] & Hq) & Hk)];
      eauto.
  - split; [intros [[_ [=]] _]|intros (_ & (b & [=] & _) & _)].
Qed.

Lemma promotable_link (seen : gset Key) (r : Rule) (n : Node) :
  r_id r <> Some "image-alt" ->
  promotable page seen r n = true <->
  node_selector n <> "" /\ vague_link page (node_selector n) = true
  /\ (r_id r, node_selector n) ∉ seen.
Proof.
  intros Hid. unfold promotable, link_promotable.
  rewrite bool_decide_eq_false_2 by exact Hid.
  rewrite !andb_true_iff, !negb_true_iff, eqb_empty, bool_decide_eq_false.
  tauto.
Qed.

Lemma vague_link_text (sel : string) :
  vague_link page sel = true <->
  query_selector page sel = true
  /\ (lower_text (strip_text (or_empty (inner_text page sel))) = "click here"
      \/ lower_text (strip_text (or_empty (inner_text page sel)))
         = "learn more"
      \/ lower_text (strip_text (or_empty (inner_text page sel)))
         = "read more").
Proof.
  rewrite vague_link_spec. unfold link_text.
  destruct (query_selector page sel).
  - tauto.
  - split; [intros [H|[H|H]]; discriminate|intros [[=] _]].
Qed.

Lemma is_eligible_ids (r : Rule) (rid : string) :
  r_id r = Some rid -> rid = "image-alt" \/ rid = "link-name" ->
  is_eligible r = true.
Proof.
  intros Hid [-> | ->]; unfold is_eligible; rewrite Hid.
  - now rewrite bool_decide_eq_true_2.
  - rewrite (bool_decide_eq_true_2 (Some "link-name" = Some "link-name"))
      by reflexivity.
    apply orb_true_r.
Qed.

Lemma find_ext_elem {A} (p q : A -> bool) (l : list A) :
  (forall x, x ∈ l -> p x = q x) -> List.find p l = List.find q l.
Proof.
  induction l as [|x l IH]; intros H; simpl; [reflexivity|].
  rewrite (H x) by left. rewrite IH; [reflexivity|].
  intros y Hy. apply H. now right.
Qed.

Lemma promotable_unseen (seen : gset Key) (r : Rule) (n : Node) :
  (r_id r, node_selector n) ∉ seen ->
  promotable page seen r n = promotable page ∅ r n.
Proof.
  intros H. unfold promotable, image_promotable, link_promotable.
  rewrite (bool_decide_eq_false_2 _ H).
  rewrite (bool_decide_eq_false_2 ((r_id r, node_selector n) ∈ (∅ : gset Key)))
    by apply not_elem_of_empty.
  reflexivity.
Qed.

Lemma length_pick_filter (o : option Candidate) :
  length (match o with Some c => [c] | None => [] end) <= 1.
Proof. destruct o; simpl; lia. Qed.

(** C4. For a scan whose passes bucket lists each of the two rules at
    most once, the candidates are those of the must-review pass followed,
    in the order of the passes bucket, by what the rules image-alt and
    link-name promote, and no other rule promotes.  Each of the two
    promotes at most one candidate, from its first 30 nodes: the first
    node that has a selector, that qualifies and whose key is not that of
    a candidate of the must-review pass; when no key of these nodes is,
    it is the first that qualifies.  A node of link-name qualifies
    exactly when its element is found and its text, trimmed and lowered,
    is one of the three vague texts, as Click Here is. *)
Theorem promotion_policy (payload : AxePayload) (cands : list Candidate) :
  NoDup (map r_id (List.filter is_eligible (passes payload))) ->
  run_axe_on_url url out_dir page payload = Ok cands ->
  let reviewed :=
    candidates_of (must_review url out_dir page payload (∅, [])) in
  let seen : gset Key := list_to_set (map candidate_key reviewed) in
  cands = reviewed ++ omap (pick seen) (passes payload)
  /\ (forall c, c ∈ cands -> bucket c = "semantic_review" ->
                axe_rule_id c = Some "image-alt"
                \/ axe_rule_id c = Some "link-name")
  /\ run_axe_on_url url out_dir page (passes_cut payload) = Ok cands
  /\ (forall rid, length (List.filter (is_promoted_for rid) cands) <= 1)
  /\ (forall r rid,
        r ∈ passes payload -> r_id r = Some rid ->
        rid = "image-alt" \/ rid = "link-name" ->
        List.filter (is_promoted_for rid) cands
        = match List.find (promotable page seen r) (firstn 30 (r_nodes r))
          with
          | Some n => [candidate_from "semantic_review" r n]
          | None => []
          end)
  /\ (forall r rid,
        r ∈ passes payload -> r_id r = Some rid ->
        rid = "image-alt" \/ rid = "link-name" ->
        (forall n, n ∈ firstn 30 (r_nodes r) ->
                   (r_id r, node_selector n) ∉ seen) ->
        List.filter (is_promoted_for rid) cands
        = match List.find (promotable page ∅ r) (firstn 30 (r_nodes r))
          with
          | Some n => [candidate_from "semantic_review" r n]
          | None => []
          end)
  /\ (forall keys r n,
        r_id r = Some "image-alt" ->
        promotable page keys r n = true <->
        node_selector n <> ""
        /\ (exists b, eval_closest page (node_selector n) = Ok b
                      /\ b || generic_name page (node_selector n) = true)
        /\ (r_id r, node_selector n) ∉ keys)
  /\ (forall keys r n,
        r_id r = Some "link-name" ->
        promotable page keys r n = true <->
        node_selector n <> "" /\ vague_link page (node_selector n) = true
        /\ (r_id r, node_selector n) ∉ keys)
  /\ (forall sel,
        vague_link page sel = true <->
        query_selector page sel = true
        /\ (lower_text (strip_text (or_empty (inner_text page sel)))
            = "click here"
            \/ lower_text (strip_text (or_empty (inner_text page sel)))
               = "learn more"
            \/ lower_text (strip_text (or_empty (inner_text page sel)))
               = "read more"))
  /\ (forall sel,
        query_selector page sel = true ->
        inner_text page sel = Some "Click Here" ->
        vague_link page sel = true).
Proof.
  intros Hnd Hrun reviewed seen.
  pose proof (must_review_grows url out_dir page payload (∅, [])) as Hm.
  apply grows_inv in Hm; [|exact scan_inv_empty].
  destruct Hm as [Hseen _]. fold reviewed in Hseen.
  pose proof (must_review_candidates url out_dir page payload) as Hmc.
  assert (Hmb : Forall (fun c => bucket c = "must_review") reviewed).
  { eapply Forall_impl; [exact Hmc|]. intros c Hc.
    now apply from_rules_fields in Hc. }
  assert (E : cands = reviewed ++ omap (pick seen) (passes payload)).
  { unfold run_axe_on_url in Hrun.
    destruct (promote_passes _ _ _ _ _) as [st2|e] eqn:Ep; simpl in Hrun;
      [|discriminate].
    injection Hrun as <-.
    rewrite (promote_passes_exact _ _ _ Hnd Ep). unfold seen.
    change (map candidate_key reviewed) with (keys_of reviewed).
    now rewrite <- Hseen. }
  assert (Hfilter : forall rid,
            List.filter (is_promoted_for rid) cands
            = List.filter (is_promoted_for rid)
                (omap (pick seen) (passes payload))).
  { intros rid. rewrite E, List.filter_app.
    now rewrite (must_review_not_promoted rid _ Hmb). }
  assert (Hone : forall r rid,
            r ∈ passes payload -> r_id r = Some rid ->
            rid = "image-alt" \/ rid = "link-name" ->
            List.filter (is_promoted_for rid) cands
            = match List.find (promotable page seen r)
                      (firstn 30 (r_nodes r)) with
              | Some n => [candidate_from "semantic_review" r n]
              | None => []
              end).
  { intros r rid Hr Hid Hrid.
    pose proof (is_eligible_ids r rid Hid Hrid) as He.
    rewrite Hfilter, (picks_one seen rid r _ Hnd Hr He Hid).
    unfold pick. rewrite He. now destruct (List.find _ _). }
  refine (conj E (conj _ (conj _ (conj _ (conj Hone (conj _ (conj _
            (conj _ (conj vague_link_text _))))))))).
  - intros c Hc Hb. rewrite E in Hc. apply elem_of_app in Hc as [Hc|Hc].
    + rewrite Forall_forall in Hmb. apply Hmb in Hc. congruence.
    + apply list_elem_of_omap in Hc as (r & _ & Hp).
      apply pick_fields in Hp as (He & _ & ->).
      unfold is_eligible in He. apply orb_true_iff in He.
      destruct He as [He|He]; apply bool_decide_eq_true in He; auto.
  - now rewrite run_axe_on_url_first_30.
  - intros rid.
    destruct (List.find (fun r => is_eligible r
                                  && bool_decide (r_id r = Some rid))
                (passes payload)) as [r|] eqn:F.
    + apply find_some in F as [Hr Hp]. apply list_elem_of_In in Hr.
      apply andb_true_iff in Hp as [He Hid].
      apply bool_decide_eq_true in Hid.
      rewrite Hfilter, (picks_one seen rid r _ Hnd Hr He Hid).
      apply length_pick_filter.
    + rewrite Hfilter, picks_none; [simpl; lia|].
      intros r Hr He Hid. apply list_elem_of_In in Hr.
      pose proof (find_none _ _ F r Hr) as Hn. simpl in Hn.
      rewrite He, bool_decide_eq_true_2 in Hn by exact Hid. discriminate.
  - intros r rid Hr Hid Hrid Hnew. rewrite (Hone r rid Hr Hid Hrid).
    rewrite (find_ext_elem (promotable page seen r) (promotable page ∅ r));
      [reflexivity|].
    intros n Hn. apply promotable_unseen. now apply Hnew.
  - intros keys r n. apply promotable_image.
  - intros keys r n Hid. apply promotable_link. rewrite Hid. discriminate.
  - intros sel Hq Ht. apply vague_link_spec. left.
    unfold link_text. rewrite Hq, Ht. reflexivity.
Qed.

End PromotionFacts.

(** The scan of the example gives one must-review candidate for
    [img#logo] and promotes the link whose text is Click Here. *)
Lemma sample_scan_run :
  exists cands,
    run_axe_on_url "https://example.org" "out" sample_page sample_scan
    = Ok cands
    /\ map (fun c => (axe_rule_id c, selector c, bucket c, topic c)) cands
       = [(Some "image-alt", "img#logo", "must_review", "SC-1.1.1");
          (Some "link-name", "a#more", "semantic_review", "SC-2.4.4")].
Proof. eexists. split; vm_compute; reflexivity. Qed.

Lemma candidates_unique_witness :
  let cands :=
    match run_axe_on_url "https://example.org" "out" sample_page sample_scan
    with Ok l => l | Raise _ => [] end in
  NoDup (map candidate_key cands).
Proof.
  intros cands.
  refine (proj1 (candidates_unique "https://example.org" "out" sample_page
                   sample_scan cands _)).
  vm_compute. reflexivity.
Defined.

Lemma promotion_policy_witness :
  let cands :=
    match run_axe_on_url "https://example.org" "out" sample_page sample_scan
    with Ok l => l | Raise _ => [] end in
  map (fun c => (axe_rule_id c, selector c))
    (List.filter (is_promoted_for "link-name") cands)
  = [(Some "link-name", "a#more")]
  /\ length (List.filter (is_promoted_for "image-alt") cands) <= 1
  /\ run_axe_on_url "https://example.org" "out" sample_page
       (passes_cut sample_scan) = Ok cands.
Proof.
  intros cands.
  assert (Hnd : NoDup (map r_id (List.filter is_eligible (passes sample_scan)))).
  { repeat constructor. inversion 1. }
  pose proof (promotion_policy "https://example.org" "out" sample_page
                sample_scan cands Hnd ltac:(vm_compute; reflexivity))
    as (_ & _ & Hcut & Hcount & Hone & _).
  refine (conj _ (conj (Hcount "image-alt") Hcut)).
  rewrite (Hone (sample_rule "link-name" ["wcag244"]
                   [sample_node "a#home"; sample_node "a#more";
                    sample_node "a#more"])
             "link-name" ltac:(left) eq_refl ltac:(now right)).
  vm_compute. reflexivity.
Defined.


(** The first node of image-alt that qualifies is the framed image, but
    its key is that of the must-review candidate: it is passed over and
    the logo is promoted. *)
Lemma first_qualifying_passed_over :
  ~ (forall url out_dir page payload cands r rid,
       NoDup (map r_id (List.filter is_eligible (passes payload))) ->
       run_axe_on_url url out_dir page payload = Ok cands ->
       r ∈ passes payload -> r_id r = Some rid ->
       rid = "image-alt" \/ rid = "link-name" ->
       List.filter (is_promoted_for rid) cands
       = match List.find (promotable page ∅ r) (firstn 30 (r_nodes r)) with
         | Some n => [candidate_from url out_dir page "semantic_review" r n]
         | None => []
         end).
Proof.
  intros H.
  pose (cands :=
          match run_axe_on_url "https://example.org" "out" framed_page
                  framed_scan
          with Ok l => l | Raise _ => [] end).
  specialize (H "https://example.org" "out" framed_page framed_scan cands
                (sample_rule "image-alt" ["wcag111"]
                   [framed_node "#gallery" "img.fine"; sample_node "img.logo"])
                "image-alt").
  assert (Hnd : NoDup (map r_id (List.filter is_eligible (passes framed_scan)))).
  { repeat constructor. inversion 1. }
  assert (Hrun : run_axe_on_url "https://example.org" "out" framed_page
                   framed_scan = Ok cands).
  { vm_compute. reflexivity. }
  specialize (H Hnd Hrun ltac:(left) eq_refl ltac:(now left)).
  apply (f_equal (map selector)) in H. vm_compute in H. discriminate.
Qed.


(* ================================================================== *)
(** ** The verdict adapter *)







(** *** The span that is parsed *)

Lemma append_nil (s : string) : "" +:+ s = s.
Proof. reflexivity. Qed.

Lemma append_cons (c : ascii) (a b : string) :
  String c a +:+ b = String c (a +:+ b).
Proof. reflexivity. Qed.






Lemma drop_str_app (a b : string) : drop_str (String.length a) (a +:+ b) = b.
Proof.
  induction a as [|c a IH]; [now destruct b|].
  rewrite append_cons. exact IH.
Qed.

Lemma take_str_app (a b : string) : take_str (String.length a) (a +:+ b) = a.
Proof.
  induction a as [|c a IH]; [now destruct b|].
  rewrite append_cons. cbn [String.length take_str]. now rewrite IH.
Qed.

Lemma length_append (a b : string) :
  String.length (a +:+ b) = String.length a + String.length b.
Proof.
  induction a as [|c a IH]; [reflexivity|].
  rewrite append_cons. cbn [String.length]. now rewrite IH.
Qed.

Lemma append_assoc (a b c : string) : (a +:+ b) +:+ c = a +:+ (b +:+ c).
Proof.
  induction a as [|x a IH]; [reflexivity|].
  rewrite !append_cons. now rewrite IH.
Qed.









(** On that reply the adapter falls back, although the first balanced
    span parses to a complete verdict. *)
Lemma two_objects_fall_back :
  let w := sample_world (Some "1") None sample_template [] in
  spec_first_balanced_span two_objects = Some "{a}"
  /\ json_loads w "{a}" = Ok first_object_verdict
  /\ check_keys required_keys first_object_verdict = Ok tt
  /\ run_llm w "prompt"
     = fallback_verdict (Exn "JSONDecodeError" "Extra data").
Proof. repeat split. Qed.

(* ================================================================== *)
(** ** The review pass *)

(** *** Success criteria recovered from the topic *)

Lemma is_digit_enum (a : ascii) : is_digit a = true -> In a digit_chars.
Proof.
  destruct a as [[] [] [] [] [] [] [] []]; vm_compute; intros H;
    try discriminate; tauto.
Qed.

Lemma for_digits (P : ascii -> ascii -> ascii -> bool) :
  forallb (fun a => forallb (fun b => forallb (P a b) digit_chars) digit_chars)
    digit_chars = true ->
  forall a b c,
    is_digit a = true -> is_digit b = true -> is_digit c = true ->
    P a b c = true.
Proof.
  intros H a b c Ha Hb Hc.
  apply is_digit_enum in Ha, Hb, Hc.
  rewrite forallb_forall in H. specialize (H a Ha).
  rewrite forallb_forall in H. specialize (H b Hb).
  rewrite forallb_forall in H. exact (H c Hc).
Qed.

(** The three written forms of a criterion that the topic may carry. *)
Lemma norm_sc_forms (a b c : ascii) :
  is_digit a = true -> is_digit b = true -> is_digit c = true ->
  _norm_sc_from_topic ("SC-" +:+ dotted (a, b, c)) = dotted (a, b, c)
  /\ _norm_sc_from_topic (dotted (a, b, c)) = dotted (a, b, c)
  /\ _norm_sc_from_topic (wcag_text a b c) = dotted (a, b, c).
Proof.
  intros Ha Hb Hc.
  pose proof (for_digits
    (fun a b c =>
       String.eqb (_norm_sc_from_topic ("SC-" +:+ dotted (a, b, c)))
         (dotted (a, b, c))
       && String.eqb (_norm_sc_from_topic (dotted (a, b, c)))
            (dotted (a, b, c))
       && String.eqb (_norm_sc_from_topic (wcag_text a b c))
            (dotted (a, b, c)))
    ltac:(vm_compute; reflexivity) a b c Ha Hb Hc) as H.
  cbv beta in H. split_andb.
  repeat match goal with
         | H : String.eqb _ _ = true |- _ => apply String.eqb_eq in H
         end.
  auto.
Qed.

(** A dotted criterion is not a tag. *)
Lemma dotted_not_tag (g : groups) : _WCAG_TAG_REGEX_match (dotted g) = None.
Proof. destruct g as [[a b] c]. reflexivity. Qed.

Lemma stored_fold_none (tags acc : list string) :
  Forall (fun t => _WCAG_TAG_REGEX_match t = None) tags ->
  fold_left stored_sc_step tags acc = acc.
Proof.
  intros H. revert acc. induction H as [|t tags Ht _ IH]; intros acc; simpl.
  - reflexivity.
  - unfold stored_sc_step at 2. rewrite Ht. apply IH.
Qed.

Lemma scs_from_candidate_topic (c : Candidate) :
  Forall (fun t => _WCAG_TAG_REGEX_match t = None) (sc_list c) ->
  _scs_from_candidate c = (_norm_sc_from_topic (topic c), []).
Proof.
  intros H. unfold _scs_from_candidate. now rewrite stored_fold_none.
Qed.

(** What the scan stores in [sc_list] is dotted, hence never a tag. *)
Lemma extract_scs_dotted (tags : option (list string)) :
  Forall (fun s => exists a b c,
            is_digit a = true /\ is_digit b = true /\ is_digit c = true
            /\ s = dotted (a, b, c))
    (_extract_scs tags).
Proof.
  destruct tags as [tags|]; [|constructor].
  induction tags as [|t tags IH]; [constructor|].
  rewrite extract_scs_cons.
  destruct (wcag_re_match (lower t)) as [[[a b] c]|] eqn:E; [|exact IH].
  constructor; [|exact IH].
  apply wcag_re_match_spec in E as (Ha & Hb & Hc & _). exists a, b, c. auto.
Qed.

Lemma review_candidate_mapped (w : World) (out_dir : string) (skip : bool)
    (i : nat) (c : Candidate) :
  Forall (fun t => _WCAG_TAG_REGEX_match t = None) (sc_list c) ->
  _norm_sc_from_topic (topic c) <> "" ->
  (exists e, review_candidate w out_dir skip i c = Raise e)
  \/ exists pw r,
       review_candidate w out_dir skip i c = Ok (Reviewed pw r)
       /\ vr_SC r = _norm_sc_from_topic (topic c)
       /\ vr_sc_list r = [].
Proof.
  intros Hno Hsc. unfold review_candidate.
  rewrite (scs_from_candidate_topic c Hno).
  destruct (String.eqb_spec (_norm_sc_from_topic (topic c)) "") as [E|_];
    [contradiction|].
  rewrite andb_false_r. unfold bind.
  destruct (template_text w) as [tpl|e]; [|left; eauto].
  destruct (build_prompt _ _ _ _ _) as [prompt|e]; [|left; eauto].
  right. do 2 eexists. split; [reflexivity|]. split; reflexivity.
Qed.

(** C10. A candidate whose stored list has no entry of the tag form, as
    is the case of every list the scan writes, takes its primary
    criterion from the topic, written SC-1.1.1, 1.1.1 or wcag111; when
    one is found the candidate is reviewed whatever the skip flag, and
    its record carries that criterion. *)
Theorem topic_recovers_criterion :
  (forall c,
     Forall (fun t => _WCAG_TAG_REGEX_match t = None) (sc_list c) ->
     _scs_from_candidate c = (_norm_sc_from_topic (topic c), []))
  /\ (forall g, _WCAG_TAG_REGEX_match (dotted g) = None)
  /\ (forall url out_dir page payload cands c,
        run_axe_on_url url out_dir page payload = Ok cands -> c ∈ cands ->
        Forall (fun t => _WCAG_TAG_REGEX_match t = None) (sc_list c))
  /\ (forall a b c,
        is_digit a = true -> is_digit b = true -> is_digit c = true ->
        _norm_sc_from_topic ("SC-" +:+ dotted (a, b, c)) = dotted (a, b, c)
        /\ _norm_sc_from_topic (dotted (a, b, c)) = dotted (a, b, c)
        /\ _norm_sc_from_topic (wcag_text a b c) = dotted (a, b, c))
  /\ (forall w out_dir skip i c,
        Forall (fun t => _WCAG_TAG_REGEX_match t = None) (sc_list c) ->
        _norm_sc_from_topic (topic c) <> "" ->
        (exists e, review_candidate w out_dir skip i c = Raise e)
        \/ exists pw r,
             review_candidate w out_dir skip i c = Ok (Reviewed pw r)
             /\ vr_SC r = _norm_sc_from_topic (topic c)
             /\ vr_sc_list r = []).
Proof.
  refine (conj _ (conj _ (conj _ (conj _ _)))).
  - apply scs_from_candidate_topic.
  - apply dotted_not_tag.
  - intros url out_dir page payload cands c Hrun Hc.
    destruct (candidates_from_rules url out_dir page payload cands c Hrun Hc)
      as (bk & Hfrom).
    apply from_rules_fields in Hfrom as (_ & r & _ & _ & -> & _).
    eapply Forall_impl; [apply extract_scs_dotted|].
    intros s (a & b & d & _ & _ & _ & ->). apply dotted_not_tag.
  - apply norm_sc_forms.
  - apply review_candidate_mapped.
Qed.

Lemma topic_recovers_criterion_witness :
  _scs_from_candidate sample_candidate = ("1.1.1", [])
  /\ exists pw r,
       review_candidate (sample_world None (Some "1") sample_template [])
         "out" true 0 sample_candidate = Ok (Reviewed pw r)
       /\ vr_SC r = "1.1.1".
Proof.
  destruct topic_recovers_criterion as (H1 & _ & _ & _ & H5).
  assert (Hno : Forall (fun t => _WCAG_TAG_REGEX_match t = None)
                  (sc_list sample_candidate)).
  { repeat constructor. }
  assert (Hok : raised (review_candidate
                          (sample_world None (Some "1") sample_template [])
                          "out" true 0 sample_candidate) = None).
  { vm_compute. reflexivity. }
  split; [exact (H1 sample_candidate Hno)|].
  destruct (H5 (sample_world None (Some "1") sample_template []) "out" true 0
              sample_candidate Hno ltac:(vm_compute; discriminate))
    as [(e & He)|(pw & r & E & Hsc & _)].
  - rewrite He in Hok. discriminate.
  - exists pw, r. split; [exact E|exact Hsc].
Defined.

(** *** The prompt and its hash *)

Lemma hex_digit_is_hex (n : N) : (n < 16)%N -> is_hex (hex_digit n) = true.
Proof.
  intros H.
  assert (Hn : In n (map N.of_nat (seq 0 16))).
  { apply in_map_iff. exists (N.to_nat n). split; [lia|].
    apply in_seq. lia. }
  simpl in Hn.
  repeat (destruct Hn as [<-|Hn]; [reflexivity|]). contradiction.
Qed.

Lemma hex_fixed_length (k : nat) (n : N) : String.length (hex_fixed k n) = k.
Proof.
  revert n. induction k as [|k IH]; intros n; simpl; [reflexivity|].
  rewrite length_append, IH. simpl. lia.
Qed.

Lemma list_ascii_append (a b : string) :
  list_ascii_of_string (a +:+ b)
  = list_ascii_of_string a ++ list_ascii_of_string b.
Proof.
  induction a as [|c a IH]; [reflexivity|].
  rewrite append_cons. simpl. now rewrite IH.
Qed.

Lemma all_hex_append (a b : string) :
  all_hex a -> all_hex b -> all_hex (a +:+ b).
Proof.
  unfold all_hex. rewrite list_ascii_append. intros. now apply Forall_app.
Qed.

Lemma hex_fixed_hex (k : nat) (n : N) : all_hex (hex_fixed k n).
Proof.
  revert n. induction k as [|k IH]; intros n; simpl; [constructor|].
  apply all_hex_append; [apply IH|].
  repeat constructor. apply hex_digit_is_hex. apply N.mod_lt. lia.
Qed.

(** The hash is the first two words of the digest: 16 hexadecimal
    characters. *)
Lemma prompt_hash_words (prompt : string) :
  exists a b,
    prompt_hash prompt = Sha256.hex_word a +:+ Sha256.hex_word b.
Proof.
  unfold prompt_hash, Sha256.hexdigest.
  set (s := Sha256.digest _).
  exists (Sha256.ha s), (Sha256.hb s).
  rewrite <- (append_assoc (Sha256.hex_word (Sha256.ha s))).
  replace 16 with (String.length (Sha256.hex_word (Sha256.ha s)
                                   +:+ Sha256.hex_word (Sha256.hb s))).
  - apply take_str_app.
  - rewrite length_append. unfold Sha256.hex_word.
    now rewrite !hex_fixed_length.
Qed.

Lemma prompt_hash_format (prompt : string) :
  String.length (prompt_hash prompt) = 16 /\ all_hex (prompt_hash prompt).
Proof.
  destruct (prompt_hash_words prompt) as (a & b & ->). split.
  - rewrite length_append. unfold Sha256.hex_word.
    now rewrite !hex_fixed_length.
  - apply all_hex_append; apply hex_fixed_hex.
Qed.

(** A reviewed candidate: the prompt written is the compiled one, and the
    record has its hash. *)
Lemma review_candidate_prompt (w : World) (out_dir : string) (skip : bool)
    (i : nat) (c : Candidate) (pw : write) (r : VerdictRecord) :
  review_candidate w out_dir skip i c = Ok (Reviewed pw r) ->
  exists tpl,
    template_text w = Ok tpl
    /\ build_prompt (runtime w) tpl (fst (_scs_from_candidate c))
         (tech_doc_for (load_techniques w) (fst (_scs_from_candidate c))) c
       = Ok (write_content pw)
    /\ write_path pw
       = prompt_file out_dir i (fst (_scs_from_candidate c)) c
    /\ vr_prompt_hash r = prompt_hash (write_content pw)
    /\ vr_ai_verdict r = run_llm w (write_content pw).
Proof.
  unfold review_candidate.
  destruct (_scs_from_candidate c) as [sc scs]. simpl fst.
  destruct (skip && _); [discriminate|]. unfold bind.
  destruct (template_text w) as [tpl|e]; [|discriminate].
  destruct (build_prompt _ _ _ _ _) as [prompt|e] eqn:E; [|discriminate].
  intros [= <- <-]. exists tpl. simpl. auto.
Qed.

(** C5. The prompt of a candidate is a function of the template, the
    technique library and the candidate alone: neither the position in
    the run, the output directory, the switches nor the verdict service
    change it.  The hash recorded is taken from the very text that is
    written to the prompt file and sent for a verdict: the first 16 of
    the 64 hexadecimal characters of its SHA-256 digest, the digest being
    the standard one (it gives the published values on the empty message
    and on abc). *)
Theorem prompt_deterministic :
  (forall w1 w2 d1 d2 k1 k2 i1 i2 c pw1 r1 pw2 r2,
     runtime w1 = runtime w2 ->
     template_text w1 = template_text w2 ->
     load_techniques w1 = load_techniques w2 ->
     review_candidate w1 d1 k1 i1 c = Ok (Reviewed pw1 r1) ->
     review_candidate w2 d2 k2 i2 c = Ok (Reviewed pw2 r2) ->
     write_content pw1 = write_content pw2
     /\ vr_prompt_hash r1 = vr_prompt_hash r2)
  /\ (forall w d k i c pw r,
        review_candidate w d k i c = Ok (Reviewed pw r) ->
        exists tpl,
          template_text w = Ok tpl
          /\ build_prompt (runtime w) tpl (fst (_scs_from_candidate c))
               (tech_doc_for (load_techniques w)
                  (fst (_scs_from_candidate c))) c
             = Ok (write_content pw)
          /\ vr_prompt_hash r
             = take_str 16 (Sha256.hexdigest (write_content pw))
          /\ vr_ai_verdict r = run_llm w (write_content pw))
  /\ (forall prompt,
        String.length (Sha256.hexdigest prompt) = 64
        /\ String.length (take_str 16 (Sha256.hexdigest prompt)) = 16
        /\ Forall (fun c => is_hex c = true)
             (list_ascii_of_string (take_str 16 (Sha256.hexdigest prompt))))
  /\ Sha256.hexdigest ""
     = "e3b0c44298fc1c149afbf4c8996fb92427ae41e4649b934ca495991b7852b855"
  /\ Sha256.hexdigest "abc"
     = "ba7816bf8f01cfea414140de5dae2223b00361a396177a9cb410ff61f20015ad".
Proof.
  refine (conj _ (conj _ (conj _ (conj _ _)))).
  - intros w1 w2 d1 d2 k1 k2 i1 i2 c pw1 r1 pw2 r2 Hrt Htpl Hlib H1 H2.
    apply review_candidate_prompt in H1 as (t1 & Ht1 & Hp1 & _ & Hh1 & _).
    apply review_candidate_prompt in H2 as (t2 & Ht2 & Hp2 & _ & Hh2 & _).
    rewrite Htpl, Ht2 in Ht1. injection Ht1 as <-.
    rewrite Hrt, Hlib, Hp2 in Hp1. injection Hp1 as Hp.
    split; [now symmetry|]. rewrite Hh1, Hh2. now rewrite Hp.
  - intros w d k i c pw r H.
    apply review_candidate_prompt in H as (tpl & Ht & Hp & _ & Hh & Hv).
    exists tpl. auto.
  - intros prompt. split; [|exact (prompt_hash_format prompt)].
    unfold Sha256.hexdigest, Sha256.hex_word.
    rewrite !length_append, !hex_fixed_length. reflexivity.
  - vm_compute. reflexivity.
  - vm_compute. reflexivity.
Qed.

Lemma prompt_deterministic_witness :
  match
    review_candidate (sample_world None None sample_template []) "out" false 0
      sample_candidate,
    review_candidate (sample_world (Some "1") (Some "1") sample_template [])
      "elsewhere" true 7 sample_candidate
  with
  | Ok (Reviewed pw1 r1), Ok (Reviewed pw2 r2) =>
      write_content pw1 = write_content pw2
      /\ vr_prompt_hash r1 = vr_prompt_hash r2
  | _, _ => False
  end.
Proof.
  assert (K1 : is_reviewed
                 (review_candidate (sample_world None None sample_template [])
                    "out" false 0 sample_candidate) = true).
  { vm_compute. reflexivity. }
  assert (K2 : is_reviewed
                 (review_candidate
                    (sample_world (Some "1") (Some "1") sample_template [])
                    "elsewhere" true 7 sample_candidate) = true).
  { vm_compute. reflexivity. }
  destruct (review_candidate (sample_world None None sample_template [])
              "out" false 0 sample_candidate) as [[|pw1 r1]|e1] eqn:E1;
    try discriminate K1.
  destruct (review_candidate
              (sample_world (Some "1") (Some "1") sample_template [])
              "elsewhere" true 7 sample_candidate) as [[|pw2 r2]|e2] eqn:E2;
    try discriminate K2.
  exact (proj1 prompt_deterministic
           (sample_world None None sample_template [])
           (sample_world (Some "1") (Some "1") sample_template [])
           _ _ _ _ _ _ _ _ _ _ _ eq_refl eq_refl eq_refl E1 E2).
Defined.

(** The digest of a standard test message. *)
Lemma sha256_abc :
  Sha256.hexdigest "abc"
  = "ba7816bf8f01cfea414140de5dae2223b00361a396177a9cb410ff61f20015ad".
Proof. vm_compute. reflexivity. Qed.

(** The hash of the sample prompt, as the reviewer records it. *)
Lemma sample_prompt_hash :
  exists pw r,
    review_candidate (sample_world None None sample_template []) "out" false 0
      sample_candidate = Ok (Reviewed pw r)
    /\ write_path pw = "out/prompts/000_1.1.1_image-alt.txt"
    /\ vr_prompt_hash r = "d913988a3d7b9f22".
Proof.
  assert (E : review_candidate (sample_world None None sample_template [])
                "out" false 0 sample_candidate
              = ltac:(let v := eval vm_compute in
                        (review_candidate
                           (sample_world None None sample_template [])
                           "out" false 0 sample_candidate) in exact v)).
  { vm_compute. reflexivity. }
  do 2 eexists. split; [exact E|]. split; reflexivity.
Qed.

(** *** The verdicts artifact *)

Lemma append_inj_l (a b c : string) : a +:+ b = a +:+ c -> b = c.
Proof.
  induction a as [|x a IH]; [auto|].
  rewrite !append_cons. intros [= H]. auto.
Qed.

Lemma prompt_file_not_verdicts (out_dir : string) (i : nat) (sc : string)
    (c : Candidate) :
  prompt_file out_dir i sc c <> verdicts_file out_dir.
Proof.
  unfold prompt_file, verdicts_file. intros H.
  apply append_inj_l in H.
  change ("/prompts/" +:+ ?x) with (String "/" (String "p" ("rompts/" +:+ x)))
    in H.
  discriminate.
Qed.

Lemma review_candidate_spares (w : World) (out_dir : string) (skip : bool)
    (i : nat) (c : Candidate) (pw : write) (r : VerdictRecord) :
  review_candidate w out_dir skip i c = Ok (Reviewed pw r) ->
  spares_verdicts out_dir pw.
Proof.
  intros H. apply review_candidate_prompt in H as (_ & _ & _ & Hp & _).
  unfold spares_verdicts. rewrite Hp. apply prompt_file_not_verdicts.
Qed.

(** The loop writes prompt files only. *)
Lemma review_loop_spares (w : World) (out_dir : string) (skip : bool)
    (cands : list Candidate) (i : nat) (acc : list VerdictRecord) :
  Forall (spares_verdicts out_dir)
    (fst (review_loop w out_dir skip i cands acc)).
Proof.
  revert i acc. induction cands as [|c cands IH]; intros i acc; simpl;
    [constructor|].
  destruct (review_candidate w out_dir skip i c) as [[|pw r]|e] eqn:E.
  - apply IH.
  - specialize (IH (S i) (acc ++ [r])).
    destruct (review_loop w out_dir skip (S i) cands (acc ++ [r])) as [ws o].
    simpl in *. constructor; [|exact IH].
    eapply review_candidate_spares; eauto.
  - constructor.
Qed.

(** The loop against its turns. *)
Lemma review_loop_turns (w : World) (out_dir : string) (skip : bool)
    (cands : list Candidate) (i : nat) (acc : list VerdictRecord) :
  match review_turns w out_dir skip i cands with
  | Ok turns =>
      review_loop w out_dir skip i cands acc
      = (omap turn_write turns, Ok (acc ++ omap turn_record turns))
  | Raise e => snd (review_loop w out_dir skip i cands acc) = Raise e
  end.
Proof.
  revert i acc. induction cands as [|c cands IH]; intros i acc; simpl.
  - now rewrite app_nil_r.
  - unfold bind.
    destruct (review_candidate w out_dir skip i c) as [[|pw r]|e] eqn:E;
      [| |reflexivity].
    + specialize (IH (S i) acc).
      destruct (review_turns w out_dir skip (S i) cands) as [turns|e];
        simpl; exact IH.
    + specialize (IH (S i) (acc ++ [r])).
      destruct (review_turns w out_dir skip (S i) cands) as [turns|e].
      * rewrite IH. simpl. now rewrite <- app_assoc.
      * destruct (review_loop w out_dir skip (S i) cands (acc ++ [r])).
        exact IH.
Qed.

Lemma after_writes_spared (fs : files) (p : string) (ws : list write) :
  Forall (fun x => write_path x <> p) ws ->
  after_writes fs ws !! p = fs !! p.
Proof.
  unfold after_writes. revert fs.
  induction ws as [|x ws IH]; intros fs H; simpl; [reflexivity|].
  apply Forall_cons in H as [Hx Hws].
  rewrite IH by exact Hws. unfold apply_write.
  now apply lookup_insert_ne.
Qed.

Lemma after_writes_last (fs : files) (ws : list write) (p t : string) :
  after_writes fs (ws ++ [Write p t]) !! p = Some t.
Proof.
  unfold after_writes. rewrite fold_left_app. simpl. unfold apply_write.
  simpl. apply lookup_insert_eq.
Qed.

Lemma prefix_of_app_last {A} (done rest l : list A) (x : A) :
  done ++ rest = l ++ [x] -> rest <> [] -> exists mid, l = done ++ mid.
Proof.
  intros E Hrest.
  destruct (exists_last Hrest) as (rest' & y & ->).
  rewrite app_assoc in E. apply app_inj_tail in E as [<- _]. eauto.
Qed.

(** The shape of a review pass. *)
Lemma review_shape (w : World) (out_dir : string) :
  Forall (spares_verdicts out_dir) (fst (review w out_dir))
  /\ (exists e, snd (review w out_dir) = Raise e)
  \/ exists cands turns,
       candidates_json w = Some cands
       /\ review_turns w out_dir (skip_flag w) 0 cands = Ok turns
       /\ Forall (spares_verdicts out_dir) (omap turn_write turns)
       /\ review w out_dir
          = (omap turn_write turns
             ++ [Write (verdicts_file out_dir)
                   (verdicts_text (omap turn_record turns))],
             Ok (length (omap turn_record turns))).
Proof.
  unfold review.
  destruct (candidates_json w) as [cands|]; [|left; split; [constructor|eauto]].
  pose proof (review_loop_spares w out_dir (skip_flag w) cands 0 []) as Hsp.
  pose proof (review_loop_turns w out_dir (skip_flag w) cands 0 []) as Ht.
  destruct (review_turns w out_dir (skip_flag w) 0 cands) as [turns|e] eqn:Et.
  - right. exists cands, turns. rewrite Ht in Hsp |- *. simpl in Hsp.
    repeat split; auto.
  - left. destruct (review_loop w out_dir (skip_flag w) 0 cands []) as [ws o].
    simpl in *. subst o. simpl. eauto.
Qed.

Lemma review_candidate_kept (w : World) (out_dir : string) (skip : bool)
    (i : nat) (c : Candidate) (t : turn) :
  review_candidate w out_dir skip i c = Ok t ->
  match t with
  | Skipped => kept skip c = false
  | Reviewed pw r =>
      kept skip c = true /\ record_of c r
      /\ write_path pw = prompt_file out_dir i (fst (_scs_from_candidate c)) c
  end.
Proof.
  unfold review_candidate, kept, record_of.
  destruct (_scs_from_candidate c) as [sc scs]. cbn [fst snd].
  destruct (skip && negb (negb (String.eqb sc ""))) eqn:E.
  - intros [= <-]. now rewrite negb_involutive in E; rewrite E.
  - rewrite negb_involutive in E. rewrite E. unfold bind.
    destruct (template_text w) as [tpl|e]; [|discriminate].
    destruct (build_prompt _ _ _ _ _) as [prompt|e]; [|discriminate].
    intros [= <-]. simpl. tauto.
Qed.

Lemma review_turns_records (w : World) (out_dir : string) (skip : bool)
    (cands : list Candidate) (i : nat) (turns : list turn) :
  review_turns w out_dir skip i cands = Ok turns ->
  Forall2 record_of (List.filter (kept skip) cands) (omap turn_record turns).
Proof.
  revert i turns. induction cands as [|c cands IH]; intros i turns; simpl.
  - intros [= <-]. constructor.
  - unfold bind.
    destruct (review_candidate w out_dir skip i c) as [t|e] eqn:E;
      [|discriminate].
    destruct (review_turns w out_dir skip (S i) cands) as [ts|e] eqn:Et;
      [|discriminate].
    intros [= <-]. apply review_candidate_kept in E.
    specialize (IH (S i) ts Et).
    destruct t as [|pw r]; simpl.
    + now rewrite E.
    + destruct E as (-> & Hr & _). constructor; auto.
Qed.

(** The records of the turns of a pass carry the hash of the prompt
    written in the same turn and the verdict given for it. *)
Lemma review_turns_prompts (w : World) (out_dir : string) (skip : bool)
    (cands : list Candidate) (i : nat) (turns : list turn) :
  review_turns w out_dir skip i cands = Ok turns ->
  Forall2
    (fun pw r =>
       vr_prompt_hash r = take_str 16 (Sha256.hexdigest (write_content pw))
       /\ vr_ai_verdict r = run_llm w (write_content pw))
    (omap turn_write turns) (omap turn_record turns).
Proof.
  revert i turns. induction cands as [|c cands IH]; intros i turns; simpl.
  - intros [= <-]. constructor.
  - unfold bind.
    destruct (review_candidate w out_dir skip i c) as [t|e] eqn:E;
      [|discriminate].
    destruct (review_turns w out_dir skip (S i) cands) as [ts|e] eqn:Et;
      [|discriminate].
    intros [= <-]. specialize (IH (S i) ts Et).
    destruct t as [|pw r]; simpl; [exact IH|].
    apply review_candidate_prompt in E as (_ & _ & _ & _ & Hh & Hv).
    constructor; [|exact IH]. split; [exact Hh|exact Hv].
Qed.

(** C9. The verdicts artifact is written once, by the last write of a
    pass that returns: the JSON text, indented by two, of the list of the
    records, one for each candidate the pass processes and in their
    order, each an object of eleven members that repeats its candidate
    and holds the verdict and the hash of its prompt.  A pass that stops
    on an exception has not written it, and at every moment of a pass the
    artifact is the former one or the complete new one. *)
Theorem verdicts_written_once (w : World) (out_dir : string) (fs : files) :
  (forall e,
     snd (review w out_dir) = Raise e ->
     Forall (fun x => write_path x <> out_dir +:+ "/ai_verdicts.json")
       (fst (review w out_dir))
     /\ after_writes fs (fst (review w out_dir))
          !! (out_dir +:+ "/ai_verdicts.json")
        = fs !! (out_dir +:+ "/ai_verdicts.json"))
  /\ (forall n,
        snd (review w out_dir) = Ok n ->
        exists cands prompts records,
          candidates_json w = Some cands
          /\ fst (review w out_dir)
             = prompts
               ++ [Write (out_dir +:+ "/ai_verdicts.json")
                     (json_dumps (Some 2) true
                        (JList (map record_json records)))]
          /\ Forall (fun x => write_path x <> out_dir +:+ "/ai_verdicts.json")
               prompts
          /\ Forall2 record_of
               (List.filter (kept (skip_flag w)) cands) records
          /\ Forall2
               (fun pw r =>
                  vr_prompt_hash r
                  = take_str 16 (Sha256.hexdigest (write_content pw))
                  /\ vr_ai_verdict r = run_llm w (write_content pw))
               prompts records
          /\ n = length records
          /\ after_writes fs (fst (review w out_dir))
               !! (out_dir +:+ "/ai_verdicts.json")
             = Some (json_dumps (Some 2) true
                       (JList (map record_json records))))
  /\ (forall r,
        record_json r
        = JObj [("page_url", JStr (vr_page_url r));
                ("topic", JStr (vr_topic r));
                ("SC", JStr (vr_SC r));
                ("sc_list", JList (map JStr (vr_sc_list r)));
                ("selector", JStr (vr_selector r));
                ("axe_rule_id",
                  match vr_axe_rule_id r with
                  | Some s => JStr s | None => JNull end);
                ("impact",
                  match vr_impact r with
                  | Some s => JStr s | None => JNull end);
                ("ai_verdict", vr_ai_verdict r);
                ("screenshot",
                  match vr_screenshot r with
                  | Some s => JStr s | None => JNull end);
                ("axe_help_url",
                  match vr_axe_help_url r with
                  | Some s => JStr s | None => JNull end);
                ("prompt_hash", JStr (vr_prompt_hash r))])
  /\ (forall done rest,
        fst (review w out_dir) = done ++ rest ->
        after_writes fs done !! (out_dir +:+ "/ai_verdicts.json")
        = fs !! (out_dir +:+ "/ai_verdicts.json")
        \/ (rest = []
            /\ exists records,
                 snd (review w out_dir) = Ok (length records)
                 /\ after_writes fs done !! (out_dir +:+ "/ai_verdicts.json")
                    = Some (json_dumps (Some 2) true
                              (JList (map record_json records))))).
Proof.
  change (out_dir +:+ "/ai_verdicts.json") with (verdicts_file out_dir).
  change (fun x : write => write_path x <> verdicts_file out_dir)
    with (spares_verdicts out_dir).
  change (fun records => json_dumps (Some 2) true
                           (JList (map record_json records)))
    with verdicts_text.
  destruct (review_shape w out_dir)
    as [(Hsp & e & He)|(cands & turns & Hc & Ht & Hsp & E)].
  - refine (conj _ (conj _ (conj _ _))).
    + intros e' _. split; [exact Hsp|]. now apply after_writes_spared.
    + intros n Hn. congruence.
    + reflexivity.
    + intros done rest Hd. left. apply after_writes_spared.
      rewrite Hd in Hsp. now apply Forall_app in Hsp as [H _].
  - rewrite E. simpl. refine (conj _ (conj _ (conj _ _))).
    + intros e [=].
    + intros n [= <-].
      exists cands, (omap turn_write turns), (omap turn_record turns).
      refine (conj Hc (conj eq_refl (conj Hsp (conj _ (conj _
                (conj eq_refl _)))))).
      * eapply review_turns_records; eauto.
      * eapply review_turns_prompts; eauto.
      * apply after_writes_last.
    + reflexivity.
    + intros done rest Hd. destruct rest as [|x rest].
      * right. split; [reflexivity|]. exists (omap turn_record turns).
        split; [reflexivity|].
        rewrite app_nil_r in Hd. rewrite <- Hd. apply after_writes_last.
      * left. symmetry in Hd.
        apply prefix_of_app_last in Hd as (mid & Hmid); [|discriminate].
        apply after_writes_spared. rewrite Hmid in Hsp.
        now apply Forall_app in Hsp as [H _].
Qed.

(* ================================================================== *)
(** ** The prompt compiler and its template *)

Lemma lookup_kw_none (name : string) (kw : kwargs) :
  lookup_kw name kw = None <-> name ∉ map fst kw.
Proof.
  induction kw as [|[k v] kw IH]; simpl.
  - split; [intros _ H; inversion H|reflexivity].
  - destruct (String.eqb_spec k name) as [->|Hne].
    + split; [discriminate|]. intros H. exfalso. apply H. left.
    + rewrite IH. split.
      * intros H Hin. apply elem_of_cons in Hin as [->|Hin]; auto.
      * intros H Hin. apply H. now right.
Qed.

Lemma fmt_vars_keys (sc : string) (doc : option TechniqueDoc) (c : Candidate) :
  map fst (fmt_vars sc doc c) = fmt_keys.
Proof. reflexivity. Qed.

(** What stops the reading of a template is a [ValueError]. *)
Lemma tokens_from_error (tpl : string) (m : mode) (e : exn) :
  snd (tokens_from m tpl) = Some e -> exn_cls e = "ValueError".
Proof.
  revert m. induction tpl as [|c rest IH]; intros m.
  - destruct m; simpl; intros [= <-]; reflexivity.
  - destruct m as [| |name [|]|name|name conv|name conv spec depth nested];
      cbn [tokens_from].
    + destruct (is_close c).
      * destruct (next_is is_close rest); [apply IH|].
        intros [= <-]; reflexivity.
      * destruct (is_open c); [|apply IH].
        destruct rest as [|c' rest']; [intros [= <-]; reflexivity|].
        destruct (next_is is_open (String c' rest')); apply IH.
    + apply IH.
    + apply IH.
    + destruct (is_open c); [intros [= <-]; reflexivity|].
      destruct (is_close c); [apply IH|].
      destruct (Ascii.eqb c ":"); [apply IH|].
      destruct (Ascii.eqb c "!"); apply IH.
    + apply IH.
    + destruct (is_close c); [apply IH|].
      destruct (Ascii.eqb c ":"); [apply IH|].
      intros [= <-]; reflexivity.
    + destruct (is_open c); [apply IH|].
      destruct (is_close c); [|apply IH].
      destruct depth as [|[|d]]; apply IH.
Qed.

Section Rendering.

Variables (rt : Runtime) (kw : kwargs) (keys : list string).
Hypothesis kw_keys : map fst kw = keys.

Lemma lookup_field_unknown (name : string) :
  unknown_name keys name -> exists e, lookup_field kw name = Raise e.
Proof.
  unfold unknown_name, lookup_field, bind.
  destruct (field_argument name) as [[i|key]|e]; eauto.
  intros H. rewrite <- kw_keys in H. apply lookup_kw_none in H.
  rewrite H. eauto.
Qed.

Lemma render_token_defect (bad : string -> Prop)
    (expand : string -> outcome string) (t : token) :
  (forall spec, bad spec -> exists e, expand spec = Raise e) ->
  token_defect bad keys t ->
  exists e, render_token rt kw expand t = Raise e.
Proof.
  intros Hbad. destruct t as [text|name conv spec nested]; [contradiction|].
  simpl. intros [Hu|[E Hb]].
  - apply lookup_field_unknown in Hu as [e ->]. eauto.
  - unfold bind. destruct (lookup_field kw name) as [value|e]; [|eauto].
    destruct (if String.eqb _ "" then _ else _) as [x|e]; [|eauto].
    destruct (match conv with Some c0 => _ | None => _ end) as [y|e];
      [|eauto].
    rewrite E. destruct (Hbad spec Hb) as [e ->]. eauto.
Qed.

Lemma render_tokens_defect (bad : string -> Prop)
    (expand : string -> outcome string) (ts : list token) (err : option exn) :
  (forall spec, bad spec -> exists e, expand spec = Raise e) ->
  err <> None \/ Exists (token_defect bad keys) ts ->
  exists e, render_tokens (render_token rt kw expand) ts err = Raise e.
Proof.
  intros Hbad. induction ts as [|t ts IH]; simpl; intros H.
  - destruct H as [H|H]; [|inversion H]. destruct err; [eauto|congruence].
  - unfold bind. destruct (render_token rt kw expand t) as [s|e] eqn:E;
      [|eauto].
    destruct IH as [e ->]; [|eauto].
    destruct H as [H|H]; [now left|]. right.
    apply Exists_cons in H as [H|H]; [|exact H].
    destruct (render_token_defect bad expand t Hbad H) as [e He]. congruence.
Qed.

Lemma format_level_defect (bad : string -> Prop)
    (expand : string -> outcome string) (tpl : string) :
  (forall spec, bad spec -> exists e, expand spec = Raise e) ->
  defect_at bad keys tpl ->
  exists e, format_level rt kw expand tpl = Raise e.
Proof. intros Hbad H. now apply render_tokens_defect with bad. Qed.

(** A template with a defect is never formatted. *)
Lemma py_format_defect (tpl : string) :
  template_defect keys tpl -> exists e, py_format rt tpl kw = Raise e.
Proof.
  apply format_level_defect. intros spec Hs.
  apply format_level_defect with (bad := fun _ => True); [|exact Hs].
  intros s _. unfold max_recursion. eauto.
Qed.

(** A formatted template: every piece gave its text. *)
Lemma render_tokens_parts (render : token -> outcome string)
    (ts : list token) (err : option exn) (s : string) :
  render_tokens render ts err = Ok s ->
  err = None
  /\ exists parts,
       Forall2 (fun t p => render t = Ok p) ts parts /\ s = str_concat parts.
Proof.
  revert s. induction ts as [|t ts IH]; simpl; intros s.
  - destruct err; [discriminate|]. intros [= <-]. split; [reflexivity|].
    exists []. split; [constructor|reflexivity].
  - unfold bind. destruct (render t) as [p|e] eqn:E; [|discriminate].
    destruct (render_tokens render ts err) as [r|e]; [|discriminate].
    intros [= <-]. destruct (IH r eq_refl) as (He & parts & Hf & ->).
    split; [exact He|]. exists (p :: parts). split; [|reflexivity].
    constructor; auto.
Qed.

End Rendering.

Lemma fmt_keys_arguments :
  Forall (fun k => field_argument k = Ok (inr k) /\ first_part k = k) fmt_keys.
Proof. repeat constructor. Qed.

Section Compiling.

Variables (rt : Runtime) (sc : string) (doc : option TechniqueDoc)
  (c : Candidate).

Local Abbreviation kw := (fmt_vars sc doc c).
Local Abbreviation expand := (format_level rt kw max_recursion).

Lemma render_plain (t : token) :
  plain_token fmt_keys t -> exists s, render_token rt kw expand t = Ok s.
Proof.
  destruct t as [text|name conv spec nested]; simpl; [eauto|].
  intros (Hin & -> & -> & ->).
  pose proof fmt_keys_arguments as Hk. rewrite Forall_forall in Hk.
  destruct (Hk name Hin) as [Ha Hf].
  unfold lookup_field, bind. rewrite Ha.
  destruct (lookup_kw name kw) as [v|] eqn:El.
  - rewrite Hf.
    replace (drop_str (String.length name) name) with "".
    + simpl. eauto.
    + rewrite <- (drop_str_app name "") at 1.
      f_equal. clear. induction name as [|x n IH]; [reflexivity|].
      rewrite append_cons. now rewrite IH.
  - apply lookup_kw_none in El. now rewrite fmt_vars_keys in El.
Qed.

(** After plain pieces, the first piece that fails decides the error. *)
Lemma render_tokens_first_failure (pre post : list token) (t : token)
    (err : option exn) (e : exn) :
  Forall (plain_token fmt_keys) pre ->
  render_token rt kw expand t = Raise e ->
  render_tokens (render_token rt kw expand) (pre ++ t :: post) err = Raise e.
Proof.
  intros Hpre Ht. induction Hpre as [|p pre Hp _ IH]; simpl.
  - now rewrite Ht.
  - destruct (render_plain p Hp) as [s ->]. simpl. now rewrite IH.
Qed.

Lemma render_tokens_end_failure (ts : list token) (e : exn) :
  Forall (plain_token fmt_keys) ts ->
  render_tokens (render_token rt kw expand) ts (Some e) = Raise e.
Proof.
  induction 1 as [|p ts Hp _ IH]; simpl; [reflexivity|].
  destruct (render_plain p Hp) as [s ->]. simpl. now rewrite IH.
Qed.

Lemma build_prompt_raises (tpl : string) (e : exn) :
  py_format rt tpl kw = Raise e ->
  build_prompt rt tpl sc doc c
  = Raise (if String.eqb (exn_cls e) "KeyError"
           then RuntimeError (key_error_message e)
           else if String.eqb (exn_cls e) "ValueError"
                then RuntimeError value_error_message
                else e).
Proof.
  unfold build_prompt. intros ->.
  destruct (String.eqb _ "KeyError"); [reflexivity|].
  destruct (String.eqb _ "ValueError"); reflexivity.
Qed.

(** A template with a defect gives no prompt. *)
Lemma defect_raises (tpl : string) :
  template_defect fmt_keys tpl ->
  exists e, build_prompt rt tpl sc doc c = Raise e.
Proof.
  intros H.
  destruct (py_format_defect rt kw fmt_keys (fmt_vars_keys sc doc c) tpl H)
    as [e He].
  rewrite (build_prompt_raises tpl e He). eauto.
Qed.

(** A prompt holds the text of every piece of its template. *)
Lemma prompt_parts (tpl prompt : string) :
  build_prompt rt tpl sc doc c = Ok prompt ->
  snd (tokenize tpl) = None
  /\ exists parts,
       Forall2 (fun t p => render_token rt kw expand t = Ok p)
         (fst (tokenize tpl)) parts
       /\ prompt = str_concat parts +:+ diagnostics c.
Proof.
  intros Hp. unfold build_prompt in Hp.
  destruct (py_format rt tpl kw) as [s|e] eqn:E.
  - injection Hp as <-. unfold py_format, format_level in E.
    apply render_tokens_parts in E as (He & parts & Hf & ->).
    split; [exact He|]. exists parts. auto.
  - destruct (String.eqb _ "KeyError"); [discriminate|].
    destruct (String.eqb _ "ValueError"); discriminate.
Qed.

(** The first piece that fails, after plain pieces: a name that is not a
    key, a positional field, and the end of a template that stops on a
    stray brace. *)
Lemma unknown_name_error (tpl : string) (pre post : list token)
    (name : string) (conv : option ascii) (spec : string) (nested : bool)
    (key : string) :
  fst (tokenize tpl) = pre ++ TField name conv spec nested :: post ->
  Forall (plain_token fmt_keys) pre ->
  field_argument name = Ok (inr key) -> key ∉ fmt_keys ->
  build_prompt rt tpl sc doc c
  = Raise (RuntimeError (key_error_message (KeyError key))).
Proof.
  intros Htok Hpre Harg Hkey.
  apply build_prompt_raises with (e := KeyError key).
  unfold py_format, format_level. rewrite Htok.
  apply render_tokens_first_failure; [exact Hpre|].
  simpl. unfold lookup_field, bind. rewrite Harg.
  rewrite <- (fmt_vars_keys sc doc c) in Hkey.
  apply lookup_kw_none in Hkey. now rewrite Hkey.
Qed.

Lemma positional_field_error (tpl : string) (pre post : list token)
    (name : string) (conv : option ascii) (spec : string) (nested : bool)
    (i : N) :
  fst (tokenize tpl) = pre ++ TField name conv spec nested :: post ->
  Forall (plain_token fmt_keys) pre ->
  field_argument name = Ok (inl i) ->
  build_prompt rt tpl sc doc c = Raise (index_out_of_range i).
Proof.
  intros Htok Hpre Harg.
  rewrite (build_prompt_raises tpl (index_out_of_range i)); [reflexivity|].
  unfold py_format, format_level. rewrite Htok.
  apply render_tokens_first_failure; [exact Hpre|].
  simpl. unfold lookup_field, bind. now rewrite Harg.
Qed.

Lemma stray_brace_error (tpl : string) (e : exn) :
  Forall (plain_token fmt_keys) (fst (tokenize tpl)) ->
  snd (tokenize tpl) = Some e ->
  build_prompt rt tpl sc doc c = Raise (RuntimeError value_error_message).
Proof.
  intros Hpl He. rewrite (build_prompt_raises tpl e).
  - apply tokens_from_error in He. rewrite He. reflexivity.
  - unfold py_format, format_level. rewrite He.
    now apply render_tokens_end_failure.
Qed.

(** X25. A template that names a value outside the fixed set, or has a
    brace that is neither doubled nor part of a field, never gives a
    prompt: the compiler raises, and a prompt that is returned holds the
    text of every piece of its template.  When nothing goes wrong before
    it, a name outside the set is reported by the placeholder error,
    which quotes the name (a name of printable ASCII characters comes out
    between single quotes as it is), and a stray brace by the invalid
    format string error. *)
Theorem template_defect_reported (tpl : string) :
  (template_defect fmt_keys tpl ->
   exists e, build_prompt rt tpl sc doc c = Raise e)
  /\ (forall prompt,
        build_prompt rt tpl sc doc c = Ok prompt ->
        ~ template_defect fmt_keys tpl
        /\ snd (tokenize tpl) = None
        /\ exists parts,
             Forall2 (fun t p => render_token rt kw expand t = Ok p)
               (fst (tokenize tpl)) parts
             /\ prompt = str_concat parts +:+ diagnostics c)
  /\ (forall pre name conv spec nested post key,
        fst (tokenize tpl) = pre ++ TField name conv spec nested :: post ->
        Forall (plain_token fmt_keys) pre ->
        field_argument name = Ok (inr key) -> key ∉ fmt_keys ->
        plain_text key ->
        build_prompt rt tpl sc doc c
        = Raise
            (Exn "RuntimeError"
               ("Template formatting error near placeholder "
                +:+ py_repr key
                +:+ ". You likely have an unescaped '{' or '}' in the template. Double all literal braces in JSON examples (use '{{' and '}}').")))
  /\ (forall e,
        Forall (plain_token fmt_keys) (fst (tokenize tpl)) ->
        snd (tokenize tpl) = Some e ->
        build_prompt rt tpl sc doc c
        = Raise
            (Exn "RuntimeError"
               "Template formatting error (invalid format string). Ensure all literal braces are escaped as '{{' and '}}'.")).
Proof.
  refine (conj (defect_raises tpl) (conj _ (conj _ _))).
  - intros prompt Hp. split; [|now apply prompt_parts].
    intros H. destruct (defect_raises tpl H) as [e He]. congruence.
  - intros pre name conv spec nested post key Htok Hpre Harg Hkey _.
    rewrite (unknown_name_error tpl pre post name conv spec nested key
               Htok Hpre Harg Hkey).
    reflexivity.
  - intros e Hpl He. rewrite (stray_brace_error tpl e Hpl He). reflexivity.
Qed.

End Compiling.

(** ** The properties on the sample data *)

Ltac in_list := apply list_elem_of_In; simpl; tauto.
Ltac not_in_list :=
  let H := fresh in
  intros H; apply list_elem_of_In in H; simpl in H; intuition discriminate.
Ltac plain_tokens :=
  repeat (apply Forall_cons; split;
          [first [exact I | repeat split; in_list]|]);
  apply Forall_nil; exact I.

Lemma template_defect_reported_witness :
  build_prompt plain_runtime unknown_name_template "1.1.1" None
    sample_candidate
  = Raise
      (Exn "RuntimeError"
         "Template formatting error near placeholder 'oops'. You likely have an unescaped '{' or '}' in the template. Double all literal braces in JSON examples (use '{{' and '}}').")
  /\ build_prompt plain_runtime lone_brace_template "1.1.1" None
       sample_candidate
     = Raise
         (Exn "RuntimeError"
            "Template formatting error (invalid format string). Ensure all literal braces are escaped as '{{' and '}}'.")
  /\ exists e,
       build_prompt plain_runtime empty_braces_template "1.1.1" None
         sample_candidate = Raise e.
Proof.
  refine (conj _ (conj _ _)).
  - refine (proj1 (proj2 (proj2
      (template_defect_reported plain_runtime "1.1.1" None sample_candidate
         unknown_name_template)))
      (removelast (fst (tokenize unknown_name_template)))
      "oops" None "" false [] "oops" _ _ _ _ _).
    + vm_compute. reflexivity.
    + vm_compute removelast. plain_tokens.
    + reflexivity.
    + not_in_list.
    + reflexivity.
  - refine (proj2 (proj2 (proj2
      (template_defect_reported plain_runtime "1.1.1" None sample_candidate
         lone_brace_template)))
      (ValueError "expected '}' before end of string") _ _).
    + vm_compute fst. plain_tokens.
    + vm_compute. reflexivity.
  - refine (proj1
      (template_defect_reported plain_runtime "1.1.1" None sample_candidate
         empty_braces_template) _).
    right. vm_compute fst.
    do 12 apply Exists_cons_tl. apply Exists_cons_hd. left. exact I.
Defined.

(** C6. A pair of braces left in a template is not reported by the
    compiler's own error: the index error of the interpreter comes out
    as it is, while a lone brace and a name outside the set, in the same
    place, come out as the template formatting error. *)
Theorem empty_braces_bare_error (rt : Runtime) (sc : string)
    (doc : option TechniqueDoc) (c : Candidate) :
  build_prompt rt "Answer with {} only" sc doc c
  = Raise
      (Exn "IndexError"
         "Replacement index 0 out of range for positional args tuple")
  /\ build_prompt rt "Answer with { only" sc doc c
     = Raise
         (Exn "RuntimeError"
            "Template formatting error (invalid format string). Ensure all literal braces are escaped as '{{' and '}}'.")
  /\ build_prompt rt "Answer with {oops} only" sc doc c
     = Raise
         (Exn "RuntimeError"
            "Template formatting error near placeholder 'oops'. You likely have an unescaped '{' or '}' in the template. Double all literal braces in JSON examples (use '{{' and '}}').").
Proof.
  refine (conj _ (conj _ _)).
  - apply (positional_field_error rt sc doc c "Answer with {} only"
             (firstn 12 (fst (tokenize "Answer with {} only")))
             (skipn 13 (fst (tokenize "Answer with {} only")))
             "" None "" false 0%N).
    + vm_compute. reflexivity.
    + vm_compute firstn. plain_tokens.
    + reflexivity.
  - apply (stray_brace_error rt sc doc c "Answer with { only"
             (ValueError "expected '}' before end of string")).
    + vm_compute fst. plain_tokens.
    + vm_compute. reflexivity.
  - apply (unknown_name_error rt sc doc c "Answer with {oops} only"
             (firstn 12 (fst (tokenize "Answer with {oops} only")))
             (skipn 13 (fst (tokenize "Answer with {oops} only")))
             "oops" None "" false "oops").
    + vm_compute. reflexivity.
    + vm_compute firstn. plain_tokens.
    + reflexivity.
    + not_in_list.
Qed.

Lemma verdicts_written_once_witness :
  (let w := sample_world None None unknown_name_template
              [sample_candidate; sample_candidate] in
   after_writes former_files (fst (review w "out")) !! "out/ai_verdicts.json"
   = Some "former verdicts")
  /\ (let w := sample_world None None sample_template [sample_candidate] in
      exists cands records,
        candidates_json w = Some cands
        /\ Forall2 record_of (List.filter (kept (skip_flag w)) cands) records
        /\ length records = 1
        /\ after_writes former_files (fst (review w "out"))
             !! "out/ai_verdicts.json"
           = Some (json_dumps (Some 2) true (JList (map record_json records)))
        /\ json_dumps (Some 2) true (JList (map record_json records))
           = str_join (str1 LF) sample_verdicts_lines).
Proof.
  split.
  - intros w.
    pose proof (proj1 (verdicts_written_once w "out" former_files)) as H.
    assert (E : raised (snd (review w "out"))
                = Some (RuntimeError
                          (key_error_message (KeyError "oops")))).
    { vm_compute. reflexivity. }
    destruct (snd (review w "out")) as [n|e]; [discriminate|].
    etransitivity; [exact (proj2 (H e eq_refl))|reflexivity].
  - intros w.
    pose proof (proj1 (proj2 (verdicts_written_once w "out" former_files)))
      as H.
    assert (E : snd (review w "out") = Ok 1) by (vm_compute; reflexivity).
    destruct (H 1 E)
      as (cands & prompts & records & H1 & H2 & _ & H4 & _ & H6 & H7).
    exists cands, records.
    refine (conj H1 (conj H4 (conj (eq_sym H6) (conj H7 _)))).
    assert (L : last (fst (review w "out"))
                = Some (Write "out/ai_verdicts.json"
                          (str_join (str1 LF) sample_verdicts_lines))).
    { vm_compute. reflexivity. }
    rewrite H2, last_snoc in L. now injection L.
Defined.
(* ================================================================== *)
(** * Further properties *)

(* ================================================================== *)
(** ** axe_runner: file names and check messages *)

Lemma take_str_length (n : nat) (s : string) :
  String.length (take_str n s) <= n.
Proof.
  revert s. induction n as [|n IH]; intros [|c s]; simpl; try lia.
  specialize (IH s). lia.
Qed.

Lemma take_str_all (n : nat) (s : string) :
  String.length s <= n -> take_str n s = s.
Proof.
  revert s. induction n as [|n IH]; intros [|c s]; simpl; intros H;
    try reflexivity; try lia.
  rewrite IH; [reflexivity|lia].
Qed.

Lemma take_str_Forall (P : ascii -> Prop) (n : nat) (s : string) :
  Forall P (list_ascii_of_string s) ->
  Forall P (list_ascii_of_string (take_str n s)).
Proof.
  revert s. induction n as [|n IH]; intros [|c s]; simpl; intros H;
    try constructor.
  - now inversion H.
  - apply IH. now inversion H.
Qed.

Lemma sub_runs_safe (in_run : bool) (s : string) :
  Forall (fun c => filename_char c = true)
    (list_ascii_of_string (sub_runs in_run s)).
Proof.
  revert in_run. induction s as [|c s IH]; intros in_run; simpl;
    [constructor|].
  destruct (filename_char c) eqn:E; simpl.
  - constructor; [exact E|apply IH].
  - destruct in_run; simpl; [apply IH|].
    constructor; [reflexivity|apply IH].
Qed.

Lemma sub_runs_fixed (in_run : bool) (s : string) :
  Forall (fun c => filename_char c = true) (list_ascii_of_string s) ->
  sub_runs in_run s = s.
Proof.
  revert in_run. induction s as [|c s IH]; intros in_run H; simpl;
    [reflexivity|].
  simpl in H. inversion H as [|? ? Hc Hs]; subst.
  rewrite Hc. now rewrite IH.
Qed.

(** X1. A sanitized name has at most 120 characters, every one of them a
    letter, a digit, a dot, an underscore or a hyphen; so it holds no
    path separator. *)
Theorem sanitize_filename_safe (s : string) :
  String.length (sanitize_filename s) <= 120
  /\ Forall (fun c => filename_char c = true)
       (list_ascii_of_string (sanitize_filename s))
  /\ ("/"%char ∉ list_ascii_of_string (sanitize_filename s))
  /\ ("\"%char ∉ list_ascii_of_string (sanitize_filename s)).
Proof.
  assert (Hsafe : Forall (fun c => filename_char c = true)
                    (list_ascii_of_string (sanitize_filename s))).
  { apply take_str_Forall, sub_runs_safe. }
  refine (conj _ (conj Hsafe (conj _ _))).
  - apply take_str_length.
  - intros Hin. rewrite Forall_forall in Hsafe.
    apply Hsafe in Hin. discriminate.
  - intros Hin. rewrite Forall_forall in Hsafe.
    apply Hsafe in Hin. discriminate.
Qed.

(** X2. A name that is already safe and short enough is left as it is;
    sanitizing twice is sanitizing once. *)
Theorem sanitize_filename_fixed (s : string) :
  (String.length s <= 120 ->
   Forall (fun c => filename_char c = true) (list_ascii_of_string s) ->
   sanitize_filename s = s)
  /\ sanitize_filename (sanitize_filename s) = sanitize_filename s.
Proof.
  assert (Hfix : forall t,
            String.length t <= 120 ->
            Forall (fun c => filename_char c = true) (list_ascii_of_string t) ->
            sanitize_filename t = t).
  { intros t Hlen Hsafe. unfold sanitize_filename.
    rewrite sub_runs_fixed by exact Hsafe. now apply take_str_all. }
  split; [apply Hfix|].
  apply Hfix.
  - apply take_str_length.
  - apply take_str_Forall, sub_runs_safe.
Qed.

Lemma sanitize_filename_fixed_witness :
  sanitize_filename "image-alt__img_logo.v2" = "image-alt__img_logo.v2".
Proof.
  apply (proj1 (sanitize_filename_fixed "image-alt__img_logo.v2")).
  - simpl. lia.
  - repeat constructor.
Defined.

(** *** The messages of a node's checks *)


















(* ================================================================== *)
(** ** JSON texts *)

(** Induction on JSON data, with the items of a list and the members of
    an object as smaller data. *)
Lemma json_ind' (P : json -> Prop) :
  P JNull -> (forall b, P (JBool b)) -> (forall n, P (JInt n)) ->
  (forall r, P (JFloat r)) -> (forall s, P (JStr s)) ->
  (forall items, Forall P items -> P (JList items)) ->
  (forall members, Forall (fun kv => P (snd kv)) members -> P (JObj members)) ->
  forall j, P j.
Proof.
  intros HNull HBool HInt HFloat HStr HList HObj.
  fix IH 1. intros [|b|n|r|s|items|members].
  - exact HNull.
  - apply HBool.
  - apply HInt.
  - apply HFloat.
  - apply HStr.
  - apply HList. induction items as [|x items IHitems]; constructor.
    + apply IH.
    + exact IHitems.
  - apply HObj. induction members as [|[k v] members IHm]; constructor.
    + apply IH.
    + exact IHm.
Qed.

Lemma one_line_append (a b : string) :
  one_line a -> one_line b -> one_line (a +:+ b).
Proof.
  unfold one_line. rewrite list_ascii_append. intros. now apply Forall_app.
Qed.

Lemma one_line_forallb (s : string) :
  forallb (fun c => negb (Ascii.eqb c LF)) (list_ascii_of_string s) = true ->
  one_line s.
Proof.
  unfold one_line. intros H. apply Forall_forall. intros c Hc.
  apply list_elem_of_In in Hc.
  rewrite forallb_forall in H. specialize (H c Hc).
  apply negb_true_iff in H. now apply Ascii.eqb_neq.
Qed.

Lemma json_escape_char_one_line (ensure_ascii : bool) (c : ascii) :
  one_line (json_escape_char ensure_ascii c).
Proof.
  apply one_line_forallb.
  destruct ensure_ascii; destruct c as [[] [] [] [] [] [] [] []];
    vm_compute; reflexivity.
Qed.

Lemma hex_fixed_one_line (k : nat) (n : N) : one_line (hex_fixed k n).
Proof.
  revert n. induction k as [|k IH]; intros n; simpl; [constructor|].
  apply one_line_append; [apply IH|].
  assert (Hlt : (n mod 16 < 16)%N) by (apply N.mod_lt; lia).
  generalize dependent (n mod 16)%N. intros m Hlt.
  assert (Hm : In m (map N.of_nat (seq 0 16))).
  { apply in_map_iff. exists (N.to_nat m). split; [lia|].
    apply in_seq. lia. }
  simpl in Hm.
  repeat (destruct Hm as [<-|Hm]; [repeat constructor; discriminate|]).
  contradiction.
Qed.

Lemma escape_code_point_one_line (n : N) : one_line (escape_code_point n).
Proof.
  unfold escape_code_point. destruct (n <? 65536)%N.
  - apply one_line_append; [repeat constructor; discriminate|].
    apply hex_fixed_one_line.
  - repeat (apply one_line_append;
            [first [apply hex_fixed_one_line
                   |repeat constructor; discriminate]|]).
    apply hex_fixed_one_line.
Qed.

Lemma json_escape_one_line (ensure_ascii : bool) (s : string) :
  one_line (json_escape ensure_ascii s).
Proof.
  assert (H : forall n s, String.length s <= n ->
                          one_line (json_escape ensure_ascii s)).
  { clear s. induction n as [|n IH]; intros s Hs.
    - destruct s; [constructor|simpl in Hs; lia].
    - destruct s as [|c0 s0]; [constructor|]. simpl in Hs.
      assert (Hb : one_line (json_escape_char ensure_ascii c0
                             +:+ json_escape ensure_ascii s0)).
      { apply one_line_append; [apply json_escape_char_one_line|].
        apply IH. lia. }
      cbn [json_escape]. cbv zeta.
      destruct (negb ensure_ascii || (ord c0 <? 128)%N); [exact Hb|].
      destruct s0 as [|c1 s1]; [exact Hb|]. simpl in Hs.
      destruct (leads2 c0 && is_continuation c1).
      { apply one_line_append; [apply escape_code_point_one_line|].
        apply IH. lia. }
      destruct s1 as [|c2 s2]; [exact Hb|]. simpl in Hs.
      destruct (leads3 c0 && is_continuation c1 && is_continuation c2).
      { apply one_line_append; [apply escape_code_point_one_line|].
        apply IH. lia. }
      destruct s2 as [|c3 s3]; [exact Hb|]. simpl in Hs.
      destruct (leads4 c0 && is_continuation c1 && is_continuation c2
                && is_continuation c3); [|exact Hb].
      apply one_line_append; [apply escape_code_point_one_line|].
      apply IH. lia. }
  apply (H (String.length s)). lia.
Qed.

Lemma json_string_one_line (ensure_ascii : bool) (s : string) :
  one_line (json_string ensure_ascii s).
Proof.
  unfold json_string. apply one_line_append; [repeat constructor; discriminate|].
  apply one_line_append; [|repeat constructor; discriminate].
  apply json_escape_one_line.
Qed.

Lemma string_of_uint_one_line (d : Decimal.uint) :
  one_line (NilEmpty.string_of_uint d).
Proof.
  induction d; simpl; try constructor; try discriminate; exact IHd.
Qed.

Lemma str_of_Z_one_line (n : Z) : one_line (str_of_Z n).
Proof.
  unfold str_of_Z, NilZero.string_of_int.
  assert (H : forall d, one_line (NilZero.string_of_uint d)).
  { intros d. destruct d; try apply string_of_uint_one_line.
    repeat constructor; discriminate. }
  destruct (Z.to_int n); [apply H|].
  constructor; [discriminate|apply H].
Qed.

Lemma str_join_one_line (sep : string) (parts : list string) :
  one_line sep -> Forall one_line parts -> one_line (str_join sep parts).
Proof.
  intros Hsep H. induction H as [|p parts Hp Hparts IH]; [constructor|].
  destruct parts as [|q parts]; [exact Hp|].
  change (one_line (p +:+ sep +:+ str_join sep (q :: parts))).
  repeat apply one_line_append; auto.
Qed.

Lemma json_container_one_line (level : nat) (opening closing : string)
    (parts : list string) :
  one_line opening -> one_line closing -> Forall one_line parts ->
  one_line (json_container None level opening closing parts).
Proof.
  intros Ho Hc Hp. unfold json_container.
  repeat apply one_line_append; auto.
  apply str_join_one_line; [repeat constructor; discriminate|exact Hp].
Qed.

(** Without [indent], [json.dumps] writes no line feed. *)
Lemma json_encode_one_line (ensure_ascii : bool) (j : json) :
  plain_floats j ->
  forall level, one_line (json_encode None ensure_ascii level j).
Proof.
  induction j as [|b|n|r|s|items IH|members IH] using json_ind';
    intros Hp level.
  - repeat constructor; discriminate.
  - destruct b; repeat constructor; discriminate.
  - apply str_of_Z_one_line.
  - now inversion Hp.
  - apply json_string_one_line.
  - inversion Hp as [| | | | |? Hitems|]; subst.
    destruct items as [|x items]; [repeat constructor; discriminate|].
    cbn [json_encode].
    apply json_container_one_line; try (repeat constructor; discriminate).
    apply Forall_map.
    apply Forall_forall. intros y Hy.
    rewrite Forall_forall in IH, Hitems. apply IH; auto.
  - inversion Hp as [| | | | | |? Hm]; subst.
    destruct members as [|m members]; [repeat constructor; discriminate|].
    cbn [json_encode].
    apply json_container_one_line; try (repeat constructor; discriminate).
    apply Forall_map.
    apply Forall_forall. intros [k v] Hkv.
    rewrite Forall_forall in IH, Hm.
    apply one_line_append; [apply json_string_one_line|].
    apply one_line_append; [repeat constructor; discriminate|].
    apply (IH (k, v) Hkv). apply (Hm (k, v) Hkv).
Qed.

Lemma count_char_append (x : ascii) (a b : string) :
  count_char x (a +:+ b) = count_char x a + count_char x b.
Proof.
  induction a as [|c a IH]; [now rewrite append_nil|].
  rewrite append_cons. simpl. rewrite IH. lia.
Qed.

Lemma count_char_one_line (s : string) : one_line s -> count_char LF s = 0.
Proof.
  unfold one_line. induction s as [|c s IH]; simpl; [reflexivity|].
  intros H. inversion H as [|? ? Hc Hs]; subst.
  rewrite IH by exact Hs. apply Ascii.eqb_neq in Hc. now rewrite Hc.
Qed.

(* ================================================================== *)
(** ** axe_runner: the node log *)

Lemma json_of_opt_plain (x : option string) : plain_floats (json_of_opt x).
Proof. destruct x; constructor. Qed.

Lemma json_of_strings_plain (l : list string) :
  plain_floats (json_of_strings l).
Proof.
  constructor. apply Forall_map. apply Forall_forall. intros s _. constructor.
Qed.

Lemma node_record_plain (url bucket_name : string) (r : Rule)
    (scs : list string) (n : Node) :
  plain_floats (node_record url bucket_name r scs n).
Proof.
  constructor.
  repeat (apply Forall_cons; split;
          [first [apply json_of_opt_plain | apply json_of_strings_plain
                 | constructor]|]).
  apply Forall_nil; exact I.
Qed.

Lemma str_concat_lines (ws : list string) :
  Forall (fun w => exists line, w = line +:+ str1 LF /\ one_line line) ws ->
  count_char LF (str_concat ws) = length ws.
Proof.
  induction 1 as [|w ws (line & -> & Hline) _ IH]; [reflexivity|].
  simpl. change (String.append ?a ?b) with (a +:+ b).
  rewrite !count_char_append, IH, (count_char_one_line line Hline).
  reflexivity.
Qed.

(** X4. The node log has one line for each node of each rule of the three
    buckets: every text written is a record on one line followed by a
    line feed, so the file holds as many line feeds as the scan has
    nodes. *)
Theorem nodes_log_one_line_per_node (url : string) (payload : AxePayload) :
  length (nodes_log_writes url payload)
  = length (flat_map r_nodes (all_rules payload))
  /\ Forall (fun w => exists line, w = line +:+ str1 LF /\ one_line line)
       (nodes_log_writes url payload)
  /\ count_char LF (nodes_log url payload)
     = length (flat_map r_nodes (all_rules payload)).
Proof.
  assert (Hlen : length (nodes_log_writes url payload)
                 = length (flat_map r_nodes (all_rules payload))).
  { unfold nodes_log_writes, log_buckets, all_rules. simpl.
    rewrite app_nil_r, !flat_map_app, !length_app.
    assert (H : forall b rules,
              length (flat_map
                        (fun r =>
                           map (fun n =>
                                  json_dumps None false
                                    (node_record url b r
                                       (_extract_scs (r_tags r)) n)
                                  +:+ str1 LF) (r_nodes r)) rules)
              = length (flat_map r_nodes rules)).
    { intros b rules. induction rules as [|r rules IH]; [reflexivity|].
      simpl. rewrite !length_app, length_map, IH. reflexivity. }
    now rewrite !H. }
  assert (Hl : Forall (fun w => exists line,
                         w = line +:+ str1 LF /\ one_line line)
                 (nodes_log_writes url payload)).
  { unfold nodes_log_writes.
    apply Forall_flat_map. apply Forall_forall. intros b _.
    apply Forall_flat_map. apply Forall_forall. intros r _.
    apply Forall_map. apply Forall_forall. intros n _.
    eexists. split; [reflexivity|].
    apply json_encode_one_line, node_record_plain. }
  refine (conj Hlen (conj Hl _)).
  unfold nodes_log. rewrite str_concat_lines by exact Hl. exact Hlen.
Qed.

(* ================================================================== *)
(** ** axe_runner: the accessibility snapshot *)

Module SnapshotFacts.

Import Snapshot.

(** [trim] on a dictionary, by the entry of its children. *)
Lemma trim_obj (members : list (string * json)) :
  trim (JObj members)
  = match dict_get "children" members with
    | None => Ok (JObj (kept_entries members))
    | Some v =>
        let* items := trim_children v in
        Ok (JObj (kept_entries members ++ [("children", JList items)]))
    end.
Proof.
  cbn [trim]. generalize (kept_entries members) as out. intros out.
  induction members as [|[k v] members IH]; [reflexivity|].
  cbn [dict_get]. destruct (String.eqb k "children"); [reflexivity|].
  exact IH.
Qed.

Lemma trim_other (j : json) :
  (forall members, j <> JObj members) -> trim j = Ok j.
Proof. destruct j; try reflexivity. intros H. now destruct (H members). Qed.

Lemma trim_each_spec (count : nat) (items kids : list json) :
  trim_each count items = Ok kids ->
  length kids <= count
  /\ Forall2 (fun c c' => trim c = Ok c') (firstn count items) kids.
Proof.
  revert items kids. induction count as [|count IH]; intros items kids.
  - simpl. intros [= <-]. split; [simpl; lia|constructor].
  - destruct items as [|c items]; simpl.
    + intros [= <-]. split; [simpl; lia|constructor].
    + unfold bind. destruct (trim c) as [c'|e] eqn:Ec; [|discriminate].
      destruct (trim_each count items) as [r|e] eqn:Er; [|discriminate].
      intros [= <-]. destruct (IH items r Er) as [Hlen Hall].
      split; [simpl; lia|]. constructor; auto.
Qed.

Lemma trim_each_fixed (count : nat) (kids : list json) :
  length kids <= count -> Forall (fun c => trim c = Ok c) kids ->
  trim_each count kids = Ok kids.
Proof.
  revert kids. induction count as [|count IH]; intros [|c kids] Hlen Hall;
    simpl in *; try reflexivity; try lia.
  inversion Hall as [|? ? Hc Hk]; subst.
  rewrite Hc. simpl. rewrite IH; [reflexivity|lia|exact Hk].
Qed.

Lemma dict_get_elem (k : string) (members : list (string * json)) (v : json) :
  dict_get k members = Some v -> (k, v) ∈ members.
Proof.
  induction members as [|[k' v'] members IH]; simpl; [discriminate|].
  destruct (String.eqb_spec k' k) as [->|_].
  - intros [= ->]. left.
  - intros H. right. auto.
Qed.

Lemma dict_get_none (k : string) (members : list (string * json)) :
  dict_get k members = None <-> k ∉ map fst members.
Proof.
  induction members as [|[k' v'] members IH]; simpl.
  - split; [intros _ H; inversion H|reflexivity].
  - destruct (String.eqb_spec k' k) as [->|Hne].
    + split; [discriminate|]. intros H. exfalso. apply H. left.
    + rewrite IH. split.
      * intros H Hin. apply elem_of_cons in Hin as [->|Hin]; auto.
      * intros H Hin. apply H. now right.
Qed.

Lemma dict_get_app (k : string) (a b : list (string * json)) :
  dict_get k (a ++ b)
  = match dict_get k a with
    | Some v => Some v
    | None => dict_get k b
    end.
Proof.
  induction a as [|[k' v'] a IH]; simpl; [reflexivity|].
  destruct (String.eqb k' k); [reflexivity|exact IH].
Qed.

(** The entries kept are entries of some of the keys, in their order. *)
Lemma kept_among (ks : list string) (members : list (string * json)) :
  sublist
    (map fst
       (flat_map (fun k => match dict_get k members with
                           | Some v => [(k, v)]
                           | None => []
                           end) ks))
    ks.
Proof.
  induction ks as [|k ks IH]; simpl; [constructor|].
  destruct (dict_get k members); simpl.
  - now apply sublist_skip.
  - now apply sublist_cons.
Qed.

Lemma flat_map_ext_elem {A B} (f g : A -> list B) (l : list A) :
  (forall a, a ∈ l -> f a = g a) -> flat_map f l = flat_map g l.
Proof.
  induction l as [|a l IH]; intros H; simpl; [reflexivity|].
  rewrite H by left. rewrite IH; [reflexivity|].
  intros b Hb. apply H. now right.
Qed.

(** Entries under some of the keys, in their order, are all kept, and
    only they. *)
Lemma kept_again (ks : list string) (fields tail : list (string * json)) :
  NoDup ks -> sublist (map fst fields) ks ->
  (forall k, k ∈ ks -> k ∉ map fst tail) ->
  flat_map (fun k => match dict_get k (fields ++ tail) with
                     | Some v => [(k, v)]
                     | None => []
                     end) ks
  = fields.
Proof.
  intros Hnd Hsub Htail.
  remember (map fst fields) as names eqn:En.
  revert fields En.
  induction Hsub as [|x l1 l2 Hsub IH|x l1 l2 Hsub IH]; intros fields En.
  - now destruct fields.
  - destruct fields as [|[k v] fields]; [discriminate|].
    simpl in En. injection En as <- ->.
    apply NoDup_cons in Hnd as [Hx Hnd].
    cbn [flat_map app dict_get]. rewrite String.eqb_refl. cbn [app].
    f_equal.
    transitivity
      (flat_map (fun k => match dict_get k (fields ++ tail) with
                          | Some v => [(k, v)]
                          | None => []
                          end) l2).
    + apply flat_map_ext_elem.
      intros k Hk. cbn [dict_get].
      destruct (String.eqb_spec x k) as [->|_]; [|reflexivity].
      contradiction.
    + apply IH; auto. intros k Hk. apply Htail. now right.
  - apply NoDup_cons in Hnd as [Hx Hnd].
    cbn [flat_map].
    assert (E : dict_get x (fields ++ tail) = None).
    { apply dict_get_none. rewrite map_app. intros Hin.
      apply elem_of_app in Hin as [Hin|Hin].
      - apply Hx. rewrite <- En in Hin.
        eapply elem_of_sublist; eauto.
      - apply (Htail x); [left|exact Hin]. }
    rewrite E. cbn [app].
    apply IH; auto. intros k Hk. apply Htail. now right.
Qed.

Lemma keys_NoDup : NoDup keys.
Proof. apply NoDup_ListNoDup. repeat constructor; simpl; intuition discriminate. Qed.

Lemma children_not_key (fields : list (string * json)) :
  sublist (map fst fields) keys -> "children" ∉ map fst fields.
Proof.
  intros Hsub Hin. eapply elem_of_sublist in Hin; [|exact Hsub].
  apply list_elem_of_In in Hin. simpl in Hin. intuition discriminate.
Qed.

Lemma length_list_ascii (s : string) :
  length (list_ascii_of_string s) = String.length s.
Proof. induction s as [|c s IH]; simpl; [reflexivity|now rewrite IH]. Qed.

(** What [trim] returns is trimmed. *)
Lemma trim_trimmed (j r : json) : trim j = Ok r -> trimmed r.
Proof.
  revert r.
  enough (H : (forall r, trim j = Ok r -> trimmed r)
              /\ forall items, j = JList items ->
                   Forall (fun c => forall r, trim c = Ok r -> trimmed r)
                     items)
    by apply H.
  induction j as [|b|n|x|s|items IH|members IH] using json_ind'.
  1-5: split; [intros r [= <-]; now constructor|discriminate].
  - split; [intros r [= <-]; now constructor|].
    intros l [= <-]. eapply Forall_impl; [exact IH|]. now intros c [H _].
  - split; [|discriminate]. intros r. rewrite trim_obj.
    destruct (dict_get "children" members) as [v|] eqn:Ev.
    + unfold bind. destruct (trim_children v) as [kids|e] eqn:Ek; [|discriminate].
      intros [= <-]. apply trimmed_node; [apply kept_among| |].
      * destruct v; try discriminate Ek.
        -- injection Ek as <-. rewrite length_map, length_list_ascii.
           exact (take_str_length 4 s).
        -- now apply trim_each_spec in Ek.
      * apply dict_get_elem in Ev. rewrite Forall_forall in IH.
        specialize (IH _ Ev). simpl in IH. destruct IH as [_ IH].
        destruct v; try discriminate Ek.
        -- injection Ek as <-. apply Forall_map. apply Forall_forall.
           intros c _. now constructor.
        -- specialize (IH items eq_refl).
           apply trim_each_spec in Ek as [_ Hall].
           assert (Hfirst : Forall (fun c => forall r, trim c = Ok r -> trimmed r)
                              (firstn 4 items)).
           { apply Forall_forall. intros c Hc. rewrite Forall_forall in IH.
             apply IH. eapply subseteq_take; eauto. }
           clear IH. revert Hfirst.
           induction Hall as [|c c' l l' Hc _ IHall]; intros Hfirst;
             constructor.
           ++ inversion Hfirst; subst; auto.
           ++ apply IHall. now inversion Hfirst.
    + intros [= <-]. apply trimmed_leaf, kept_among.
Qed.

(** Trimmed data is trimmed to itself. *)
Lemma trimmed_fixed (r : json) : trimmed r -> trim r = Ok r.
Proof.
  enough (H : (trimmed r -> trim r = Ok r)
              /\ forall items, r = JList items ->
                   Forall (fun c => trimmed c -> trim c = Ok c) items)
    by apply H.
  induction r as [|b|n|x|s|items IH|members IH] using json_ind'.
  1-5: split; [reflexivity|discriminate].
  - split; [reflexivity|].
    intros l [= <-]. eapply Forall_impl; [exact IH|]. now intros c [H _].
  - split; [|discriminate]. intros Ht. rewrite trim_obj.
    inversion Ht as [? Hno|fields Hsub|fields kids Hsub Hlen Hkids]; subst.
    + now destruct (Hno members).
    + assert (E : dict_get "children" members = None)
        by now apply dict_get_none, children_not_key.
      rewrite E.
      pose proof (kept_again keys members [] keys_NoDup Hsub) as K.
      rewrite app_nil_r in K. unfold kept_entries. rewrite K; [reflexivity|].
      intros k _ Hin. inversion Hin.
    + assert (E : dict_get "children" (fields ++ [("children", JList kids)])
                  = Some (JList kids)).
      { rewrite dict_get_app.
        assert (E : dict_get "children" fields = None)
          by now apply dict_get_none, children_not_key.
        now rewrite E. }
      rewrite E. cbn [trim_children].
      rewrite trim_each_fixed; [| exact Hlen |].
      * simpl. unfold kept_entries. rewrite kept_again; auto using keys_NoDup.
        intros k Hk Hin. simpl in Hin. apply list_elem_of_In in Hk, Hin.
        simpl in Hk, Hin. intuition congruence.
      * rewrite Forall_forall in IH.
        assert (Hin : ("children", JList kids)
                      ∈ fields ++ [("children", JList kids)]).
        { apply elem_of_app. right. left. }
        destruct (IH _ Hin) as [_ IHk]. specialize (IHk kids eq_refl).
        rewrite Forall_forall in IHk, Hkids. apply Forall_forall.
        intros c Hc. apply IHk; auto.
Qed.

End SnapshotFacts.

(** X5. The snapshot kept for a candidate is always trimmed: a dictionary
    with entries under some of role, name, value and description, in that
    order, then at most four children, each of them trimmed in the same
    way (or, for a snapshot that is not a dictionary, that value as it
    is); it is the empty dictionary when the element or the snapshot is
    missing or anything raised.  The same holds of whatever the inner
    function returns. *)
Theorem snapshot_trimmed :
  (forall el snapshot,
     Snapshot.trimmed (Snapshot.get_accessibility_snapshot el snapshot))
  /\ (forall j r, Snapshot.trim j = Ok r -> Snapshot.trimmed r)
  /\ (forall e snapshot,
        Snapshot.get_accessibility_snapshot (Raise e) snapshot = JObj [])
  /\ (forall snapshot,
        Snapshot.get_accessibility_snapshot (Ok false) snapshot = JObj [])
  /\ (forall el e, Snapshot.get_accessibility_snapshot el (Raise e) = JObj [])
  /\ (forall el, Snapshot.get_accessibility_snapshot el (Ok JNull) = JObj []).
Proof.
  refine (conj _ (conj SnapshotFacts.trim_trimmed (conj _ (conj _ (conj _ _))))).
  - intros el snapshot. unfold Snapshot.get_accessibility_snapshot.
    assert (Hempty : Snapshot.trimmed (JObj [])).
    { apply Snapshot.trimmed_leaf. apply sublist_nil_l. }
    destruct el as [[|]|e]; try exact Hempty.
    destruct snapshot as [snap|e]; simpl; [|exact Hempty].
    destruct (Snapshot.trim snap) as [j|e] eqn:E; [|exact Hempty].
    destruct (json_truthy j); [|exact Hempty].
    now apply SnapshotFacts.trim_trimmed with snap.
  - reflexivity.
  - reflexivity.
  - intros [[|]|e] e'; reflexivity.
  - intros [[|]|e]; reflexivity.
Qed.

(** X6. Trimming what was trimmed changes nothing, for the inner function
    and for the snapshot kept. *)
Theorem snapshot_trim_idempotent :
  (forall j r, Snapshot.trim j = Ok r -> Snapshot.trim r = Ok r)
  /\ (forall el snapshot,
        Snapshot.get_accessibility_snapshot (Ok true)
          (Ok (Snapshot.get_accessibility_snapshot el snapshot))
        = Snapshot.get_accessibility_snapshot el snapshot).
Proof.
  split.
  - intros j r H. now apply SnapshotFacts.trimmed_fixed, SnapshotFacts.trim_trimmed with j.
  - intros el snapshot. unfold Snapshot.get_accessibility_snapshot at 1.
    simpl.
    unfold Snapshot.get_accessibility_snapshot.
    destruct el as [[|]|e]; try reflexivity.
    destruct snapshot as [snap|e]; simpl; [|reflexivity].
    destruct (Snapshot.trim snap) as [j|e] eqn:E; [|reflexivity].
    destruct (json_truthy j) eqn:Et; [|reflexivity].
    rewrite (SnapshotFacts.trimmed_fixed j)
      by now apply SnapshotFacts.trim_trimmed with snap.
    now rewrite Et.
Qed.

Lemma snapshot_trimmed_witness :
  Snapshot.trimmed
    (JObj [("role", JStr "img"); ("name", JStr "logo");
           ("children",
             JList [JObj [("role", JStr "text")]; JStr "a"; JNull;
                    JObj [("children",
                            JList [JStr "a"; JStr "b"; JStr "c"; JStr "d"])]])]).
Proof.
  apply (proj1 (proj2 snapshot_trimmed) sample_snapshot). reflexivity.
Defined.

Lemma snapshot_trim_idempotent_witness :
  Snapshot.trim
    (JObj [("role", JStr "img"); ("name", JStr "logo");
           ("children",
             JList [JObj [("role", JStr "text")]; JStr "a"; JNull;
                    JObj [("children",
                            JList [JStr "a"; JStr "b"; JStr "c"; JStr "d"])]])])
  = Ok (JObj [("role", JStr "img"); ("name", JStr "logo");
              ("children",
                JList [JObj [("role", JStr "text")]; JStr "a"; JNull;
                       JObj [("children",
                               JList [JStr "a"; JStr "b"; JStr "c";
                                      JStr "d"])]])]).
Proof.
  apply (proj1 snapshot_trim_idempotent sample_snapshot). reflexivity.
Defined.

(* ================================================================== *)
(** ** rag_reviewer: criteria, documents and verdicts *)

Lemma sc_at_digits (s : string) (g : groups) :
  sc_at s = Some g ->
  let '(a, b, c) := g in
  is_digit a = true /\ is_digit b = true /\ is_digit c = true.
Proof.
  destruct s as [|d1 [|p1 [|d2 [|p2 [|d3 rest]]]]]; try discriminate.
  cbn [sc_at].
  destruct (_ && _) eqn:E; [|discriminate].
  intros [= <-]. split_andb. auto.
Qed.

Lemma wcag_at_digits (ci : bool) (s : string) (g : groups) :
  wcag_at ci s = Some g ->
  let '(a, b, c) := g in
  is_digit a = true /\ is_digit b = true /\ is_digit c = true.
Proof.
  destruct s as [|w [|c0 [|a0 [|g0 [|d1 [|d2 [|d3 rest]]]]]]];
    try discriminate.
  cbn [wcag_at].
  destruct (_ && _) eqn:E; [|discriminate].
  intros [= <-]. split_andb. auto.
Qed.

Lemma re_search_attempt (attempt : string -> option groups) (s : string)
    (g : groups) :
  re_search attempt s = Some g -> exists t, attempt t = Some g.
Proof.
  induction s as [|c s IH]; simpl.
  - destruct (attempt "") eqn:E; [|discriminate]. intros [= <-]. eauto.
  - destruct (attempt (String c s)) eqn:E; [intros [= <-]; eauto|]. exact IH.
Qed.

Lemma criterion_groups (g : groups) :
  (let '(a, b, c) := g in
   is_digit a = true /\ is_digit b = true /\ is_digit c = true) ->
  criterion (dotted g).
Proof. destruct g as [[a b] c]. intros H. exists a, b, c. tauto. Qed.

Lemma norm_sc_range (t : string) :
  _norm_sc_from_topic t = "" \/ criterion (_norm_sc_from_topic t).
Proof.
  unfold _norm_sc_from_topic. cbv zeta.
  destruct (_SC_REGEX_search (strip t)) as [g|] eqn:E1.
  { right. apply re_search_attempt in E1 as [u Hu].
    apply criterion_groups. now apply sc_at_digits with u. }
  destruct (_WCAG_TAG_REGEX_search (strip t)) as [g|] eqn:E2.
  { right. apply re_search_attempt in E2 as [u Hu].
    apply criterion_groups. now apply wcag_at_digits with true u. }
  destruct (_SC_REGEX_search (strip (str_replace _ _ _))) as [g|] eqn:E3;
    [|now left].
  right. apply re_search_attempt in E3 as [u Hu].
  apply criterion_groups. now apply sc_at_digits with u.
Qed.

Lemma stored_fold_range (tags acc : list string) :
  Forall criterion acc ->
  Forall criterion (fold_left stored_sc_step tags acc).
Proof.
  revert acc. induction tags as [|t tags IH]; intros acc Hacc; simpl;
    [exact Hacc|].
  apply IH. unfold stored_sc_step.
  destruct (_WCAG_TAG_REGEX_match t) as [g|] eqn:E; [|exact Hacc].
  apply Forall_app. split; [exact Hacc|]. constructor; [|constructor].
  apply criterion_groups. now apply wcag_at_digits with true t.
Qed.

Lemma not_criterion_empty : ~ criterion "".
Proof. intros (a & b & c & _ & _ & _ & H). discriminate. Qed.

Lemma scs_from_candidate_range (c : Candidate) :
  Forall criterion (snd (_scs_from_candidate c))
  /\ (fst (_scs_from_candidate c) = ""
      \/ criterion (fst (_scs_from_candidate c)))
  /\ (snd (_scs_from_candidate c) <> [] ->
      head (snd (_scs_from_candidate c)) = Some (fst (_scs_from_candidate c)))
  /\ (snd (_scs_from_candidate c) = [] ->
      fst (_scs_from_candidate c) = _norm_sc_from_topic (topic c)).
Proof.
  unfold _scs_from_candidate. simpl.
  pose proof (stored_fold_range (sc_list c) [] ltac:(constructor)) as H.
  destruct (fold_left stored_sc_step (sc_list c) []) as [|sc scs].
  - refine (conj H (conj (norm_sc_range _) (conj _ _))); tauto.
  - refine (conj H (conj _ (conj _ _))).
    + right. now inversion H.
    + reflexivity.
    + discriminate.
Qed.

(** X7. The primary criterion of a candidate is empty or a dotted
    criterion (three digits separated by dots), and so is what the topic
    alone gives, which read again as a topic gives itself; the list of
    the candidate's criteria holds dotted criteria only; the
    primary one is the first of the list, or comes from the topic when
    the list is empty.  Hence the SC of every verdict record is empty or
    dotted, and never empty when best-practice candidates are skipped. *)
Theorem record_criterion :
  (forall t, _norm_sc_from_topic t = "" \/ criterion (_norm_sc_from_topic t))
  /\ (forall t,
        _norm_sc_from_topic (_norm_sc_from_topic t) = _norm_sc_from_topic t)
  /\ (forall c,
        Forall criterion (snd (_scs_from_candidate c))
        /\ (fst (_scs_from_candidate c) = ""
            \/ criterion (fst (_scs_from_candidate c)))
        /\ (snd (_scs_from_candidate c) <> [] ->
            head (snd (_scs_from_candidate c))
            = Some (fst (_scs_from_candidate c)))
        /\ (snd (_scs_from_candidate c) = [] ->
            fst (_scs_from_candidate c) = _norm_sc_from_topic (topic c)))
  /\ (forall w out_dir skip i c pw r,
        review_candidate w out_dir skip i c = Ok (Reviewed pw r) ->
        (vr_SC r = "" \/ criterion (vr_SC r))
        /\ Forall criterion (vr_sc_list r)
        /\ (skip = true -> criterion (vr_SC r))).
Proof.
  refine (conj norm_sc_range (conj _ (conj scs_from_candidate_range _))).
  { intros t. destruct (norm_sc_range t) as [->|(a & b & c & Ha & Hb & Hc & ->)];
      [reflexivity|].
    now apply norm_sc_forms. }
  intros w out_dir skip i c pw r.
  destruct (scs_from_candidate_range c) as (Hall & Hp & _).
  unfold review_candidate.
  destruct (_scs_from_candidate c) as [sc scs]. simpl in Hall, Hp.
  destruct (String.eqb_spec sc "") as [->|Hne]; simpl.
  - destruct skip; simpl; [discriminate|]. unfold bind.
    destruct (template_text w) as [tpl|e]; [|discriminate].
    destruct (build_prompt _ _ _ _ _) as [prompt|e]; [|discriminate].
    intros [= <- <-]. simpl. refine (conj Hp (conj Hall _)). discriminate.
  - rewrite andb_false_r. unfold bind.
    destruct (template_text w) as [tpl|e]; [|discriminate].
    destruct (build_prompt _ _ _ _ _) as [prompt|e]; [|discriminate].
    intros [= <- <-]. simpl. refine (conj Hp (conj Hall _)).
    intros _. destruct Hp; [contradiction|assumption].
Qed.

Lemma record_criterion_witness :
  exists pw r,
    review_candidate (sample_world None (Some "1") sample_template [])
      "out" true 0 sample_candidate = Ok (Reviewed pw r)
    /\ criterion (vr_SC r).
Proof.
  assert (K : is_reviewed
                (review_candidate
                   (sample_world None (Some "1") sample_template [])
                   "out" true 0 sample_candidate) = true).
  { vm_compute. reflexivity. }
  destruct (review_candidate _ _ _ _ _) as [[|pw r]|e] eqn:E;
    try discriminate K.
  exists pw, r. split; [reflexivity|].
  exact (proj2 (proj2
           (proj2 (proj2 (proj2 record_criterion)) _ _ _ _ _ _ _ E)) eq_refl).
Defined.

(** *** The technique document of a criterion *)

Lemma retrieve_for_sc_cons (sc : string) (t : TechniqueDoc)
    (rest : list TechniqueDoc) :
  retrieve_for_sc sc (t :: rest)
  = if doc_matches sc t then Some t else retrieve_for_sc sc rest.
Proof. reflexivity. Qed.

(** X8. The document retrieved for a criterion is the first of the
    library that matches it: one of its tags, in lower case, is the
    criterion or the criterion after sc-, or its topic in lower case
    holds the criterion.  Nothing is retrieved exactly when no document
    matches.  The match on the topic is by inclusion, so the first
    document whose topic holds the text of the criterion anywhere is
    taken, and for the empty criterion it is the first document of the
    library; the pass does not ask for the document of an empty
    criterion. *)
Theorem retrieve_first_match :
  (forall sc techniques t,
     retrieve_for_sc sc techniques = Some t ->
     exists before after,
       techniques = before ++ t :: after
       /\ doc_matches sc t = true
       /\ Forall (fun d => doc_matches sc d = false) before)
  /\ (forall sc techniques,
        retrieve_for_sc sc techniques = None
        <-> Forall (fun d => doc_matches sc d = false) techniques)
  /\ (forall sc t rest,
        contains (lower sc) (lower (or_empty (td_topic t))) = true ->
        retrieve_for_sc sc (t :: rest) = Some t)
  /\ (forall t rest, retrieve_for_sc "" (t :: rest) = Some t)
  /\ (forall techniques, tech_doc_for techniques "" = None).
Proof.
  refine (conj _ (conj _ (conj _ (conj _ (fun _ => eq_refl))))).
  - intros sc techniques t.
    induction techniques as [|d techniques IH]; [discriminate|].
    rewrite retrieve_for_sc_cons.
    destruct (doc_matches sc d) eqn:E.
    + intros [= <-]. exists [], techniques. auto.
    + intros H. destruct (IH H) as (before & after & -> & Hm & Hb).
      exists (d :: before), after. auto.
  - intros sc techniques.
    induction techniques as [|d techniques IH]; [split; auto|].
    rewrite retrieve_for_sc_cons.
    destruct (doc_matches sc d) eqn:E.
    + split; [discriminate|]. intros H. inversion H; congruence.
    + rewrite IH. split; [now constructor|]. intros H. now inversion H.
  - intros sc t rest H. rewrite retrieve_for_sc_cons.
    unfold doc_matches. rewrite H. now rewrite orb_true_r.
  - intros t rest. rewrite retrieve_for_sc_cons.
    unfold doc_matches.
    replace (contains (lower "") _) with true; [now rewrite orb_true_r|].
    simpl. now destruct (lower _).
Qed.

Lemma retrieve_first_match_witness :
  retrieve_for_sc "1.4.1"
    [sample_doc ["sc-1.1.1"] "Non-text content";
     sample_doc [] "SC 1.4.11 Non-text contrast";
     sample_doc ["sc-1.4.1"] "Use of colour"]
  = Some (sample_doc [] "SC 1.4.11 Non-text contrast")
  /\ exists before after,
       [sample_doc ["sc-1.1.1"] "Non-text content";
        sample_doc [] "SC 1.4.11 Non-text contrast";
        sample_doc ["sc-1.4.1"] "Use of colour"]
       = before ++ sample_doc [] "SC 1.4.11 Non-text contrast" :: after
       /\ doc_matches "1.4.1" (sample_doc [] "SC 1.4.11 Non-text contrast")
          = true
       /\ Forall (fun d => doc_matches "1.4.1" d = false) before.
Proof.
  split; [reflexivity|].
  apply (proj1 retrieve_first_match). reflexivity.
Defined.

(** *** The verdict and its keys *)



(* ================================================================== *)
(** ** rag_reviewer: templates that compile *)

Section CompilingPlain.

Variables (rt : Runtime) (sc : string) (doc : option TechniqueDoc)
  (c : Candidate).

Local Abbreviation kw := (fmt_vars sc doc c).
Local Abbreviation expand := (format_level rt kw max_recursion).

Lemma drop_str_all (s : string) : drop_str (String.length s) s = "".
Proof. induction s as [|x s IH]; [reflexivity|exact IH]. Qed.

Lemma render_plain_text (t : token) :
  plain_token fmt_keys t ->
  render_token rt kw expand t = Ok (field_text kw t).
Proof.
  destruct t as [text|name conv spec nested];
    cbn [render_token field_text plain_token]; [reflexivity|].
  intros (Hin & -> & -> & ->).
  pose proof fmt_keys_arguments as Hk. rewrite Forall_forall in Hk.
  destruct (Hk name Hin) as [Ha Hf].
  unfold lookup_field, bind. rewrite Ha.
  destruct (lookup_kw name kw) as [v|] eqn:El.
  - rewrite Hf, drop_str_all. reflexivity.
  - apply lookup_kw_none in El. now rewrite fmt_vars_keys in El.
Qed.

Lemma render_tokens_plain (ts : list token) :
  Forall (plain_token fmt_keys) ts ->
  render_tokens (render_token rt kw expand) ts None
  = Ok (str_concat (map (field_text kw) ts)).
Proof.
  induction 1 as [|t ts Ht _ IH]; [reflexivity|].
  simpl. rewrite (render_plain_text t Ht). simpl. now rewrite IH.
Qed.

Lemma build_prompt_plain (tpl : string) :
  snd (tokenize tpl) = None ->
  Forall (plain_token fmt_keys) (fst (tokenize tpl)) ->
  build_prompt rt tpl sc doc c
  = Ok (str_concat (map (field_text kw) (fst (tokenize tpl)))
        +:+ diagnostics c).
Proof.
  intros He Hp. unfold build_prompt, py_format. unfold format_level at 1.
  cbv zeta. rewrite He. now rewrite (render_tokens_plain _ Hp).
Qed.

End CompilingPlain.

Lemma tokens_doubled (s : string) :
  tokens_from MLit (double_braces s)
  = (map (fun x => TLit (str1 x)) (list_ascii_of_string s), None).
Proof.
  induction s as [|x s IH]; [reflexivity|].
  cbn [double_braces].
  destruct (is_open x) eqn:Eo; [|destruct (is_close x) eqn:Ec]; cbn [orb].
  - assert (Ec : is_close x = false).
    { apply Ascii.eqb_eq in Eo. now subst x. }
    cbn [tokens_from]. rewrite Ec, Eo. cbn [next_is]. rewrite Eo.
    cbn [tokens_from]. rewrite IH. reflexivity.
  - cbn [tokens_from]. rewrite Ec. cbn [next_is]. rewrite Ec.
    cbn [tokens_from]. rewrite IH. reflexivity.
  - cbn [tokens_from]. rewrite Ec, Eo. rewrite IH. reflexivity.
Qed.

Lemma str_concat_chars (s : string) :
  str_concat (map str1 (list_ascii_of_string s)) = s.
Proof. induction s as [|x s IH]; [reflexivity|]. simpl. now rewrite IH. Qed.

Lemma literal_tokens_plain (keys : list string) (l : list ascii) :
  Forall (plain_token keys) (map (fun x => TLit (str1 x)) l).
Proof. apply Forall_map. apply Forall_forall. intros x _. exact I. Qed.

(** X10. A template in which every brace is doubled or belongs to a field
    that is one of the eleven names, bare, always compiles: the prompt is
    the text of the template with each doubled brace written once and
    each field replaced by its value ([None] written out as such),
    followed by the diagnostics; the interpreter's formatting rules play
    no part. *)
Theorem plain_template_compiles (rt : Runtime) (sc : string)
    (doc : option TechniqueDoc) (c : Candidate) (tpl : string) :
  snd (tokenize tpl) = None ->
  Forall (plain_token fmt_keys) (fst (tokenize tpl)) ->
  build_prompt rt tpl sc doc c
  = Ok (str_concat (map (field_text (fmt_vars sc doc c)) (fst (tokenize tpl)))
        +:+ diagnostics c).
Proof. apply build_prompt_plain. Qed.

Lemma plain_template_compiles_witness :
  build_prompt plain_runtime sample_template "1.1.1" None sample_candidate
  = Ok ("Review SC 1.1.1 for img#logo (image-alt). Answer as {json}."
        +:+ diagnostics sample_candidate).
Proof.
  rewrite (plain_template_compiles plain_runtime "1.1.1" None sample_candidate
             sample_template).
  - reflexivity.
  - reflexivity.
  - vm_compute fst. plain_tokens.
Defined.

(** X11. Doubling every brace of a text makes it a template that compiles
    to that text, whatever the candidate: the prompt is the text followed
    by the diagnostics. *)
Theorem doubled_braces_verbatim (rt : Runtime) (s : string) :
  (forall kw, py_format rt (double_braces s) kw = Ok s)
  /\ (forall sc doc c,
        build_prompt rt (double_braces s) sc doc c = Ok (s +:+ diagnostics c)).
Proof.
  assert (Hf : forall kw, py_format rt (double_braces s) kw = Ok s).
  { intros kw. unfold py_format. unfold format_level at 1. unfold tokenize.
    cbv zeta. rewrite tokens_doubled. cbn [fst snd].
    generalize (list_ascii_of_string s) (str_concat_chars s).
    intros l <-. induction l as [|x l IH]; [reflexivity|].
    simpl. now rewrite IH. }
  split; [exact Hf|].
  intros sc doc c. unfold build_prompt. now rewrite Hf.
Qed.

(* ================================================================== *)
(** ** rag_reviewer: the records and the files of a pass *)

Lemma filter_length_le {A} (p : A -> bool) (l : list A) :
  length (List.filter p l) <= length l.
Proof.
  induction l as [|x l IH]; simpl; [lia|]. destruct (p x); simpl; lia.
Qed.

(** X12. A pass that returns has written one record for each candidate
    it keeps, in the order of the candidates: all of them, or with the
    skip flag those that have a criterion.  Each record repeats the page,
    topic, criteria, selector, rule, impact, screenshot and help link of
    its candidate, and the count returned is the number of records. *)
Theorem review_records (w : World) (out_dir : string) (n : nat) :
  snd (review w out_dir) = Ok n ->
  exists cands records,
    candidates_json w = Some cands
    /\ last (fst (review w out_dir))
       = Some (Write (verdicts_file out_dir) (verdicts_text records))
    /\ Forall2 record_of (List.filter (kept (skip_flag w)) cands) records
    /\ n = length records
    /\ n <= length cands
    /\ (skip_flag w = false -> n = length cands).
Proof.
  destruct (review_shape w out_dir)
    as [(_ & e & He)|(cands & turns & Hc & Ht & _ & E)]; [congruence|].
  rewrite E. simpl. intros [= <-].
  pose proof (review_turns_records _ _ _ _ _ _ Ht) as Hrec.
  exists cands, (omap turn_record turns).
  refine (conj Hc (conj _ (conj Hrec (conj eq_refl _)))).
  - apply last_snoc.
  - apply Forall2_length in Hrec. rewrite <- Hrec. split.
    + apply filter_length_le.
    + intros ->. clear. induction cands as [|c cands IH]; simpl; auto.
Qed.

Lemma review_records_witness :
  exists cands records,
    candidates_json
      (sample_world None (Some "1") sample_template
         [best_practice_candidate; sample_candidate]) = Some cands
    /\ Forall2 record_of
         (List.filter (kept true) cands) records
    /\ length records = 1.
Proof.
  pose (w := sample_world None (Some "1") sample_template
               [best_practice_candidate; sample_candidate]).
  assert (E : snd (review w "out") = Ok 1) by (vm_compute; reflexivity).
  destruct (review_records w "out" 1 E)
    as (cands & records & Hc & _ & Hr & Hn & _).
  exists cands, records. auto.
Defined.

(** *** Prompt files *)

Lemma string_of_uint_digits (d : Decimal.uint) :
  Forall (fun x => is_digit x = true)
    (list_ascii_of_string (NilEmpty.string_of_uint d)).
Proof. induction d; simpl; try constructor; auto. Qed.

Lemma index_text (i : nat) :
  exists d,
    str_of_Z (Z.of_nat i) = NilEmpty.string_of_uint d
    /\ Z.of_uint d = Z.of_nat i.
Proof.
  unfold str_of_Z. pose proof (DecimalZ.of_to (Z.of_nat i)) as H.
  destruct (Z.of_nat i) as [|p|p] eqn:E; [| |lia].
  - exists (Decimal.D0 Decimal.Nil). split; reflexivity.
  - exists (Pos.to_uint p). split; [|exact H].
    simpl. unfold NilZero.string_of_uint.
    pose proof (DecimalPos.Unsigned.to_uint_nonnil p) as Hn.
    now destruct (Pos.to_uint p).
Qed.

(** The index of a prompt file, padded: its digits, and its value. *)
Lemma pad3_text (i : nat) :
  exists d,
    pad3 i = NilEmpty.string_of_uint d /\ Z.of_uint d = Z.of_nat i.
Proof.
  destruct (index_text i) as (d & Hs & Hv). unfold pad3. rewrite Hs.
  destruct (String.length (NilEmpty.string_of_uint d)) as [|[|[|k]]].
  - now exists d.
  - exists (Decimal.D0 (Decimal.D0 d)). split; [reflexivity|exact Hv].
  - exists (Decimal.D0 d). split; [reflexivity|exact Hv].
  - now exists d.
Qed.

Lemma digits_before_underscore (a b x y : string) :
  Forall (fun c => is_digit c = true) (list_ascii_of_string a) ->
  Forall (fun c => is_digit c = true) (list_ascii_of_string b) ->
  a +:+ "_" +:+ x = b +:+ "_" +:+ y -> a = b.
Proof.
  revert b. induction a as [|c a IH]; intros [|c' b] Ha Hb.
  - reflexivity.
  - rewrite append_nil, append_cons. intros [= <- _].
    inversion Hb as [|? ? Hc _]; subst. discriminate.
  - rewrite append_nil, append_cons. intros [= -> _].
    inversion Ha as [|? ? Hc _]; subst. discriminate.
  - rewrite !append_cons. intros [= <- H].
    inversion Ha; inversion Hb; subst. f_equal. now apply IH.
Qed.

Lemma prompt_file_index (out_dir : string) (i j : nat) (sc sc' : string)
    (c c' : Candidate) :
  prompt_file out_dir i sc c = prompt_file out_dir j sc' c' -> i = j.
Proof.
  unfold prompt_file. intros H.
  apply append_inj_l in H. apply append_inj_l in H.
  destruct (pad3_text i) as (d & Hd & Hv), (pad3_text j) as (d' & Hd' & Hv').
  apply digits_before_underscore in H.
  - rewrite Hd, Hd' in H.
    assert (E : Some d = Some d').
    { rewrite <- (NilEmpty.usu d), <- (NilEmpty.usu d'). now rewrite H. }
    injection E as <-. lia.
  - rewrite Hd. apply string_of_uint_digits.
  - rewrite Hd'. apply string_of_uint_digits.
Qed.

(** The prompt files of the loop from index [i] on: each under an index
    of its own, at least [i]. *)
Lemma review_loop_paths (w : World) (out_dir : string) (skip : bool)
    (cands : list Candidate) (i : nat) (acc : list VerdictRecord) :
  NoDup (map write_path (fst (review_loop w out_dir skip i cands acc)))
  /\ Forall (fun p => exists j sc c, i <= j /\ p = prompt_file out_dir j sc c)
       (map write_path (fst (review_loop w out_dir skip i cands acc))).
Proof.
  revert i acc. induction cands as [|c cands IH]; intros i acc; simpl.
  - split; constructor.
  - destruct (review_candidate w out_dir skip i c) as [[|pw r]|e] eqn:E.
    + destruct (IH (S i) acc) as [Hnd Hall]. split; [exact Hnd|].
      eapply Forall_impl; [exact Hall|].
      intros p (j & sc & c' & Hj & ->). exists j, sc, c'. split; [lia|auto].
    + destruct (IH (S i) (acc ++ [r])) as [Hnd Hall].
      destruct (review_loop w out_dir skip (S i) cands (acc ++ [r]))
        as [ws o].
      simpl in *.
      apply review_candidate_kept in E as (_ & _ & Hp).
      split.
      * constructor; [|exact Hnd]. intros Hin.
        rewrite Forall_forall in Hall.
        destruct (Hall _ Hin) as (j & sc & c' & Hj & Hpj).
        rewrite Hp in Hpj. apply prompt_file_index in Hpj. lia.
      * constructor; [now exists i, (fst (_scs_from_candidate c)), c|].
        eapply Forall_impl; [exact Hall|].
        intros p (j & sc & c' & Hj & ->). exists j, sc, c'.
        split; [lia|auto].
    + split; constructor.
Qed.

(** X13. No file is written twice in a pass: the prompt files of two
    candidates differ, their names beginning with the indices of the
    candidates, and none of them is the verdicts artifact. *)
Theorem prompt_files_distinct :
  (forall out_dir i j sc sc' c c',
     prompt_file out_dir i sc c = prompt_file out_dir j sc' c' -> i = j)
  /\ (forall w out_dir, NoDup (map write_path (fst (review w out_dir)))).
Proof.
  split; [apply prompt_file_index|].
  intros w out_dir. unfold review.
  destruct (candidates_json w) as [cands|]; [|constructor].
  pose proof (review_loop_paths w out_dir (skip_flag w) cands 0 []) as [Hnd _].
  pose proof (review_loop_spares w out_dir (skip_flag w) cands 0 []) as Hsp.
  destruct (review_loop w out_dir (skip_flag w) 0 cands []) as [ws [rs|e]];
    simpl in *; [|exact Hnd].
  rewrite map_app. apply NoDup_app. split; [exact Hnd|]. split.
  - intros p Hp Hin. simpl in Hin. apply list_elem_of_In in Hin.
    simpl in Hin. destruct Hin as [<-|[]].
    apply list_elem_of_In, in_map_iff in Hp as (x & Hx & Hin).
    rewrite Forall_forall in Hsp. apply list_elem_of_In in Hin.
    now apply (Hsp x Hin).
  - apply NoDup_singleton.
Qed.

Lemma prompt_files_distinct_witness :
  prompt_file "out" 7 "1.1.1" sample_candidate
  <> prompt_file "out" 12 "1.1.1" sample_candidate.
Proof.
  intros H. apply (proj1 prompt_files_distinct) in H. discriminate.
Defined.

(* ================================================================== *)
(** ** report_builders: criteria and screenshots *)

Lemma topic_to_sc_forms (a b c : ascii) :
  is_digit a = true -> is_digit b = true -> is_digit c = true ->
  _topic_to_sc (Some ("SC-" +:+ dotted (a, b, c))) = dotted (a, b, c).
Proof.
  intros Ha Hb Hc.
  pose proof (for_digits
    (fun a b c =>
       String.eqb (_topic_to_sc (Some ("SC-" +:+ dotted (a, b, c))))
         (dotted (a, b, c)))
    ltac:(vm_compute; reflexivity) a b c Ha Hb Hc) as H.
  now apply String.eqb_eq in H.
Qed.

Lemma topic_of_criteria (scs : list string) :
  Forall criterion scs ->
  _topic_to_sc (Some (topic_of scs)) = or_empty (_primary_sc scs)
  /\ _norm_sc_from_topic (topic_of scs) = or_empty (_primary_sc scs).
Proof.
  destruct scs as [|sc scs]; [split; reflexivity|].
  intros H. inversion H as [|? ? (a & b & c & Ha & Hb & Hc & ->) _]; subst.
  unfold topic_of. simpl _primary_sc. cbn [or_empty]. split.
  - now apply topic_to_sc_forms.
  - now apply norm_sc_forms.
Qed.

Lemma extract_scs_criteria (tags : option (list string)) :
  Forall criterion (_extract_scs tags).
Proof. exact (extract_scs_dotted tags). Qed.

(** X14. The Excel report maps tags to criteria as the scan does, and the
    criterion it reads from a topic is empty or dotted.  On the topic of
    a rule it is the rule's first criterion, empty for a rule without
    one; so for every candidate of a scan the criterion the report reads
    from the topic is the primary criterion the reviewer records. *)
Theorem report_criterion_agrees :
  (forall tags, _sc_from_tags tags = _extract_scs tags)
  /\ (forall t, _topic_to_sc t = "" \/ criterion (_topic_to_sc t))
  /\ (forall tags,
        _topic_to_sc (Some (topic_of (_extract_scs tags)))
        = or_empty (_primary_sc (_extract_scs tags)))
  /\ (forall url out_dir page payload cands c,
        run_axe_on_url url out_dir page payload = Ok cands -> c ∈ cands ->
        _topic_to_sc (Some (topic c)) = fst (_scs_from_candidate c)).
Proof.
  refine (conj _ (conj _ (conj _ _))).
  - reflexivity.
  - intros t. unfold _topic_to_sc. destruct (truthy t); [|now left].
    destruct (re_search sc_at (or_empty t)) as [g|] eqn:E; [|now left].
    right. apply re_search_attempt in E as [u Hu].
    apply criterion_groups. now apply sc_at_digits with u.
  - intros tags. apply topic_of_criteria, extract_scs_criteria.
  - intros url out_dir page payload cands c Hrun Hc.
    destruct (candidates_from_rules url out_dir page payload cands c Hrun Hc)
      as (bk & Hfrom).
    apply from_rules_fields in Hfrom as (_ & r & _ & _ & Hl & Ht).
    rewrite scs_from_candidate_topic.
    + simpl. rewrite Ht.
      destruct (topic_of_criteria _ (extract_scs_criteria (r_tags r)))
        as [-> ->].
      reflexivity.
    + rewrite Hl. eapply Forall_impl; [apply extract_scs_dotted|].
      intros s (a & b & d & _ & _ & _ & ->). apply dotted_not_tag.
Qed.

Lemma report_criterion_agrees_witness :
  let cands :=
    match run_axe_on_url "https://example.org" "out" sample_page sample_scan
    with Ok l => l | Raise _ => [] end in
  Forall (fun c => _topic_to_sc (Some (topic c)) = fst (_scs_from_candidate c))
    cands.
Proof.
  intros cands. apply Forall_forall. intros c Hc.
  refine (proj2 (proj2 (proj2 report_criterion_agrees))
            "https://example.org" "out" sample_page sample_scan cands c _ Hc).
  vm_compute. reflexivity.
Defined.

(** *** The screenshot of a finding *)

Lemma cand_lookup_app (cands : list Candidate) (c : Candidate) :
  cand_lookup (cands ++ [c]) = cand_lookup_step (cand_lookup cands) c.
Proof. unfold cand_lookup. now rewrite fold_left_app. Qed.

(** An entry of the map comes from a candidate with a selector, a rule id
    and a screenshot. *)
Lemma cand_lookup_from (cands : list Candidate) (sel rid shot : string) :
  cand_lookup cands !! (sel, rid) = Some shot ->
  exists c, c ∈ cands /\ selector c = sel /\ axe_rule_id c = Some rid
            /\ screenshot c = Some shot /\ sel <> "" /\ rid <> ""
            /\ shot <> "".
Proof.
  induction cands as [|c cands IH] using rev_ind.
  - unfold cand_lookup. simpl. now rewrite lookup_empty.
  - rewrite cand_lookup_app. unfold cand_lookup_step.
    destruct (negb (String.eqb (selector c) "")
              && negb (String.eqb (or_empty (axe_rule_id c)) "")
              && truthy (screenshot c)) eqn:E.
    + destruct (decide ((selector c, or_empty (axe_rule_id c)) = (sel, rid)))
        as [Ek|Hne].
      * rewrite Ek, lookup_insert_eq. intros [= <-].
        injection Ek as Es Er. split_andb.
        exists c. split; [apply elem_of_app; right; left|].
        destruct (axe_rule_id c) as [x|]; simpl in *;
          [|subst rid; discriminate].
        destruct (screenshot c) as [s|]; simpl in *; [|discriminate].
        subst x.
        repeat match goal with
               | H : negb (String.eqb _ _) = true |- _ =>
                   apply negb_true_iff, String.eqb_neq in H
               end.
        repeat split; auto. now rewrite <- Es.
      * rewrite lookup_insert_ne by exact Hne. intros H.
        destruct (IH H) as (c' & Hin & Hrest). exists c'.
        split; [apply elem_of_app; now left|exact Hrest].
    + intros H. destruct (IH H) as (c' & Hin & Hrest). exists c'.
      split; [apply elem_of_app; now left|exact Hrest].
Qed.

(** X15. In the Word report the screenshot of a finding is that of its
    record, else that of the candidate with the same selector and rule,
    else none.  An entry of the fallback map always comes from a
    candidate with a selector, a rule id and a screenshot; since the
    candidates of a scan have distinct (rule, selector) pairs and a
    record repeats the screenshot of its candidate, for the records of a
    scan's candidates the fallback never finds anything: the screenshot
    shown is the candidate's own, or none. *)
Theorem finding_screenshot :
  (forall cands sel rid shot,
     cand_lookup cands !! (sel, rid) = Some shot ->
     exists c, c ∈ cands /\ selector c = sel /\ axe_rule_id c = Some rid
               /\ screenshot c = Some shot /\ sel <> "" /\ rid <> ""
               /\ shot <> "")
  /\ (forall url out_dir page payload cands c r,
        run_axe_on_url url out_dir page payload = Ok cands ->
        c ∈ cands -> record_of c r ->
        shot_val cands r = or_empty (screenshot c)).
Proof.
  split; [apply cand_lookup_from|].
  intros url out_dir page payload cands c r Hrun Hc Hr.
  destruct (run_axe_on_url_parts url out_dir page payload cands Hrun)
    as (_ & _ & _ & Hnd).
  destruct Hr as (_ & _ & _ & _ & Hsel & Hrid & _ & Hshot & _).
  unfold shot_val. rewrite Hshot, Hsel, Hrid.
  destruct (truthy (screenshot c)) eqn:Et; [reflexivity|].
  destruct (cand_lookup cands !! (selector c, or_empty (axe_rule_id c)))
    as [shot|] eqn:El.
  - exfalso.
    apply cand_lookup_from in El
      as (c' & Hc' & Hs' & Hr' & Hsh' & _ & Hrne & Hne).
    assert (Hk : candidate_key c' = candidate_key c).
    { unfold candidate_key. rewrite Hs', Hr'.
      destruct (axe_rule_id c) as [x|]; simpl in *; [|contradiction].
      reflexivity. }
    pose proof (NoDup_map_eq candidate_key cands c' c Hnd Hc' Hc Hk) as <-.
    rewrite Hsh' in Et. simpl in Et.
    apply negb_false_iff, String.eqb_eq in Et. contradiction.
  - simpl. destruct (screenshot c) as [s|]; [|reflexivity].
    simpl in Et. apply negb_false_iff, String.eqb_eq in Et. now subst s.
Qed.

Lemma finding_screenshot_witness :
  let cands :=
    match run_axe_on_url "https://example.org" "out" sample_page sample_scan
    with Ok l => l | Raise _ => [] end in
  Forall (fun c =>
            forall r, record_of c r ->
                      shot_val cands r = or_empty (screenshot c))
    cands.
Proof.
  intros cands. apply Forall_forall. intros c Hc r Hr.
  refine (proj2 finding_screenshot
            "https://example.org" "out" sample_page sample_scan cands c r
            _ Hc Hr).
  vm_compute. reflexivity.
Defined.

(* ================================================================== *)
(** ** streamlit_app: secrets and the environment *)

Lemma strip_nonempty (s : string) : strip s <> "" -> s <> "".
Proof. intros H ->. now apply H. Qed.

Lemma set_if_missing_other (env : environ) (name other : string)
    (value : option secret) (default : option string) :
  other <> name ->
  set_if_missing env name value default !! other = env !! other.
Proof.
  intros Hne. unfold set_if_missing, or_default, environ in *.
  destruct (truthy (env !! name)); [reflexivity|].
  destruct value as [v|].
  - destruct (negb _); [now rewrite lookup_insert_ne|].
    destruct default; [now rewrite lookup_insert_ne|reflexivity].
  - destruct default; [now rewrite lookup_insert_ne|reflexivity].
Qed.

Lemma set_if_missing_kept (env : environ) (name : string)
    (value : option secret) (default : option string) :
  truthy (env !! name) = true ->
  set_if_missing env name value default = env.
Proof. unfold set_if_missing. now intros ->. Qed.

Lemma set_if_missing_set (env : environ) (name : string)
    (value : option secret) (d : string) :
  d <> "" -> truthy (set_if_missing env name value (Some d) !! name) = true.
Proof.
  intros Hd. unfold set_if_missing, or_default, environ in *.
  destruct (truthy (env !! name)) eqn:E; [exact E|].
  assert (Hdef : truthy (<[name := d]> env !! name) = true).
  { rewrite lookup_insert_eq. simpl. apply negb_true_iff.
    now apply String.eqb_neq. }
  destruct value as [v|]; [|exact Hdef].
  destruct (String.eqb_spec (strip (secret_text v)) "") as [_|Hs];
    [exact Hdef|].
  simpl. rewrite lookup_insert_eq. simpl. apply negb_true_iff.
  apply String.eqb_neq. now apply strip_nonempty.
Qed.

(** Without a default, a value that sets nothing sets nothing anywhere. *)
Lemma set_if_missing_blank (env : environ) (name : string)
    (value : option secret) :
  truthy (set_if_missing env name value None !! name) = false ->
  forall e : environ, set_if_missing e name value None = e.
Proof.
  unfold set_if_missing, or_default, environ in *.
  destruct (truthy (env !! name)) eqn:E; [congruence|].
  intros H e.
  destruct (truthy (e !! name)); [reflexivity|].
  destruct value as [v|]; [|reflexivity].
  destruct (String.eqb_spec (strip (secret_text v)) "") as [_|Hs];
    [reflexivity|].
  simpl in H. rewrite lookup_insert_eq in H. simpl in H.
  apply negb_false_iff, String.eqb_eq in H.
  exfalso. now apply (strip_nonempty _ Hs).
Qed.

Section SecretsToEnv.

Variables (s : Secrets) (env : environ).

Local Abbreviation env1 :=
  (set_if_missing env "OPENAI_API_KEY"
     (or_secret (flat s "OPENAI_API_KEY") (nested s "api_key")) None).
Local Abbreviation env2 :=
  (set_if_missing env1 "OPENAI_MODEL"
     (or_secret (flat s "OPENAI_MODEL") (nested s "model"))
     (Some "gpt-4o-mini")).
Local Abbreviation env3 :=
  (if truthy (env2 !! "OPENAI_API_KEY")
   then set_if_missing env2 "A11Y_USE_LLM" (flat s "A11Y_USE_LLM") (Some "1")
   else <["A11Y_USE_LLM" := "0"]> env2).
Local Abbreviation env' := (_apply_secrets_to_env s env).

Lemma apply_secrets_key :
  env' !! "OPENAI_API_KEY" = env1 !! "OPENAI_API_KEY".
Proof.
  unfold _apply_secrets_to_env.
  rewrite set_if_missing_other by discriminate.
  destruct (truthy (env2 !! "OPENAI_API_KEY")).
  - rewrite !set_if_missing_other by discriminate. reflexivity.
  - unfold environ in *. rewrite lookup_insert_ne by discriminate.
    rewrite set_if_missing_other by discriminate. reflexivity.
Qed.

Lemma apply_secrets_model :
  env' !! "OPENAI_MODEL" = env2 !! "OPENAI_MODEL".
Proof.
  unfold _apply_secrets_to_env.
  rewrite set_if_missing_other by discriminate.
  destruct (truthy (env2 !! "OPENAI_API_KEY")).
  - rewrite set_if_missing_other by discriminate. reflexivity.
  - unfold environ in *. rewrite lookup_insert_ne by discriminate.
    reflexivity.
Qed.

Lemma apply_secrets_switch :
  env' !! "A11Y_USE_LLM" = env3 !! "A11Y_USE_LLM".
Proof.
  unfold _apply_secrets_to_env.
  now rewrite set_if_missing_other by discriminate.
Qed.

Lemma env2_key : env2 !! "OPENAI_API_KEY" = env1 !! "OPENAI_API_KEY".
Proof. now rewrite set_if_missing_other by discriminate. Qed.

Lemma apply_secrets_other (name : string) :
  name ∉ secret_names -> env' !! name = env !! name.
Proof.
  intros Hn.
  assert (H1 : name <> "OPENAI_API_KEY") by (intros ->; apply Hn; in_list).
  assert (H2 : name <> "OPENAI_MODEL") by (intros ->; apply Hn; in_list).
  assert (H3 : name <> "A11Y_USE_LLM") by (intros ->; apply Hn; in_list).
  assert (H4 : name <> "A11Y_SKIP_BEST_PRACTICE")
    by (intros ->; apply Hn; in_list).
  unfold _apply_secrets_to_env.
  rewrite set_if_missing_other by exact H4.
  destruct (truthy (env2 !! "OPENAI_API_KEY")).
  - rewrite !set_if_missing_other by assumption. reflexivity.
  - unfold environ in *. rewrite lookup_insert_ne by congruence.
    rewrite !set_if_missing_other by assumption. reflexivity.
Qed.

Lemma set_if_missing_value (e : environ) (name v : string)
    (value : option secret) (default : option string) :
  e !! name = Some v -> v <> "" ->
  set_if_missing e name value default !! name = Some v.
Proof.
  intros H Hv. rewrite set_if_missing_kept; [exact H|].
  rewrite H. simpl. apply negb_true_iff. now apply String.eqb_neq.
Qed.

Lemma apply_secrets_keeps (name v : string) :
  name <> "A11Y_USE_LLM" -> env !! name = Some v -> v <> "" ->
  env' !! name = Some v.
Proof.
  intros Hn H Hv.
  destruct (decide (name ∈ secret_names)) as [Hin|Hout];
    [|now rewrite apply_secrets_other].
  apply list_elem_of_In in Hin. simpl in Hin.
  destruct Hin as [<-|[<-|[<-|[<-|[]]]]]; [| |contradiction|].
  - rewrite apply_secrets_key. now apply set_if_missing_value.
  - rewrite apply_secrets_model. apply set_if_missing_value; [|exact Hv].
    now rewrite set_if_missing_other by discriminate.
  - unfold _apply_secrets_to_env. apply set_if_missing_value; [|exact Hv].
    destruct (truthy (env2 !! "OPENAI_API_KEY")).
    + rewrite !set_if_missing_other by discriminate. exact H.
    + unfold environ in *. rewrite lookup_insert_ne by discriminate.
      rewrite !set_if_missing_other by discriminate. exact H.
Qed.

Lemma apply_secrets_no_key :
  truthy (env' !! "OPENAI_API_KEY") = false ->
  env' !! "A11Y_USE_LLM" = Some "0".
Proof.
  rewrite apply_secrets_key, apply_secrets_switch, env2_key.
  intros ->. unfold environ in *. now rewrite lookup_insert_eq.
Qed.

Lemma apply_secrets_set :
  truthy (env' !! "OPENAI_MODEL") = true
  /\ truthy (env' !! "A11Y_USE_LLM") = true
  /\ truthy (env' !! "A11Y_SKIP_BEST_PRACTICE") = true.
Proof.
  refine (conj _ (conj _ _)).
  - rewrite apply_secrets_model. now apply set_if_missing_set.
  - rewrite apply_secrets_switch.
    destruct (truthy (env2 !! "OPENAI_API_KEY")).
    + now apply set_if_missing_set.
    + unfold environ in *. now rewrite lookup_insert_eq.
  - unfold _apply_secrets_to_env. now apply set_if_missing_set.
Qed.

End SecretsToEnv.

Lemma apply_secrets_again (s : Secrets) (env : environ) :
  _apply_secrets_to_env s (_apply_secrets_to_env s env)
  = _apply_secrets_to_env s env.
Proof.
  set (e := _apply_secrets_to_env s env).
  destruct (apply_secrets_set s env) as (Hm & Hu & Hs). fold e in Hm, Hu, Hs.
  assert (H1 : set_if_missing e "OPENAI_API_KEY"
                 (or_secret (flat s "OPENAI_API_KEY") (nested s "api_key"))
                 None = e).
  { destruct (truthy (e !! "OPENAI_API_KEY")) eqn:Ek;
      [now apply set_if_missing_kept|].
    unfold e in Ek. rewrite apply_secrets_key in Ek.
    now apply set_if_missing_blank with env. }
  unfold _apply_secrets_to_env at 1. fold e. rewrite H1.
  rewrite (set_if_missing_kept e "OPENAI_MODEL") by exact Hm.
  destruct (truthy (e !! "OPENAI_API_KEY")) eqn:Ek.
  - rewrite (set_if_missing_kept e "A11Y_USE_LLM") by exact Hu.
    now apply set_if_missing_kept.
  - assert (E0 : <["A11Y_USE_LLM" := "0"]> e = e)
      by (apply insert_id; now apply apply_secrets_no_key).
    rewrite E0. now apply set_if_missing_kept.
Qed.

(** X16. Setting the environment from the secrets leaves every other
    variable alone and keeps a variable that is already set and not
    empty, but for the live switch, which is forced to 0 when no API key
    is set in the end.  Afterwards the model, the live switch and the
    skip flag are all set; the live switch is 1 only with an API key, so
    the reviewer goes live exactly when the switch is 1; and applying the
    secrets again changes nothing. *)
Theorem secrets_to_env (s : Secrets) (env : environ) :
  (forall name,
     name ∉ secret_names ->
     _apply_secrets_to_env s env !! name = env !! name)
  /\ (forall name v,
        name <> "A11Y_USE_LLM" -> env !! name = Some v -> v <> "" ->
        _apply_secrets_to_env s env !! name = Some v)
  /\ (truthy (_apply_secrets_to_env s env !! "OPENAI_API_KEY") = false ->
      _apply_secrets_to_env s env !! "A11Y_USE_LLM" = Some "0")
  /\ (truthy (_apply_secrets_to_env s env !! "OPENAI_MODEL") = true
      /\ truthy (_apply_secrets_to_env s env !! "A11Y_USE_LLM") = true
      /\ truthy (_apply_secrets_to_env s env !! "A11Y_SKIP_BEST_PRACTICE")
         = true)
  /\ (forall w,
        A11Y_USE_LLM w = _apply_secrets_to_env s env !! "A11Y_USE_LLM" ->
        OPENAI_API_KEY w = _apply_secrets_to_env s env !! "OPENAI_API_KEY" ->
        _use_live_llm w = bool_decide (A11Y_USE_LLM w = Some "1"))
  /\ _apply_secrets_to_env s (_apply_secrets_to_env s env)
     = _apply_secrets_to_env s env.
Proof.
  refine (conj (apply_secrets_other s env)
            (conj (apply_secrets_keeps s env)
               (conj (apply_secrets_no_key s env)
                  (conj (apply_secrets_set s env)
                     (conj _ (apply_secrets_again s env)))))).
  intros w Hu Hk. unfold _use_live_llm. rewrite Hk.
  destruct (truthy (_apply_secrets_to_env s env !! "OPENAI_API_KEY")) eqn:E;
    [now rewrite andb_true_r|].
  rewrite andb_false_r. apply apply_secrets_no_key in E.
  rewrite Hu, E. reflexivity.
Qed.

Lemma secrets_to_env_witness :
  _apply_secrets_to_env keyless_secrets eager_environ !! "A11Y_USE_LLM"
  = Some "0"
  /\ _apply_secrets_to_env keyless_secrets eager_environ !! "HOME" = None.
Proof.
  split.
  - apply (proj1 (proj2 (proj2 (secrets_to_env keyless_secrets eager_environ)))).
    reflexivity.
  - rewrite (proj1 (secrets_to_env keyless_secrets eager_environ) "HOME");
      [reflexivity|not_in_list].
Defined.

(* ================================================================== *)
(** ** axe_runner: the files of a scan *)

Lemma inject_fails (b : Runner.Browser) (urls : list string) :
  Runner.inject b urls = false
  <-> Forall (fun u => exists e, Runner.add_script_tag b u = Raise e) urls.
Proof.
  induction urls as [|u urls IH]; simpl.
  - split; auto.
  - destruct (Runner.add_script_tag b u) as [[]|e] eqn:E.
    + split; [discriminate|]. intros H. inversion H as [|? ? [e He] _].
      congruence.
    + rewrite IH. split.
      * intros H. constructor; eauto.
      * intros H. now inversion H.
Qed.

Lemma candidates_file_last (out_dir : string) :
  Forall (fun p => p <> Runner.candidates_file out_dir)
    [Runner.metadata_file out_dir; Runner.axe_results_file out_dir;
     Runner.nodes_log_file out_dir].
Proof.
  unfold Runner.metadata_file, Runner.axe_results_file,
    Runner.nodes_log_file, Runner.candidates_file.
  repeat constructor; intros H; apply append_inj_l in H; discriminate.
Qed.

(** X17. The text files of a scan (the screenshots saved while the
    candidates are built are image files and are left aside) are
    metadata.json, axe_results.json, axe_nodes.jsonl and candidates.json,
    written in this order; the scan stops at the first step of the
    browser session that raises (the writes themselves are taken to
    succeed), so the text files written are always a beginning of that
    list, with metadata.json first.  candidates.json is written exactly
    when the candidates were built, with all of them, and it is the last
    write; a scan that returns has written the four files.  When the
    scanner cannot be injected from any of the three addresses the scan
    raises its own error after metadata.json alone; when the building of
    the candidates raises, the three first files are written and a
    candidates.json of an earlier scan stays as it was. *)
Theorem scan_files_in_order (b : Runner.Browser) (page : Page)
    (url out_dir : string) :
  (map write_path (fst (Runner.run_axe_on_url b page url out_dir))
   `prefix_of` Runner.scan_files out_dir)
  /\ head (fst (Runner.run_axe_on_url b page url out_dir))
     = Some (Runner.metadata_write url out_dir)
  /\ (Runner.candidates_file out_dir
      ∈ map write_path (fst (Runner.run_axe_on_url b page url out_dir))
      <-> exists raw payload cands,
            Runner.axe_run b = Ok (raw, payload)
            /\ run_axe_on_url url out_dir page payload = Ok cands
            /\ last (fst (Runner.run_axe_on_url b page url out_dir))
               = Some (Write (Runner.candidates_file out_dir)
                         (json_dumps (Some 2) true
                            (JList (map Runner.candidate_json cands))))
            /\ snd (Runner.run_axe_on_url b page url out_dir)
               = Runner.close_session b)
  /\ (snd (Runner.run_axe_on_url b page url out_dir) = Ok tt ->
      map write_path (fst (Runner.run_axe_on_url b page url out_dir))
      = Runner.scan_files out_dir)
  /\ (Runner.new_page b = Ok tt -> Runner.navigate b = Ok tt ->
      Forall (fun u => exists e, Runner.add_script_tag b u = Raise e)
        Runner.AXE_URLS ->
      Runner.run_axe_on_url b page url out_dir
      = ([Runner.metadata_write url out_dir],
         Raise (RuntimeError "Failed to inject axe-core from CDN.")))
  /\ (forall raw payload e fs,
        Runner.new_page b = Ok tt -> Runner.navigate b = Ok tt ->
        Runner.inject b Runner.AXE_URLS = true ->
        Runner.axe_run b = Ok (raw, payload) ->
        run_axe_on_url url out_dir page payload = Raise e ->
        snd (Runner.run_axe_on_url b page url out_dir) = Raise e
        /\ map write_path (fst (Runner.run_axe_on_url b page url out_dir))
           = [Runner.metadata_file out_dir; Runner.axe_results_file out_dir;
              Runner.nodes_log_file out_dir]
        /\ after_writes fs (fst (Runner.run_axe_on_url b page url out_dir))
             !! Runner.candidates_file out_dir
           = fs !! Runner.candidates_file out_dir).
Proof.
  pose proof (candidates_file_last out_dir) as Hlast.
  assert (Hmeta : Runner.candidates_file out_dir
                  ∉ [Runner.metadata_file out_dir]).
  { intros H. apply list_elem_of_singleton in H.
    inversion Hlast; subst. congruence. }
  assert (Hthree : Runner.candidates_file out_dir
                   ∉ [Runner.metadata_file out_dir;
                      Runner.axe_results_file out_dir;
                      Runner.nodes_log_file out_dir]).
  { intros H. rewrite Forall_forall in Hlast. now apply (Hlast _ H). }
  unfold Runner.run_axe_on_url.
  destruct (Runner.new_page b) as [[]|e0] eqn:Ep.
  2: { refine (conj _ (conj eq_refl (conj _ (conj _ (conj _ _))))).
       - now exists (tl (Runner.scan_files out_dir)).
       - split; [intros H; now apply Hmeta in H|].
         intros (raw & payload & cands & _ & _ & H & _).
         simpl in H. injection H as H _.
         apply append_inj_l in H. discriminate.
       - discriminate.
       - discriminate.
       - discriminate. }
  destruct (Runner.navigate b) as [[]|e0] eqn:En.
  2: { refine (conj _ (conj eq_refl (conj _ (conj _ (conj _ _))))).
       - now exists (tl (Runner.scan_files out_dir)).
       - split; [intros H; now apply Hmeta in H|].
         intros (raw & payload & cands & _ & _ & H & _).
         simpl in H. injection H as H _.
         apply append_inj_l in H. discriminate.
       - discriminate.
       - discriminate.
       - discriminate. }
  destruct (Runner.inject b Runner.AXE_URLS) eqn:Ei; cbn [negb].
  2: { refine (conj _ (conj eq_refl (conj _ (conj _ (conj _ _))))).
       - now exists (tl (Runner.scan_files out_dir)).
       - split; [intros H; now apply Hmeta in H|].
         intros (raw & payload & cands & _ & _ & H & _).
         simpl in H. injection H as H _.
         apply append_inj_l in H. discriminate.
       - discriminate.
       - reflexivity.
       - discriminate. }
  assert (Hinj : ~ Forall (fun u => exists e,
                             Runner.add_script_tag b u = Raise e)
                     Runner.AXE_URLS).
  { intros H. apply inject_fails in H. congruence. }
  destruct (Runner.axe_run b) as [[raw payload]|e0] eqn:Ea.
  2: { refine (conj _ (conj eq_refl (conj _ (conj _ (conj _ _))))).
       - now exists (tl (Runner.scan_files out_dir)).
       - split; [intros H; now apply Hmeta in H|].
         intros (raw & payload & cands & H & _). discriminate.
       - discriminate.
       - intros _ _ H. contradiction.
       - discriminate. }
  destruct (run_axe_on_url url out_dir page payload) as [cands|e0] eqn:Ec.
  - refine (conj _ (conj eq_refl (conj _ (conj _ (conj _ _))))).
    + now exists [].
    + split; [|intros _; simpl; set_solver].
      intros _. exists raw, payload, cands. auto.
    + reflexivity.
    + intros _ _ H. contradiction.
    + intros raw' payload' e fs _ _ _ [= <- <-]. congruence.
  - refine (conj _ (conj eq_refl (conj _ (conj _ (conj _ _))))).
    + now exists [Runner.candidates_file out_dir].
    + split; [intros H; now apply Hthree in H|].
      intros (raw' & payload' & cands & [= <- <-] & H & _). congruence.
    + discriminate.
    + intros _ _ H. contradiction.
    + intros raw' payload' e fs _ _ _ [= <- <-] He.
      rewrite Ec in He. injection He as <-.
      refine (conj eq_refl (conj eq_refl _)).
      apply after_writes_spared. simpl.
      inversion Hlast as [|? ? H1 Hl1]; subst.
      inversion Hl1 as [|? ? H2 Hl2]; subst.
      inversion Hl2 as [|? ? H3 _]; subst.
      repeat constructor; auto.
Qed.

Lemma scan_files_in_order_witness :
  Runner.run_axe_on_url offline_browser sample_page "https://example.org"
    "out"
  = ([Runner.metadata_write "https://example.org" "out"],
     Raise (RuntimeError "Failed to inject axe-core from CDN."))
  /\ after_writes former_scan_files
       (fst (Runner.run_axe_on_url (sample_browser framed_scan)
               vanishing_page "https://example.org" "out"))
       !! "out/candidates.json"
     = Some "former candidates".
Proof.
  split.
  - apply (proj1 (proj2 (proj2 (proj2 (proj2
             (scan_files_in_order offline_browser sample_page
                "https://example.org" "out")))))).
    + reflexivity.
    + reflexivity.
    + repeat constructor; eexists; reflexivity.
  - pose proof (proj2 (proj2 (proj2 (proj2 (proj2
                  (scan_files_in_order (sample_browser framed_scan)
                     vanishing_page "https://example.org" "out")))))
                  (JObj []) framed_scan
                  (Exn "Error" "failed to find element matching selector")
                  former_scan_files eq_refl eq_refl eq_refl eq_refl
                  ltac:(vm_compute; reflexivity)) as (_ & _ & H).
    exact H.
Defined.

(* ================================================================== *)
(** ** axe_runner: the crop of a screenshot *)

Lemma py_int_max0 (v : Q) : (0 <= Crop.py_int (Crop.max0 v))%Z.
Proof.
  unfold Crop.py_int, Crop.max0.
  destruct (Qlt_le_dec 0 v) as [Hv|Hv].
  - destruct (Qlt_le_dec v 0) as [Hn|Hn].
    + exfalso. apply (Qlt_irrefl 0). now apply Qlt_trans with v.
    + change 0%Z with (Qfloor 0). now apply Qfloor_resp_le.
  - destruct (Qlt_le_dec 0 0) as [Hn|Hn]; [now apply Qlt_irrefl in Hn|].
    reflexivity.
Qed.

(** X18. The rectangle cropped for an element is never empty and lies
    inside the page screenshot: its left and top edges are not negative,
    its right and bottom edges are within the image; a box that starts
    at or beyond the right or the bottom edge of the image gives no
    crop.  This holds whatever the rounding of the float operations. *)
Theorem crop_inside_image (fsub fadd : Q -> Q -> Q) (box : Crop.Box)
    (im_width im_height : Z) :
  (forall left top right bottom,
     Crop.crop_rectangle fsub fadd box im_width im_height
     = Some (left, top, right, bottom) ->
     (0 <= left < right)%Z /\ (right <= im_width)%Z
     /\ (0 <= top < bottom)%Z /\ (bottom <= im_height)%Z)
  /\ ((im_width <= Crop.py_int (Crop.max0 (fsub (Crop.box_x box) 2%Q)))%Z ->
      Crop.crop_rectangle fsub fadd box im_width im_height = None)
  /\ ((im_height <= Crop.py_int (Crop.max0 (fsub (Crop.box_y box) 2%Q)))%Z ->
      Crop.crop_rectangle fsub fadd box im_width im_height = None).
Proof.
  unfold Crop.crop_rectangle.
  pose proof (py_int_max0 (fsub (Crop.box_x box) 2%Q)) as Hx.
  pose proof (py_int_max0 (fsub (Crop.box_y box) 2%Q)) as Hy.
  set (x := Crop.py_int (Crop.max0 (fsub (Crop.box_x box) 2%Q))) in *.
  set (y := Crop.py_int (Crop.max0 (fsub (Crop.box_y box) 2%Q))) in *.
  set (w := Crop.py_int (fadd (Crop.box_width box) 4%Q)).
  set (h := Crop.py_int (fadd (Crop.box_height box) 4%Q)).
  cbv zeta.
  refine (conj _ (conj _ _)).
  - intros left top right bottom.
    destruct (Z.leb_spec (Z.min w (im_width - x)) 0);
      destruct (Z.leb_spec (Z.min h (im_height - y)) 0);
      simpl; try discriminate.
    intros [= <- <- <- <-]. lia.
  - intros H.
    destruct (Z.leb_spec (Z.min w (im_width - x)) 0); [reflexivity|lia].
  - intros H.
    destruct (Z.leb_spec (Z.min h (im_height - y)) 0);
      [now rewrite orb_true_r|lia].
Qed.

Lemma crop_inside_image_witness :
  (0 <= 98 < 144)%Z /\ (144 <= 1440)%Z /\ (0 <= 0 < 34)%Z /\ (34 <= 900)%Z.
Proof.
  apply (proj1 (crop_inside_image Qminus Qplus
                  {| Crop.box_x := 1005 # 10; Crop.box_y := 1 # 2;
                     Crop.box_width := 425 # 10; Crop.box_height := 30 |}
                  1440 900)).
  reflexivity.
Defined.

(* ================================================================== *)
(** ** streamlit_app: the directory of a run *)

(** Replacing one character by another, character by character. *)
Lemma replace1_cons (x y c : ascii) (s : string) :
  str_replace (str1 x) (str1 y) (String c s)
  = String (if Ascii.eqb x c then y else c)
      (str_replace (str1 x) (str1 y) s).
Proof.
  unfold str_replace. cbn [replace_from String.prefix str1].
  destruct (ascii_dec x c) as [->|Hne].
  - rewrite Ascii.eqb_refl.
    replace (String.prefix "" s) with true by now destruct s.
    reflexivity.
  - apply Ascii.eqb_neq in Hne. now rewrite Hne.
Qed.

Lemma replace1_chars (x y : ascii) (s : string) :
  x <> y ->
  x ∉ list_ascii_of_string (str_replace (str1 x) (str1 y) s).
Proof.
  intros Hxy.
  induction s as [|c s IH]; [intros H; inversion H|].
  rewrite replace1_cons. simpl. intros H.
  apply elem_of_cons in H as [H|H]; [|auto].
  destruct (Ascii.eqb_spec x c); congruence.
Qed.

Lemma replace1_nonempty (x y : ascii) (s : string) :
  s <> "" -> str_replace (str1 x) (str1 y) s <> "".
Proof.
  intros Hs. destruct s as [|c s]; [contradiction|].
  rewrite replace1_cons. discriminate.
Qed.

Lemma replace1_keeps (x y z : ascii) (s : string) :
  z <> y -> (z ∉ list_ascii_of_string s) ->
  z ∉ list_ascii_of_string (str_replace (str1 x) (str1 y) s).
Proof.
  intros Hzy.
  induction s as [|c s IH]; [auto|].
  intros Hz. rewrite replace1_cons. simpl. intros H.
  apply elem_of_cons in H as [H|H].
  - destruct (Ascii.eqb x c); [congruence|]. apply Hz. rewrite H. left.
  - apply IH; [|exact H]. intros Hin. apply Hz. now right.
Qed.

Lemma take_str_chars (n : nat) (s : string) (z : ascii) :
  (z ∉ list_ascii_of_string s) -> z ∉ list_ascii_of_string (take_str n s).
Proof.
  revert s. induction n as [|n IH]; intros [|c s] Hz; simpl;
    try (intros H; inversion H; fail).
  intros H. apply elem_of_cons in H as [->|H].
  - apply Hz. left.
  - apply (IH s); [|exact H]. intros Hin. apply Hz. now right.
Qed.

Lemma take_str_nonempty (n : nat) (s : string) :
  s <> "" -> take_str (S n) s <> "".
Proof. destruct s; [contradiction|discriminate]. Qed.

(** X19. The name of a run's directory has at most 80 characters and is
    not empty; it holds no slash when the host holds none, as is the case
    of every host an address can have, so the directory is an entry of
    the output directory itself. *)
Theorem slugify_component (netloc path : string) :
  String.length (slugify netloc path) <= 80
  /\ slugify netloc path <> ""
  /\ (("/"%char ∉ list_ascii_of_string netloc) ->
      "/"%char ∉ list_ascii_of_string (slugify netloc path)).
Proof.
  unfold slugify. refine (conj _ (conj _ _)).
  - apply take_str_length.
  - apply take_str_nonempty.
    assert (H : str_replace ":" "_"
                  (if String.eqb netloc "" then "site" else netloc) <> "").
    { apply (replace1_nonempty ":" "_").
      destruct (String.eqb_spec netloc ""); [discriminate|assumption]. }
    destruct (str_replace ":" "_" _); [contradiction|].
    rewrite append_cons. discriminate.
  - intros Hn. apply take_str_chars.
    rewrite !list_ascii_append. intros H.
    apply elem_of_app in H as [H|H].
    + revert H. apply (replace1_keeps ":" "_" "/"); [discriminate|].
      destruct (String.eqb netloc ""); [|exact Hn].
      intros H. apply list_elem_of_In in H. simpl in H.
      intuition discriminate.
    + apply elem_of_app in H as [H|H].
      * apply list_elem_of_In in H. simpl in H. intuition discriminate.
      * destruct (String.eqb _ "") in H.
        -- apply list_elem_of_In in H. simpl in H. intuition discriminate.
        -- revert H. apply (replace1_chars "/" "_"). discriminate.
Qed.

Lemma slugify_component_witness :
  "/"%char ∉ list_ascii_of_string (slugify "example.org:8080" "/a/b/").
Proof.
  apply (proj2 (proj2 (slugify_component "example.org:8080" "/a/b/"))).
  intros H. apply list_elem_of_In in H. simpl in H. intuition discriminate.
Defined.

(* ================================================================== *)
(** ** axe_runner: when the building of the candidates raises *)

Section ProbeFailure.

Variables (url out_dir : string) (page : Page).

Lemma promote_image_alt_raises (r : Rule) scs t (nodes : list Node) st
    (e : exn) :
  promote_image_alt url out_dir page r scs t st nodes = Raise e ->
  exists n, n ∈ nodes /\ node_selector n <> ""
            /\ eval_closest page (node_selector n) = Raise e.
Proof.
  induction nodes as [|n nodes IH]; simpl; [discriminate|].
  assert (Hrest : promote_image_alt url out_dir page r scs t st nodes
                  = Raise e ->
                  exists n0, n0 ∈ n :: nodes /\ node_selector n0 <> ""
                             /\ eval_closest page (node_selector n0) = Raise e).
  { intros H. destruct (IH H) as (n0 & Hin & Hrest). exists n0.
    split; [now right|exact Hrest]. }
  destruct (String.eqb_spec (node_selector n) "") as [_|Hsel]; [exact Hrest|].
  destruct (eval_closest page (node_selector n)) as [b|e'] eqn:E; simpl.
  - destruct (b || _); [|exact Hrest].
    case_bool_decide; [exact Hrest|discriminate].
  - intros [= <-]. exists n. split; [left|auto].
Qed.

Lemma promote_rule_raises (st : ScanState) (r : Rule) (e : exn) :
  promote_rule url out_dir page st r = Raise e ->
  r_id r = Some "image-alt"
  /\ exists n, n ∈ firstn 30 (r_nodes r) /\ node_selector n <> ""
               /\ eval_closest page (node_selector n) = Raise e.
Proof.
  unfold promote_rule. destruct (negb _); [discriminate|].
  case_bool_decide as Hid.
  - destruct (promote_image_alt _ _ _ _ _ _ _ _) as [st1|e'] eqn:E; simpl.
    + case_bool_decide; discriminate.
    + intros [= <-]. split; [exact Hid|].
      now apply promote_image_alt_raises in E.
  - simpl. case_bool_decide; discriminate.
Qed.

Lemma promote_passes_raises (rules : list Rule) (st : ScanState) (e : exn) :
  promote_passes url out_dir page st rules = Raise e ->
  exists r n, r ∈ rules /\ r_id r = Some "image-alt"
              /\ n ∈ firstn 30 (r_nodes r) /\ node_selector n <> ""
              /\ eval_closest page (node_selector n) = Raise e.
Proof.
  revert st. induction rules as [|r rules IH]; intros st; simpl;
    [discriminate|].
  destruct (promote_rule url out_dir page st r) as [st1|e'] eqn:E; simpl.
  - intros H. destruct (IH st1 H) as (r0 & n & Hin & Hrest).
    exists r0, n. split; [now right|exact Hrest].
  - intros [= <-]. apply promote_rule_raises in E as (Hid & n & Hrest).
    exists r, n. split; [left|]. split; [exact Hid|exact Hrest].
Qed.

Lemma promote_passes_no_image (rules : list Rule) (st : ScanState) :
  Forall (fun r => r_id r <> Some "image-alt") rules ->
  exists st', promote_passes url out_dir page st rules = Ok st'.
Proof.
  intros H. destruct (promote_passes url out_dir page st rules) as [st'|e]
    eqn:E; [eauto|].
  apply promote_passes_raises in E as (r & n & Hin & Hid & _).
  rewrite Forall_forall in H. now destruct (H r Hin).
Qed.

End ProbeFailure.

(** X20. For a scan result whose targets are lists of selector
    strings, on a page whose helpers never raise and whose guarded
    queries are taken to answer, the building of the candidates raises
    only through the unguarded probe of the image-alt pass: the exception
    is the one the page raised for the probe of a node, with a selector,
    among the first 30 nodes of an image-alt rule of the passes bucket.
    So the candidates of such a scan are always built when the passes
    bucket has no image-alt rule, and when the page answers every
    probe. *)
Theorem scan_raises_on_probe (url out_dir : string) (page : Page)
    (payload : AxePayload) :
  (forall e,
     run_axe_on_url url out_dir page payload = Raise e ->
     exists r n,
       r ∈ passes payload /\ r_id r = Some "image-alt"
       /\ n ∈ firstn 30 (r_nodes r) /\ node_selector n <> ""
       /\ eval_closest page (node_selector n) = Raise e)
  /\ (Forall (fun r => r_id r <> Some "image-alt") (passes payload) ->
      exists cands, run_axe_on_url url out_dir page payload = Ok cands)
  /\ ((forall sel, exists b, eval_closest page sel = Ok b) ->
      exists cands, run_axe_on_url url out_dir page payload = Ok cands).
Proof.
  refine (conj _ (conj _ (run_axe_on_url_total url out_dir page payload))).
  - intros e. unfold run_axe_on_url.
    destruct (promote_passes _ _ _ _ _) as [st2|e'] eqn:E; simpl;
      [discriminate|].
    intros [= <-]. now apply promote_passes_raises in E.
  - intros H. unfold run_axe_on_url.
    destruct (promote_passes_no_image url out_dir page (passes payload)
                (must_review url out_dir page payload (∅, [])) H)
      as [st2 ->].
    simpl. eauto.
Qed.

Lemma scan_raises_on_probe_witness :
  exists r n,
    r ∈ passes framed_scan /\ r_id r = Some "image-alt"
    /\ n ∈ firstn 30 (r_nodes r) /\ node_selector n <> ""
    /\ eval_closest vanishing_page (node_selector n)
       = Raise (Exn "Error" "failed to find element matching selector").
Proof.
  apply (proj1 (scan_raises_on_probe "https://example.org" "out"
                  vanishing_page framed_scan)).
  vm_compute. reflexivity.
Defined.

(* ================================================================== *)
(** ** rag_reviewer: when a pass raises *)






(* ================================================================== *)
(** ** From the scan to the review *)

Section ScanToReview.

Variables (url out_dir : string) (page : Page) (payload : AxePayload)
  (cands : list Candidate).
Hypothesis scanned : run_axe_on_url url out_dir page payload = Ok cands.

Lemma scanned_candidate (c : Candidate) :
  c ∈ cands ->
  exists b r n,
    r ∈ all_rules payload /\ n ∈ r_nodes r /\ node_selector n <> ""
    /\ c = candidate_from url out_dir page b r n.
Proof.
  intros Hc.
  destruct (candidates_from_rules url out_dir page payload cands c scanned Hc)
    as (b & r & n & Hr & Hn & Hsel & E).
  exists b, r, n. auto.
Qed.

Lemma scanned_primary (c : Candidate) :
  c ∈ cands ->
  fst (_scs_from_candidate c) = or_empty (_primary_sc (sc_list c))
  /\ topic c = topic_of (sc_list c)
  /\ Forall criterion (sc_list c).
Proof.
  intros Hc. destruct (scanned_candidate c Hc) as (b & r & n & _ & _ & _ & ->).
  change (sc_list (candidate_from url out_dir page b r n))
    with (_extract_scs (r_tags r)).
  change (topic (candidate_from url out_dir page b r n))
    with (topic_of (_extract_scs (r_tags r))).
  refine (conj _ (conj eq_refl (extract_scs_criteria _))).
  rewrite scs_from_candidate_topic.
  - simpl. apply topic_of_criteria, extract_scs_criteria.
  - change (sc_list (candidate_from url out_dir page b r n))
      with (_extract_scs (r_tags r)).
    eapply Forall_impl; [apply extract_scs_dotted|].
    intros s (a & b0 & d & _ & _ & _ & ->). apply dotted_not_tag.
Qed.

Lemma scanned_best_practice (c : Candidate) :
  c ∈ cands ->
  (fst (_scs_from_candidate c) = "" <-> topic c = "BEST_PRACTICE")
  /\ (topic c = "BEST_PRACTICE" <-> sc_list c = []).
Proof.
  intros Hc. destruct (scanned_primary c Hc) as (-> & -> & Hall).
  destruct (sc_list c) as [|sc scs]; simpl.
  - split; split; reflexivity.
  - inversion Hall as [|? ? Hsc _]; subst.
    split; split; intros H; try discriminate;
      try (now destruct (sc_dash_not_best_practice sc)).
    subst sc. now destruct not_criterion_empty.
Qed.

Lemma scanned_screenshot (c : Candidate) :
  c ∈ cands -> crops_to_path page ->
  screenshot c = None
  \/ screenshot c
     = Some (out_dir +:+ "/screenshots/" +:+ shot_name c +:+ ".png").
Proof.
  intros Hc Hcrop.
  destruct (scanned_candidate c Hc) as (b & r & n & _ & _ & _ & ->).
  unfold candidate_from, make_candidate, shot_name. simpl.
  apply Hcrop.
Qed.

End ScanToReview.

(** X22. For the candidates of a scan, having no criterion, having the
    topic BEST_PRACTICE and having an empty criteria list are the same
    thing; so with the skip flag the pass leaves out exactly the
    candidates whose topic is BEST_PRACTICE, and without it none. *)
Theorem skip_best_practice_exactly (url out_dir : string) (page : Page)
    (payload : AxePayload) (cands : list Candidate) :
  run_axe_on_url url out_dir page payload = Ok cands ->
  forall c,
    c ∈ cands ->
    (kept true c = false <-> topic c = "BEST_PRACTICE")
    /\ (topic c = "BEST_PRACTICE" <-> sc_list c = [])
    /\ (topic c <> "BEST_PRACTICE" ->
        topic c = "SC-" +:+ fst (_scs_from_candidate c))
    /\ kept false c = true.
Proof.
  intros Hrun c Hc.
  destruct (scanned_best_practice url out_dir page payload cands Hrun c Hc)
    as [Hsc Htopic].
  refine (conj _ (conj Htopic (conj _ eq_refl))).
  - unfold kept. simpl. rewrite negb_false_iff, String.eqb_eq. exact Hsc.
  - destruct (scanned_primary url out_dir page payload cands Hrun c Hc)
      as (-> & -> & _).
    destruct (sc_list c) as [|sc scs]; [now intros []|reflexivity].
Qed.

Lemma skip_best_practice_exactly_witness :
  let cands :=
    match run_axe_on_url "https://example.org" "out" sample_page sample_scan
    with Ok l => l | Raise _ => [] end in
  Forall (fun c => kept true c = false <-> topic c = "BEST_PRACTICE") cands.
Proof.
  intros cands. apply Forall_forall. intros c Hc.
  refine (proj1 (skip_best_practice_exactly
                   "https://example.org" "out" sample_page sample_scan cands
                   _ c Hc)).
  vm_compute. reflexivity.
Defined.

(** X23. When the crop answers as the source's does (the path it was
    given, or nothing), the screenshot of every candidate of a scan is
    missing or is a file of the screenshots directory of the run, named
    after the rule and the first 60 characters of the selector,
    sanitized: at most 120 characters, letters, digits, dots, underscores
    and hyphens only, then .png.  Two candidates of one rule whose
    selectors begin with the same 60 characters therefore share their
    screenshot file. *)
Theorem screenshot_files (url out_dir : string) (page : Page)
    (payload : AxePayload) (cands : list Candidate) :
  run_axe_on_url url out_dir page payload = Ok cands ->
  crops_to_path page ->
  (forall c,
     c ∈ cands ->
     (screenshot c = None
      \/ screenshot c
         = Some (out_dir +:+ "/screenshots/" +:+ shot_name c +:+ ".png"))
     /\ String.length (shot_name c) <= 120
     /\ Forall (fun x => filename_char x = true)
          (list_ascii_of_string (shot_name c)))
  /\ (forall c1 c2 s1 s2,
        c1 ∈ cands -> c2 ∈ cands ->
        axe_rule_id c1 = axe_rule_id c2 ->
        take_str 60 (selector c1) = take_str 60 (selector c2) ->
        screenshot c1 = Some s1 -> screenshot c2 = Some s2 -> s1 = s2).
Proof.
  intros Hrun Hcrop. split.
  - intros c Hc.
    refine (conj (scanned_screenshot url out_dir page payload cands Hrun c Hc
                    Hcrop) _).
    unfold shot_name. split.
    + apply take_str_length.
    + apply take_str_Forall, sub_runs_safe.
  - intros c1 c2 s1 s2 H1 H2 Hid Hsel E1 E2.
    destruct (scanned_screenshot url out_dir page payload cands Hrun c1 H1
                Hcrop) as [K1|K1]; [congruence|].
    destruct (scanned_screenshot url out_dir page payload cands Hrun c2 H2
                Hcrop) as [K2|K2]; [congruence|].
    rewrite K1 in E1. rewrite K2 in E2.
    injection E1 as <-. injection E2 as <-.
    unfold shot_name. now rewrite Hid, Hsel.
Qed.

Lemma screenshot_files_witness :
  let cands :=
    match run_axe_on_url "https://example.org" "out" sample_page sample_scan
    with Ok l => l | Raise _ => [] end in
  Forall (fun c =>
            screenshot c = None
            \/ screenshot c
               = Some ("out" +:+ "/screenshots/" +:+ shot_name c +:+ ".png"))
    cands.
Proof.
  intros cands. apply Forall_forall. intros c Hc.
  refine (proj1 (proj1 (screenshot_files
                          "https://example.org" "out" sample_page sample_scan
                          cands _ _) c Hc)).
  - vm_compute. reflexivity.
  - intros sel path. now right.
Defined.

(* ================================================================== *)
(** ** axe_runner: the order and the number of the candidates *)

Section CandidateOrder.

Variables (url out_dir : string) (page : Page).

Local Abbreviation step := (occurrence_step url out_dir page).

(** The keys a walk adds: those of the occurrences with a selector that
    were not seen, in the order of the walk. *)
Lemma walk_keys (l : list (Rule * Node)) (st : ScanState) :
  exists ks,
    keys_of (candidates_of (fold_left step l st))
    = keys_of (candidates_of st) ++ ks
    /\ ks `sublist_of` occurrence_keys l
    /\ forall k, k ∈ ks <-> (k ∉ seen_of st) /\ k ∈ occurrence_keys l.
Proof.
  revert st. induction l as [|o l IH]; intros st.
  - exists []. simpl. rewrite app_nil_r. split; [reflexivity|].
    split; [constructor|]. intros k. split; [inversion 1|].
    intros [_ H]. inversion H.
  - simpl fold_left.
    destruct (occurrence_step_cases url out_dir page st o)
      as [(Hs & Hk & E)|(Hn & E)]; rewrite E.
    + destruct (IH (add_candidate st
                      (candidate_from url out_dir page "must_review"
                         (fst o) (snd o))))
        as (ks & Hkeys & Hsub & Hmem).
      assert (Hf : occurrence_keys (o :: l)
                   = occurrence_key o :: occurrence_keys l).
      { unfold occurrence_keys, has_selector. simpl.
        apply String.eqb_neq in Hs. now rewrite Hs. }
      exists (occurrence_key o :: ks). rewrite Hf.
      refine (conj _ (conj _ _)).
      * rewrite Hkeys. unfold add_candidate, keys_of. simpl.
        rewrite map_app, <- app_assoc. reflexivity.
      * now apply sublist_skip.
      * intros k. rewrite !elem_of_cons, Hmem.
        unfold add_candidate. simpl.
        change (candidate_key _) with (occurrence_key o).
        rewrite elem_of_union, elem_of_singleton.
        destruct (decide (k = occurrence_key o)) as [->|Hne]; [tauto|].
        tauto.
    + destruct (IH st) as (ks & Hkeys & Hsub & Hmem).
      exists ks. split; [exact Hkeys|].
      unfold occurrence_keys, has_selector. simpl.
      destruct (String.eqb_spec (node_selector (snd o)) "") as [Hs|Hs];
        simpl.
      * split; [exact Hsub|exact Hmem].
      * destruct Hn as [Hn|Hn]; [contradiction|].
        split; [now apply sublist_cons|].
        intros k. rewrite Hmem, elem_of_cons. split; [tauto|].
        intros [Hk [->|Hin]]; [contradiction|tauto].
Qed.

(** The keys a walk adds stand in the order of their first occurrence:
    of two added keys, the earlier one occurs before every occurrence of
    the later one. *)
Lemma walk_first (l : list (Rule * Node)) (st : ScanState) (ks : list Key) :
  keys_of (candidates_of (fold_left step l st))
  = keys_of (candidates_of st) ++ ks ->
  forall l1 k1 l2 k2 l3,
    ks = l1 ++ k1 :: l2 ++ k2 :: l3 ->
    exists m1 m2, occurrence_keys l = m1 ++ k1 :: m2 /\ k2 ∉ m1.
Proof.
  revert st ks. induction l as [|o l IH]; intros st ks Hks l1 k1 l2 k2 l3 E.
  - simpl in Hks. rewrite <- (app_nil_r (keys_of _)) in Hks at 1.
    apply app_inv_head in Hks. subst ks. now destruct l1.
  - simpl fold_left in Hks.
    destruct (occurrence_step_cases url out_dir page st o)
      as [(Hs & Hk & Eo)|(Hn & Eo)]; rewrite Eo in Hks.
    + set (st' := add_candidate st
                    (candidate_from url out_dir page "must_review"
                       (fst o) (snd o))) in *.
      destruct (walk_keys l st') as (ks' & Hkeys & _ & Hmem).
      assert (Hf : occurrence_keys (o :: l)
                   = occurrence_key o :: occurrence_keys l).
      { unfold occurrence_keys, has_selector. simpl.
        apply String.eqb_neq in Hs. now rewrite Hs. }
      assert (Hst : keys_of (candidates_of st')
                    = keys_of (candidates_of st) ++ [occurrence_key o]).
      { unfold st', add_candidate, keys_of. simpl. now rewrite map_app. }
      assert (Eks : ks = occurrence_key o :: ks').
      { rewrite Hkeys, Hst, <- app_assoc in Hks.
        apply app_inv_head in Hks. now symmetry. }
      rewrite Hf. destruct l1 as [|k0 l1]; simpl in E; rewrite Eks in E;
        injection E as E0 E.
      * subst k1. exists [], (occurrence_keys l).
        split; [reflexivity|inversion 1].
      * subst k0.
        destruct (IH st' ks' Hkeys l1 k1 l2 k2 l3 E) as (m1 & m2 & Em & Hm).
        exists (occurrence_key o :: m1), m2. rewrite Em.
        split; [reflexivity|]. rewrite elem_of_cons. intros [->|Hin];
          [|contradiction].
        assert (Hin : occurrence_key o ∈ ks').
        { rewrite E, !elem_of_app, !elem_of_cons, !elem_of_app,
            !elem_of_cons. tauto. }
        apply Hmem in Hin. destruct Hin as [Hnot _]. apply Hnot.
        unfold st', add_candidate. simpl.
        change (candidate_key _) with (occurrence_key o).
        rewrite elem_of_union, elem_of_singleton. now left.
    + destruct (IH st ks Hks l1 k1 l2 k2 l3 E) as (m1 & m2 & Em & Hm).
      unfold occurrence_keys at 1, has_selector. simpl.
      destruct (String.eqb_spec (node_selector (snd o)) "") as [Hs|Hs];
        simpl.
      * exists m1, m2. split; [exact Em|exact Hm].
      * destruct Hn as [Hn|Hn]; [contradiction|].
        fold has_selector. fold (occurrence_keys l). rewrite Em.
        exists (occurrence_key o :: m1), m2.
        split; [reflexivity|]. rewrite elem_of_cons. intros [->|Hin];
          [|contradiction].
        destruct (walk_keys l st) as (ks' & Hkeys & _ & Hmem).
        rewrite Hkeys in Hks. apply app_inv_head in Hks. subst ks'.
        assert (Hin : occurrence_key o ∈ ks).
        { rewrite E, !elem_of_app, !elem_of_cons, !elem_of_app,
            !elem_of_cons. tauto. }
        apply Hmem in Hin. now destruct Hin.
Qed.

Lemma promoted_from_length (rules : list Rule) (new : list Candidate) :
  promoted_from url out_dir page rules new ->
  length new <= length (List.filter is_eligible rules).
Proof.
  induction 1 as [|r rules cs _ IH|r rules c cs Hc _ IH]; simpl.
  - lia.
  - destruct (is_eligible r); simpl; lia.
  - destruct Hc as [He _].
    assert (E : is_eligible r = true).
    { unfold is_eligible. destruct He as [-> | ->]; reflexivity. }
    rewrite E. simpl. lia.
Qed.

End CandidateOrder.

(** X24. The must-review candidates come in the order of the scan, one
    for each distinct (rule id, selector) pair that a node with a
    selector has in the violations and incomplete buckets: their keys
    are those pairs, each once, in the order of their first occurrence
    among the occurrences (of two candidates, the earlier one's pair
    occurs before every occurrence of the later one's), and their number
    is the number of distinct pairs.  The promoted candidates follow them, at most one for each
    image-alt or link-name entry of the passes bucket. *)
Theorem must_review_in_order (url out_dir : string) (page : Page)
    (payload : AxePayload) :
  (map candidate_key
     (candidates_of (must_review url out_dir page payload (∅, [])))
   `sublist_of` occurrence_keys (must_review_occurrences payload))
  /\ NoDup (map candidate_key
              (candidates_of (must_review url out_dir page payload (∅, []))))
  /\ (forall k,
        k ∈ map candidate_key
              (candidates_of (must_review url out_dir page payload (∅, [])))
        <-> k ∈ occurrence_keys (must_review_occurrences payload))
  /\ (forall l1 k1 l2 k2 l3,
        map candidate_key
          (candidates_of (must_review url out_dir page payload (∅, [])))
        = l1 ++ k1 :: l2 ++ k2 :: l3 ->
        exists m1 m2,
          occurrence_keys (must_review_occurrences payload) = m1 ++ k1 :: m2
          /\ k2 ∉ m1)
  /\ length (candidates_of (must_review url out_dir page payload (∅, [])))
     = size (list_to_set (occurrence_keys (must_review_occurrences payload))
               : gset Key)
  /\ (forall cands,
        run_axe_on_url url out_dir page payload = Ok cands ->
        exists promoted,
          cands
          = candidates_of (must_review url out_dir page payload (∅, []))
            ++ promoted
          /\ length promoted
             <= length (List.filter is_eligible (passes payload))).
Proof.
  rewrite must_review_as_fold.
  destruct (walk_keys url out_dir page (must_review_occurrences payload)
              (∅, [])) as (ks & Hkeys & Hsub & Hmem).
  pose proof (walk_first url out_dir page (must_review_occurrences payload)
                (∅, []) ks Hkeys) as Hfirst.
  change (keys_of (candidates_of (∅, []))) with (@nil Key) in Hkeys.
  simpl in Hkeys. unfold keys_of in Hkeys. rewrite Hkeys.
  assert (Hnd : NoDup ks).
  { rewrite <- Hkeys.
    pose proof (occurrences_grow url out_dir page
                  (must_review_occurrences payload) (∅, [])) as Hg.
    apply grows_inv in Hg; [|exact scan_inv_empty]. apply Hg. }
  assert (Hiff : forall k,
            k ∈ ks <-> k ∈ occurrence_keys (must_review_occurrences payload)).
  { intros k. rewrite Hmem. simpl. split; [tauto|].
    intros H. split; [apply not_elem_of_empty|exact H]. }
  refine (conj Hsub (conj Hnd (conj Hiff (conj Hfirst (conj _ _))))).
  - rewrite <- (length_map candidate_key), Hkeys.
    rewrite <- (size_list_to_set (C := gset Key) ks) by exact Hnd.
    f_equal. apply set_eq. intros k. rewrite !elem_of_list_to_set.
    apply Hiff.
  - intros cands Hrun.
    destruct (run_axe_on_url_parts url out_dir page payload cands Hrun)
      as (promoted & E & Hp & _).
    exists promoted. rewrite must_review_as_fold in E.
    split; [exact E|]. now apply promoted_from_length with url out_dir page.
Qed.

Lemma must_review_in_order_witness :
  let cands :=
    match run_axe_on_url "https://example.org" "out" sample_page sample_scan
    with Ok l => l | Raise _ => [] end in
  exists promoted,
    cands
    = candidates_of
        (must_review "https://example.org" "out" sample_page sample_scan
           (∅, []))
      ++ promoted
    /\ length promoted <= length (List.filter is_eligible (passes sample_scan)).
Proof.
  intros cands.
  apply (proj2 (proj2 (proj2 (proj2 (proj2
           (must_review_in_order "https://example.org" "out" sample_page
              sample_scan)))))).
  vm_compute. reflexivity.
Defined.
